(** * OpenViking real-time context sync daemon: a shallow embedding

    The definitions below follow [scripts/viking_daemon.py] (and the start-up
    guard of [scripts/openviking_mcp.py]) function by function.

    - Python [str] values are Rocq strings; a character is a code point
      below 256.  A [str] can also hold a lone surrogate, which cannot be
      encoded as UTF-8: whether a text can be encoded is an input
      ([encodable]) of the functions that compute a digest.
    - A function that can raise returns a [result]; where the state an
      exception leaves behind matters, it returns that state together with
      an [option exn].
    - Python [int] values are [Z]; wall-clock times ([time.time()]) are
      rationals [Q], and [int(x)] truncates towards zero.
    - [self.sessions] is an insertion-ordered association list, because the
      iteration order of the dict decides which export comes first and which
      session [min] picks on a tie; [self.file_cursors] is a [gmap].
    - The file system, the HTTP endpoint, [json.loads] and [hashlib.md5] are
      inputs of the functions that use them. *)

From Stdlib Require Import String Ascii ZArith QArith Qround List Lia Bool DecimalString.
From stdpp Require Import gmap strings list fin_maps sorting.
Import ListNotations.

Local Open Scope string_scope.
Local Open Scope Z_scope.

(** ** Text *)

Module Text.

Definition dquote : ascii := ascii_of_nat 34.
Definition squote : ascii := ascii_of_nat 39.
Definition newline : ascii := ascii_of_nat 10.

(** [str.isspace] on a code point below 256; the regex class [\s] of a
    [str] pattern is the same set. *)
Definition isspace (c : ascii) : bool :=
  let n := N_of_ascii c in
  (((9 <=? n) && (n <=? 13)) || ((28 <=? n) && (n <=? 32))
   || (n =? 133) || (n =? 160))%N.

(** [\w] of a [str] pattern: [str.isalnum] or the underscore. *)
Definition isword (c : ascii) : bool :=
  let n := N_of_ascii c in
  (((48 <=? n) && (n <=? 57)) || ((65 <=? n) && (n <=? 90))
   || ((97 <=? n) && (n <=? 122)) || (n =? 95)
   || (n =? 170) || (n =? 178) || (n =? 179) || (n =? 181)
   || (n =? 185) || (n =? 186) || ((188 <=? n) && (n <=? 190))
   || ((192 <=? n) && (n <=? 214)) || ((216 <=? n) && (n <=? 246))
   || (248 <=? n))%N.

(** Lower case of an ASCII letter; what IGNORECASE folds for the letters
    the patterns contain, and what [str.lower] does to the letters the
    ignore prefixes contain. *)
Definition lower (c : ascii) : ascii :=
  let n := N_of_ascii c in
  if ((65 <=? n) && (n <=? 90))%N then ascii_of_N (n + 32) else c.

Fixpoint lower_str (s : string) : string :=
  match s with
  | EmptyString => EmptyString
  | String c s' => String (lower c) (lower_str s')
  end.

Fixpoint lstrip (s : string) : string :=
  match s with
  | EmptyString => EmptyString
  | String c s' => if isspace c then lstrip s' else s
  end.

Fixpoint rstrip (s : string) : string :=
  match s with
  | EmptyString => EmptyString
  | String c s' =>
      match rstrip s' with
      | EmptyString => if isspace c then EmptyString else String c EmptyString
      | r => String c r
      end
  end.

(** [s.strip()] *)
Definition strip (s : string) : string := rstrip (lstrip s).

(** [s[:n]] *)
Fixpoint take (n : nat) (s : string) : string :=
  match n, s with
  | S k, String c s' => String c (take k s')
  | _, _ => EmptyString
  end.

(** [s[n:]] *)
Fixpoint drop (n : nat) (s : string) : string :=
  match n, s with
  | S k, String _ s' => drop k s'
  | _, _ => s
  end.

(** [s.startswith(p)] *)
Fixpoint startswith (p s : string) : bool :=
  match p, s with
  | EmptyString, _ => true
  | String a p', String b s' => Ascii.eqb a b && startswith p' s'
  | String _ _, EmptyString => false
  end.

(** [c * n] for a one-character string [c]. *)
Fixpoint replicate (n : nat) (c : ascii) : string :=
  match n with
  | O => EmptyString
  | S k => String c (replicate k c)
  end.

(** [sep.join(parts)] *)
Fixpoint join (sep : string) (parts : list string) : string :=
  match parts with
  | [] => EmptyString
  | [p] => p
  | p :: rest => p ++ sep ++ join sep rest
  end.

End Text.

(** ** Regular expressions

    The six redaction patterns are sequences of single characters and of
    quantified character classes, with group marks and [\b].  [match_here]
    is the backtracking matcher for such sequences: a greedy quantifier takes
    the longest run first and gives characters back one at a time. *)

Module Regex.
Import Text.

Inductive item : Type :=
| Chr (p : ascii -> bool)            (* one character of a class *)
| Opt (p : ascii -> bool)            (* [x?] *)
| Many (n : nat) (p : ascii -> bool) (* [x{n,}]: [x*] is 0, [x+] is 1 *)
| Bnd                                (* [\b] *)
| Eol                                (* [$] *)
| Open (g : nat)                     (* [(] of group g *)
| Close (g : nat).                   (* [)] of group g *)

(** Groups being matched: [opened] maps a group to its start offset,
    [closed] to its (start, end) offsets, counted from the match start. *)
Record caps : Type := { opened : list (nat * nat); closed : list (nat * (nat * nat)) }.

Definition no_caps : caps := {| opened := []; closed := [] |}.

Fixpoint assoc {A : Type} (k : nat) (l : list (nat * A)) : option A :=
  match l with
  | [] => None
  | (k', v) :: l' => if Nat.eqb k k' then Some v else assoc k l'
  end.

Definition open_group (g pos : nat) (st : caps) : caps :=
  {| opened := (g, pos) :: opened st; closed := closed st |}.

Definition close_group (g pos : nat) (st : caps) : caps :=
  match assoc g (opened st) with
  | Some start => {| opened := opened st; closed := (g, (start, pos)) :: closed st |}
  | None => st
  end.

Definition word_before (prev : option ascii) : bool :=
  match prev with Some c => isword c | None => false end.

Definition word_after (s : string) : bool :=
  match s with String c _ => isword c | EmptyString => false end.

Definition at_boundary (prev : option ascii) (s : string) : bool :=
  xorb (word_before prev) (word_after s).

(** [$]: at the end of the string, or before a newline that ends it. *)
Definition at_end (s : string) : bool :=
  match s with
  | EmptyString => true
  | String c EmptyString => Ascii.eqb c newline
  | _ => false
  end.

(** The loop of a greedy quantifier [x{n,}] that has consumed [k]
    characters: take one more character of the class if there is one and try
    on; failing that, go on with the rest of the pattern, [cont], if [k]
    characters are enough. *)
Fixpoint greedy (n : nat) (p : ascii -> bool)
         (cont : option ascii -> string -> nat -> option (caps * nat))
         (k : nat) (prev : option ascii) (s : string) (pos : nat) {struct s}
  : option (caps * nat) :=
  match s with
  | String c s' =>
      if p c then
        match greedy n p cont (S k) (Some c) s' (S pos) with
        | Some m => Some m
        | None => if (n <=? k)%nat then cont prev s pos else None
        end
      else if (n <=? k)%nat then cont prev s pos else None
  | EmptyString => if (n <=? k)%nat then cont prev s pos else None
  end.

(** [match_here its prev s pos st]: match the items [its] against [s],
    which starts [pos] characters into the match and is preceded by
    [prev]; the result is the captures and the end offset of the first
    match in backtracking order. *)
Fixpoint match_here (its : list item) (prev : option ascii) (s : string)
         (pos : nat) (st : caps) {struct its} : option (caps * nat) :=
  match its with
  | [] => Some (st, pos)
  | Chr p :: r =>
      match s with
      | String c s' => if p c then match_here r (Some c) s' (S pos) st else None
      | EmptyString => None
      end
  | Opt p :: r =>
      match s with
      | String c s' =>
          if p c then
            match match_here r (Some c) s' (S pos) st with
            | Some m => Some m
            | None => match_here r prev s pos st
            end
          else match_here r prev s pos st
      | EmptyString => match_here r prev s pos st
      end
  | Many n p :: r =>
      greedy n p (fun prev' s' pos' => match_here r prev' s' pos' st) O prev s pos
  | Bnd :: r => if at_boundary prev s then match_here r prev s pos st else None
  | Eol :: r => if at_end s then match_here r prev s pos st else None
  | Open g :: r => match_here r prev s pos (open_group g pos st)
  | Close g :: r => match_here r prev s pos (close_group g pos st)
  end.

(** A replacement template: literal text and group references. *)
Inductive piece : Type :=
| Lit (s : string)
| Ref (g : nat).

Definition group_text (g : nat) (st : caps) (s : string) : string :=
  match assoc g (closed st) with
  | Some (a, b) => take (b - a) (drop a s)
  | None => EmptyString
  end.

Fixpoint expand (repl : list piece) (st : caps) (s : string) : string :=
  match repl with
  | [] => EmptyString
  | Lit t :: r => t ++ expand r st s
  | Ref g :: r => group_text g st s ++ expand r st s
  end.

(** [pattern.sub(repl, s)]: the leftmost matches, not overlapping, each
    replaced by the expanded template.  [skip] counts the characters of
    [s] that still belong to the match found last. *)
Fixpoint sub_scan (its : list item) (repl : list piece) (prev : option ascii)
         (s : string) (skip : nat) {struct s} : string :=
  match s with
  | EmptyString =>
      match skip with
      | O => match match_here its prev EmptyString O no_caps with
             | Some (st, _) => expand repl st EmptyString
             | None => EmptyString
             end
      | S _ => EmptyString
      end
  | String c s' =>
      match skip with
      | S k => sub_scan its repl (Some c) s' k
      | O =>
          match match_here its prev s O no_caps with
          | Some (st, S len) => expand repl st s ++ sub_scan its repl (Some c) s' len
          | Some (st, O) => expand repl st s ++ String c (sub_scan its repl (Some c) s' O)
          | None => String c (sub_scan its repl (Some c) s' O)
          end
      end
  end.

Definition sub (its : list item) (repl : list piece) (s : string) : string :=
  sub_scan its repl None s O.

(** Pattern syntax. *)
Definition lit (c : ascii) : item := Chr (Ascii.eqb c).
Definition lit_i (c : ascii) : item := Chr (fun x => Ascii.eqb (lower x) (lower c)).
Definition lits (s : string) : list item := List.map lit (list_ascii_of_string s).
Definition lits_i (s : string) : list item := List.map lit_i (list_ascii_of_string s).

Fixpoint one_of (cs : string) (c : ascii) : bool :=
  match cs with
  | EmptyString => false
  | String a cs' => Ascii.eqb a c || one_of cs' c
  end.

End Regex.


(** ** Sanitizer *)

Module Sanitizer.
Import Text Regex.

Definition not_space_or_quote (c : ascii) : bool :=
  negb (isspace c || Ascii.eqb c dquote || Ascii.eqb c squote).

Definition not_space (c : ascii) : bool := negb (isspace c).

(** [[A-Za-z0-9_-]] *)
Definition key_char (c : ascii) : bool :=
  let n := N_of_ascii c in
  (((65 <=? n) && (n <=? 90)) || ((97 <=? n) && (n <=? 122))
   || ((48 <=? n) && (n <=? 57)) || (n =? 95) || (n =? 45))%N.

(** Group 1: the keyword, optional white space, [=] or [:], optional white
    space.  Group 2: one or more characters other than white space, the
    double quote and the single quote.  IGNORECASE. *)
Definition assignment_pattern (keyword : list item) : list item :=
  ([Open 1] ++ keyword ++ [Many 0 isspace; Chr (one_of "=:"); Many 0 isspace; Close 1;
                           Open 2; Many 1 not_space_or_quote; Close 2])%list.

(** Group 1: the flag and one or more white space characters.  Group 2: one
    or more characters other than white space.  IGNORECASE. *)
Definition flag_pattern (flag : string) : list item :=
  ([Open 1] ++ lits_i flag ++ [Many 1 isspace; Close 1; Open 2; Many 1 not_space; Close 2])%list.

Definition SECRET_REPLACEMENTS : list (list item * list piece) :=
  [ (assignment_pattern (lits_i "api" ++ [Opt (one_of "_-")] ++ lits_i "key")%list,
     [Ref 1; Lit "***"]);
    (assignment_pattern (lits_i "token"), [Ref 1; Lit "***"]);
    (assignment_pattern (lits_i "password"), [Ref 1; Lit "***"]);
    (flag_pattern "--api-key", [Ref 1; Lit "***"]);
    (flag_pattern "--token", [Ref 1; Lit "***"]);
    (([Bnd; Open 1] ++ lits "sk-" ++ [Many 16 key_char; Close 1; Bnd])%list, [Lit "sk-***"]) ].

(** The loop [for pattern, repl in SECRET_REPLACEMENTS: out = pattern.sub(repl, out)]. *)
Definition redact (s : string) : string :=
  fold_left (fun out pr => sub (fst pr) (snd pr) out) SECRET_REPLACEMENTS s.

Definition truncate (s : string) : string :=
  if (4000 <? String.length s)%nat then take 4000 s else s.

(** [_sanitize_text]; on a [str] argument no step of it can raise. *)
Definition _sanitize_text (text : string) : string :=
  match text with
  | EmptyString => EmptyString
  | _ => truncate (redact (strip text))
  end.

End Sanitizer.

(** ** Python values and exceptions *)

Module Py.
Import Text.

(** The exceptions met in the modelled code.  [OSError] stands for its
    subclasses too.  In Python [JSONDecodeError] and [UnicodeEncodeError]
    are ValueErrors; no handler of the daemon names ValueError, so the
    three are kept apart. *)
Inductive exn : Type :=
| AttributeError
| TypeError
| ValueError
| OSError
| JSONDecodeError
| RecursionError
| UnicodeEncodeError.

Inductive result (A : Type) : Type :=
| Ok (a : A)
| Raise (e : exn).

Arguments Ok {A} a.
Arguments Raise {A} e.

Definition bind {A B : Type} (r : result A) (f : A -> result B) : result B :=
  match r with
  | Ok a => f a
  | Raise e => Raise e
  end.


(** What [json.loads] returns. *)
#[warnings="-register-all"]
Inductive json : Type :=
| JNull
| JBool (b : bool)
| JInt (n : Z)
| JFloat (q : Q)
| JStr (s : string)
| JList (l : list json)
| JDict (kv : list (string * json)).

Fixpoint lookup_key (k : string) (kv : list (string * json)) : option json :=
  match kv with
  | [] => None
  | (k', v) :: kv' => if String.eqb k k' then Some v else lookup_key k kv'
  end.

(** [d.get(k, default)]; on anything but a dict the attribute is missing. *)
Definition get_default (d : json) (k : string) (default : json) : result json :=
  match d with
  | JDict kv => Ok (match lookup_key k kv with Some v => v | None => default end)
  | _ => Raise AttributeError
  end.

(** [d.get(k)] *)
Definition get (d : json) (k : string) : result json := get_default d k JNull.

(** [bool(v)] *)
Definition truthy (v : json) : bool :=
  match v with
  | JNull => false
  | JBool b => b
  | JInt n => negb (Z.eqb n 0)
  | JFloat q => negb (Qeq_bool q 0)
  | JStr s => negb (String.eqb s EmptyString)
  | JList l => match l with [] => false | _ => true end
  | JDict kv => match kv with [] => false | _ => true end
  end.

(** [v == s] for a string literal [s] *)
Definition eq_str (v : json) (s : string) : bool :=
  match v with
  | JStr t => String.eqb t s
  | _ => false
  end.

Definition nonempty (s : string) : bool := negb (String.eqb s EmptyString).

(** [str(n)] for an int *)
Definition str_of_int (n : Z) : string := NilZero.string_of_int (Z.to_int n).

(** [int(s)] for a string of decimal digits *)
Fixpoint int_of_digits (acc : Z) (s : string) : Z :=
  match s with
  | EmptyString => acc
  | String c s' => int_of_digits (10 * acc + (Z.of_N (N_of_ascii c) - 48)) s'
  end.

(** [int(x)] for a float: truncation towards zero *)
Definition int_of_float (q : Q) : Z :=
  if Qle_bool 0 q then Qfloor q else Qceiling q.

(** [l[-n:]] *)
Definition last_n {A : Type} (n : nat) (l : list A) : list A :=
  skipn (length l - n) l.

End Py.

(** ** Configuration and state *)

Module Daemon.
Import Text Regex Py Sanitizer.

(** The module-level constants, as computed from the environment when the
    script is loaded.  The two [env_] fields are the integers read from
    VIKING_FAST_POLL_INTERVAL_SEC and VIKING_PENDING_RETRY_INTERVAL_SEC,
    before their floors are applied. *)
Record Config : Type := {
  OPENVIKING_URL : string;
  HOME : string;
  LOCAL_STORAGE_ROOT : string;
  ENABLE_SHELL_MONITOR : bool;
  IDLE_TIMEOUT_SEC : Z;
  POLL_INTERVAL_SEC : Z;
  env_FAST_POLL_INTERVAL_SEC : Z;
  env_PENDING_RETRY_INTERVAL_SEC : Z;
  MAX_TRACKED_SESSIONS : Z;
  MAX_FILE_CURSORS : Z;
  SESSION_TTL_SEC : Z;
  MAX_MESSAGES_PER_SESSION : Z
}.

Definition FAST_POLL_INTERVAL_SEC (cfg : Config) : Z :=
  Z.max 1 (env_FAST_POLL_INTERVAL_SEC cfg).

Definition PENDING_RETRY_INTERVAL_SEC (cfg : Config) : Z :=
  Z.max 5 (env_PENDING_RETRY_INTERVAL_SEC cfg).

Definition HISTORY_DIR (cfg : Config) : string :=
  LOCAL_STORAGE_ROOT cfg ++ "/resources/shared/history".

Definition PENDING_DIR (cfg : Config) : string := HISTORY_DIR cfg ++ "/.pending".

Definition CODEX_SESSIONS (cfg : Config) : string := HOME cfg ++ "/.codex/sessions".

(** The configuration with every variable unset. *)
Definition default_config (home : string) : Config := {|
  OPENVIKING_URL := "http://127.0.0.1:8090/api/v1";
  HOME := home;
  LOCAL_STORAGE_ROOT := home ++ "/.unified_context_data";
  ENABLE_SHELL_MONITOR := true;
  IDLE_TIMEOUT_SEC := 300;
  POLL_INTERVAL_SEC := 30;
  env_FAST_POLL_INTERVAL_SEC := 3;
  env_PENDING_RETRY_INTERVAL_SEC := 60;
  MAX_TRACKED_SESSIONS := 240;
  MAX_FILE_CURSORS := 800;
  SESSION_TTL_SEC := 7200;
  MAX_MESSAGES_PER_SESSION := 500
|}.

Record jsonl_source : Type := {
  path : string;
  sid_keys : list string;
  text_keys : list string
}.

Definition prompt_history (p : string) : jsonl_source :=
  {| path := p;
     sid_keys := ["session_id"; "sessionId"; "id"];
     text_keys := ["input"; "prompt"; "text"] |}.

Definition JSONL_SOURCES (cfg : Config) : list (string * list jsonl_source) :=
  [ ("claude_code",
     [ {| path := HOME cfg ++ "/.claude/history.jsonl";
          sid_keys := ["sessionId"; "session_id"];
          text_keys := ["display"; "text"; "input"; "prompt"] |} ]);
    ("codex_history",
     [ {| path := HOME cfg ++ "/.codex/history.jsonl";
          sid_keys := ["session_id"; "sessionId"; "id"];
          text_keys := ["text"; "input"; "prompt"] |} ]);
    ("opencode",
     [ prompt_history (HOME cfg ++ "/.local/state/opencode/prompt-history.jsonl");
       prompt_history (HOME cfg ++ "/.config/opencode/prompt-history.jsonl");
       prompt_history (HOME cfg ++ "/.opencode/prompt-history.jsonl") ]);
    ("kilo",
     [ prompt_history (HOME cfg ++ "/.local/state/kilo/prompt-history.jsonl");
       prompt_history (HOME cfg ++ "/.config/kilo/prompt-history.jsonl") ]) ].

Definition SHELL_SOURCES (cfg : Config) : list (string * list string) :=
  [ ("shell_zsh", [HOME cfg ++ "/.zsh_history"]);
    ("shell_bash", [HOME cfg ++ "/.bash_history"]) ].

Definition isdigit (c : ascii) : bool :=
  let n := N_of_ascii c in ((48 <=? n) && (n <=? 57))%N.

(** The pattern of an extended zsh history line: a colon, optional white
    space, digits (group 1), a colon, digits, a semicolon, the rest of the
    line (group 2). *)
Definition SHELL_LINE_RE : list item :=
  [ lit ":"; Many 0 isspace; Open 1; Many 1 isdigit; Close 1; lit ":";
    Many 1 isdigit; lit ";"; Open 2;
    Many 0 (fun c => negb (Ascii.eqb c newline)); Close 2; Eol ].

Definition IGNORE_SHELL_CMD_PREFIXES : list string := ["history"; "fc "].

Record session : Type := {
  last_seen : Q;
  messages : list string;
  exported : bool;
  source : string;
  created : Q;
  last_hash : string
}.

Inductive level : Type := INFO | WARNING | ERROR.

(** The fields of a [SessionTracker] the modelled methods use, and [log],
    the records they hand to the logger. *)
Record tracker : Type := {
  sessions : list (string * session);
  file_cursors : gmap string Z;
  active_jsonl : list (string * jsonl_source);
  active_shell : list (string * string);
  _last_source_refresh : Q;
  _last_pending_retry : Q;
  _export_count : Z;
  _error_count : Z;
  _last_activity_ts : Q;
  _http_client : bool;
  log : list (level * string)
}.

Definition set_sessions (s : list (string * session)) (t : tracker) : tracker :=
  {| sessions := s; file_cursors := file_cursors t; active_jsonl := active_jsonl t;
     active_shell := active_shell t; _last_source_refresh := _last_source_refresh t;
     _last_pending_retry := _last_pending_retry t;
     _export_count := _export_count t; _error_count := _error_count t;
     _last_activity_ts := _last_activity_ts t; _http_client := _http_client t;
     log := log t |}.

Definition set_file_cursors (c : gmap string Z) (t : tracker) : tracker :=
  {| sessions := sessions t; file_cursors := c; active_jsonl := active_jsonl t;
     active_shell := active_shell t; _last_source_refresh := _last_source_refresh t;
     _last_pending_retry := _last_pending_retry t;
     _export_count := _export_count t; _error_count := _error_count t;
     _last_activity_ts := _last_activity_ts t; _http_client := _http_client t;
     log := log t |}.

Definition set_active (j : list (string * jsonl_source)) (s : list (string * string))
           (t : tracker) : tracker :=
  {| sessions := sessions t; file_cursors := file_cursors t; active_jsonl := j;
     active_shell := s; _last_source_refresh := _last_source_refresh t;
     _last_pending_retry := _last_pending_retry t;
     _export_count := _export_count t; _error_count := _error_count t;
     _last_activity_ts := _last_activity_ts t; _http_client := _http_client t;
     log := log t |}.

Definition set_last_source_refresh (q : Q) (t : tracker) : tracker :=
  {| sessions := sessions t; file_cursors := file_cursors t; active_jsonl := active_jsonl t;
     active_shell := active_shell t; _last_source_refresh := q;
     _last_pending_retry := _last_pending_retry t;
     _export_count := _export_count t; _error_count := _error_count t;
     _last_activity_ts := _last_activity_ts t; _http_client := _http_client t;
     log := log t |}.

Definition set_last_pending_retry (q : Q) (t : tracker) : tracker :=
  {| sessions := sessions t; file_cursors := file_cursors t; active_jsonl := active_jsonl t;
     active_shell := active_shell t; _last_source_refresh := _last_source_refresh t;
     _last_pending_retry := q;
     _export_count := _export_count t; _error_count := _error_count t;
     _last_activity_ts := _last_activity_ts t; _http_client := _http_client t;
     log := log t |}.

Definition set_export_count (n : Z) (t : tracker) : tracker :=
  {| sessions := sessions t; file_cursors := file_cursors t; active_jsonl := active_jsonl t;
     active_shell := active_shell t; _last_source_refresh := _last_source_refresh t;
     _last_pending_retry := _last_pending_retry t;
     _export_count := n; _error_count := _error_count t;
     _last_activity_ts := _last_activity_ts t; _http_client := _http_client t;
     log := log t |}.

Definition set_error_count (n : Z) (t : tracker) : tracker :=
  {| sessions := sessions t; file_cursors := file_cursors t; active_jsonl := active_jsonl t;
     active_shell := active_shell t; _last_source_refresh := _last_source_refresh t;
     _last_pending_retry := _last_pending_retry t;
     _export_count := _export_count t; _error_count := n;
     _last_activity_ts := _last_activity_ts t; _http_client := _http_client t;
     log := log t |}.

Definition set_last_activity_ts (q : Q) (t : tracker) : tracker :=
  {| sessions := sessions t; file_cursors := file_cursors t; active_jsonl := active_jsonl t;
     active_shell := active_shell t; _last_source_refresh := _last_source_refresh t;
     _last_pending_retry := _last_pending_retry t;
     _export_count := _export_count t; _error_count := _error_count t;
     _last_activity_ts := q; _http_client := _http_client t;
     log := log t |}.

(** [logger.<level>(msg)] *)
Definition logging (l : level) (msg : string) (t : tracker) : tracker :=
  {| sessions := sessions t; file_cursors := file_cursors t; active_jsonl := active_jsonl t;
     active_shell := active_shell t; _last_source_refresh := _last_source_refresh t;
     _last_pending_retry := _last_pending_retry t;
     _export_count := _export_count t; _error_count := _error_count t;
     _last_activity_ts := _last_activity_ts t; _http_client := _http_client t;
     log := (log t ++ [(l, msg)])%list |}.

(** Insertion-ordered dicts with string keys. *)
Fixpoint dict_get {A : Type} (k : string) (d : list (string * A)) : option A :=
  match d with
  | [] => None
  | (k', v) :: d' => if String.eqb k k' then Some v else dict_get k d'
  end.

(** [d[k] = v]: in place if the key is there, at the end otherwise. *)
Fixpoint dict_set {A : Type} (k : string) (v : A) (d : list (string * A)) : list (string * A) :=
  match d with
  | [] => [(k, v)]
  | (k', v') :: d' => if String.eqb k k' then (k', v) :: d' else (k', v') :: dict_set k v d'
  end.

(** [del d[k]] *)
Fixpoint dict_del {A : Type} (k : string) (d : list (string * A)) : list (string * A) :=
  match d with
  | [] => []
  | (k', v') :: d' => if String.eqb k k' then d' else (k', v') :: dict_del k d'
  end.

Definition ltb_Q (a b : Q) : bool := negb (Qle_bool b a).


(** ** The world outside the process *)

(** What iterating over an opened file yields after [f.seek(last)]: the
    lines read, and the exception that ended the iteration, if one did.  A
    failing [open] is no lines and a failure. *)
Record read_result : Type := { lines : list string; failure : option exn }.

(** A POST either returns a response with a status code, or raises (network
    error, timeout). *)
Inductive post_outcome : Type :=
| Status (code : Z)
| PostRaises.

(** How [p.write_text(text)] ends: the file holds the text, or the call
    raises [x]; [kept] is then [None] when the file was not opened (it is
    as before), and [Some n] when it was opened and is left with the first
    [n] characters of the text. *)
Inductive write_outcome : Type :=
| Written
| WriteRaises (x : exn) (kept : option nat).

Record pending_file : Type := { pf_name : string; pf_mtime : Q }.

(** What the daemon leaves outside its own memory: the artifacts under the
    history directory, the files of the pending directory, and the POST
    requests sent so far (by the [path] of their payload). *)
Record disk : Type := {
  history : list (string * string);
  outbox : list pending_file;
  requests : list string
}.

(** What one pass observes: the clock, the monitored files, and how the
    outside answers.  [None] from [getsize], [getmtime] or [codex_glob] is
    an OSError; [None] from [strftime_day] is [datetime.fromtimestamp]
    raising.  [mkdir_ok p] and [chmod_ok p] are false when
    [p.mkdir(parents=True, exist_ok=True)] and [os.chmod(p, 0o600)] raise
    an OSError; [write_text p text] is how [p.write_text(text)] ends;
    [respond n p] answers the POST of path [p] made after [n] earlier
    requests; [listing_ok] is false when [any(PENDING_DIR.glob(...))]
    raises, and [pending_sorted_ok] when sorting that listing by
    modification time does. *)
Record env : Type := {
  clock : Q;
  path_exists : string -> bool;
  getsize : string -> option Z;
  getmtime : string -> option Q;
  read_from : string -> Z -> read_result;
  codex_isdir : bool;
  codex_glob : option (list string);
  strftime_day : Z -> option string;
  now_stamp : string;
  now_iso : string;
  mkdir_ok : string -> bool;
  write_text : string -> string -> write_outcome;
  chmod_ok : string -> bool;
  respond : nat -> string -> post_outcome;
  listing_ok : bool;
  pending_sorted_ok : bool
}.

(** [os.path.basename]: what follows the last slash. *)
Fixpoint basename (p : string) : string :=
  match p with
  | EmptyString => EmptyString
  | String c p' =>
      if existsb (Ascii.eqb "/") (list_ascii_of_string p') then basename p'
      else if Ascii.eqb c "/" then p' else p
  end.

(** A value computed in state [t]: when the computation raises, the state
    is as it was. *)
Definition bind_in {A : Type} (t : tracker) (r : result A)
           (k : A -> tracker * option exn) : tracker * option exn :=
  match r with
  | Ok a => k a
  | Raise x => (t, Some x)
  end.

Section Methods.

(** [hashlib.md5(s.encode(utf-8)).hexdigest()] is [md5 s] when
    [encodable s], and a UnicodeEncodeError otherwise (a lone surrogate,
    which [json.loads] yields from an escape); the paths of the monitored
    files are taken to be encodable.  [json_loads] is [json.loads]: the
    value, or the exception raised, which is JSONDecodeError on malformed
    text, ValueError on an integer literal of too many digits and
    RecursionError on nesting too deep. *)
Variable md5 : string -> string.
Variable encodable : string -> bool.
Variable json_loads : string -> result json.
Variable cfg : Config.

Definition _cursor_key (kind source_name path : string) : string :=
  kind ++ ":" ++ source_name ++ ":" ++ take 10 (md5 path).

(** ** Parsing helpers *)

(** [str(val)] when [isinstance(val, (str, int))]; a bool is an int. *)
Definition scalar_str (val : json) : option string :=
  match val with
  | JStr s => Some s
  | JInt n => Some (str_of_int n)
  | JBool b => Some (if b then "True" else "False")
  | _ => None
  end.

Fixpoint _extract_sid (data : json) (sid_keys : list string) (source_name : string)
  : result string :=
  match sid_keys with
  | [] => Ok (source_name ++ "_default")
  | key :: rest =>
      match get data key with
      | Raise e => Raise e
      | Ok val =>
          match scalar_str val with
          | Some s => if nonempty (strip s) then Ok s
                      else _extract_sid data rest source_name
          | None => _extract_sid data rest source_name
          end
      end
  end.

(** The first loop of [_extract_text]: the first text key that holds a
    string which is not blank. *)
Fixpoint probe_text_keys (data : json) (text_keys : list string) : result (option string) :=
  match text_keys with
  | [] => Ok None
  | key :: rest =>
      match get data key with
      | Raise e => Raise e
      | Ok (JStr val) => if nonempty (strip val) then Ok (Some (strip val))
                         else probe_text_keys data rest
      | Ok _ => probe_text_keys data rest
      end
  end.

(** The loop over [parts]. *)
Fixpoint collect_text_parts (parts : list json) : list string :=
  match parts with
  | [] => []
  | JDict kv :: rest =>
      if eq_str (match lookup_key "type" kv with Some v => v | None => JNull end) "text" then
        match lookup_key "text" kv with
        | Some (JStr ptext) =>
            if nonempty (strip ptext) then strip ptext :: collect_text_parts rest
            else collect_text_parts rest
        | _ => collect_text_parts rest
        end
      else collect_text_parts rest
  | _ :: rest => collect_text_parts rest
  end.

Definition _extract_text (data : json) (text_keys : list string) : result string :=
  match probe_text_keys data text_keys with
  | Raise e => Raise e
  | Ok (Some val) => Ok val
  | Ok None =>
      match get data "parts" with
      | Raise e => Raise e
      | Ok (JList parts) =>
          match collect_text_parts parts with
          | [] => Ok EmptyString
          | text_parts =>
              match get data "input" with
              | Raise e => Raise e
              | Ok inp =>
                  let prefix := match inp with JStr s => s | _ => EmptyString end in
                  if nonempty (strip prefix)
                  then Ok (strip prefix ++ String newline (join (String newline EmptyString) text_parts))
                  else Ok (join (String newline EmptyString) text_parts)
              end
          end
      | Ok _ => Ok EmptyString
      end
  end.

(** [_parse_shell_line]; the clock is read once per pass. *)
Definition _parse_shell_line (e : env) (source_name raw_line : string)
  : result (option (string * string)) :=
  let line := strip raw_line in
  if negb (nonempty line) then Ok None else
  let '(ts, cmd) :=
    match match_here SHELL_LINE_RE None line O no_caps with
    | Some (st, _) => (int_of_digits 0 (group_text 1 st line), strip (group_text 2 st line))
    | None => (int_of_float (clock e), line)
    end in
  if negb (nonempty cmd) then Ok None else
  let low := lower_str cmd in
  if existsb (fun p => startswith p low) IGNORE_SHELL_CMD_PREFIXES then Ok None else
  let cmd := _sanitize_text cmd in
  if negb (nonempty cmd) then Ok None else
  match strftime_day e ts with
  | None => Raise ValueError
  | Some day => Ok (Some (source_name ++ "_" ++ day, cmd))
  end.


(** ** Session management *)

(** [min(items, key=lambda x: x[1]["last_seen"])], started from the first
    item: a later item wins only when its key is strictly smaller. *)
Fixpoint min_by_last_seen (best : string * session) (items : list (string * session))
  : string * session :=
  match items with
  | [] => best
  | x :: rest =>
      if ltb_Q (last_seen (snd x)) (last_seen (snd best))
      then min_by_last_seen x rest
      else min_by_last_seen best rest
  end.

(** [_evict_oldest]; [min] of an empty dict raises ValueError. *)
Definition _evict_oldest (t : tracker) : result tracker :=
  match List.filter (fun kv => exported (snd kv)) (sessions t) with
  | x :: rest =>
      Ok (set_sessions (dict_del (fst (min_by_last_seen x rest)) (sessions t)) t)
  | [] =>
      match sessions t with
      | [] => Raise ValueError
      | x :: rest =>
          Ok (set_sessions (dict_del (fst (min_by_last_seen x rest)) (sessions t)) t)
      end
  end.

Definition new_session (src : string) (now : Q) : session :=
  {| last_seen := now; messages := []; exported := false; source := src;
     created := now; last_hash := EmptyString |}.

(** The first half of [_upsert_session]: make sure [sid] is tracked. *)
Definition ensure_session (sid src : string) (now : Q) (t : tracker) : result tracker :=
  match dict_get sid (sessions t) with
  | Some _ => Ok t
  | None =>
      bind (if Z.of_nat (length (sessions t)) >=? MAX_TRACKED_SESSIONS cfg
            then _evict_oldest t else Ok t)
           (fun t' => Ok (set_sessions (dict_set sid (new_session src now) (sessions t')) t'))
  end.

(** [sess["messages"].append(text)] and the cap on the message list. *)
Definition append_message (text : string) (msgs : list string) : list string :=
  let msgs' := (msgs ++ [text])%list in
  if Z.of_nat (length msgs') >? MAX_MESSAGES_PER_SESSION cfg
  then last_n 200 msgs' else msgs'.

(** [_upsert_session]: the tracker it leaves, and the exception it raised,
    if any.  The session is inserted before the digest is computed, so a
    text that cannot be encoded leaves the new session behind. *)
Definition _upsert_session (sid src text : string) (now : Q) (t : tracker)
  : tracker * option exn :=
  bind_in t (ensure_session sid src now t) (fun t1 =>
    match dict_get sid (sessions t1) with
    | None => (t1, Some ValueError)
    | Some sess =>
        if negb (encodable text) then (t1, Some UnicodeEncodeError) else
        let digest := md5 text in
        if String.eqb digest (last_hash sess) then (t1, None)
        else
          let sess' := {| last_seen := now;
                          messages := append_message text (messages sess);
                          exported := exported sess;
                          source := source sess;
                          created := created sess;
                          last_hash := digest |} in
          (set_last_activity_ts now (set_sessions (dict_set sid sess' (sessions t1)) t1), None)
    end).

(** ** Tailers *)

(** [for line in f: body], where [body] gives the tracker it leaves and
    the exception it raised, if any. *)
Fixpoint for_each_line (body : string -> tracker -> tracker * option exn)
         (ls : list string) (t : tracker) : tracker * option exn :=
  match ls with
  | [] => (t, None)
  | line :: rest =>
      match body line t with
      | (t', None) => for_each_line body rest t'
      | (t', Some x) => (t', Some x)
      end
  end.

(** [with open(path) as f: f.seek(last); for line in f: body] *)
Definition read_lines_from (e : env) (p : string) (last : Z)
           (body : string -> tracker -> tracker * option exn) (t : tracker)
  : tracker * option exn :=
  let r := read_from e p last in
  match for_each_line body (lines r) t with
  | (t', Some x) => (t', Some x)
  | (t', None) => (t', failure r)
  end.

(** The body of the read loop of [_poll_jsonl_file]; only a
    JSONDecodeError of [json.loads] is caught there. *)
Definition jsonl_line (source_name : string) (src : jsonl_source) (now : Q)
           (line : string) (t : tracker) : tracker * option exn :=
  let line := strip line in
  if negb (nonempty line) then (t, None) else
  match json_loads line with
  | Raise JSONDecodeError => (t, None)
  | Raise x => (t, Some x)
  | Ok data =>
      bind_in t (_extract_sid data (sid_keys src) source_name) (fun sid =>
      bind_in t (_extract_text data (text_keys src)) (fun text =>
      let text := _sanitize_text text in
      if negb (nonempty text) then (t, None)
      else _upsert_session sid source_name text now t))
  end.

Definition _poll_jsonl_file (e : env) (source_name p : string) (src : jsonl_source)
           (cursor_key : string) (now : Q) (t : tracker) : tracker :=
  match getsize e p with
  | None => t
  | Some cur_size =>
      let last := match file_cursors t !! cursor_key with
                  | Some c => c
                  | None => cur_size
                  end in
      let last := if cur_size <? last then 0 else last in
      if cur_size <=? last
      then set_file_cursors (<[cursor_key := cur_size]> (file_cursors t)) t
      else
        match read_lines_from e p last (jsonl_line source_name src now) t with
        | (t', None) => set_file_cursors (<[cursor_key := cur_size]> (file_cursors t')) t'
        | (t', Some _) =>
            logging ERROR ("poll_jsonl_sources(" ++ source_name ++ ")")
                    (set_error_count (_error_count t' + 1) t')
        end
  end.

Definition poll_jsonl_sources (e : env) (t : tracker) : tracker :=
  let now := clock e in
  fold_left (fun t' entry =>
               let '(source_name, src) := entry in
               _poll_jsonl_file e source_name (path src) src
                                (_cursor_key "jsonl" source_name (path src)) now t')
            (active_jsonl t) t.

(** The body of the read loop of [poll_shell_sources]. *)
Definition shell_line (e : env) (source_name : string) (now : Q)
           (line : string) (t : tracker) : tracker * option exn :=
  bind_in t (_parse_shell_line e source_name line) (fun parsed =>
    match parsed with
    | None => (t, None)
    | Some (sid, text) => _upsert_session sid source_name text now t
    end).

(** One turn of the loop of [poll_shell_sources]. *)
Definition poll_shell_file (e : env) (source_name p : string) (now : Q) (t : tracker)
  : tracker :=
  let cursor_key := _cursor_key "shell" source_name p in
  match getsize e p with
  | None => t
  | Some cur_size =>
      let last := match file_cursors t !! cursor_key with
                  | Some c => c
                  | None => cur_size
                  end in
      let last := if cur_size <? last then 0 else last in
      if cur_size <=? last
      then set_file_cursors (<[cursor_key := cur_size]> (file_cursors t)) t
      else
        match read_lines_from e p last (shell_line e source_name now) t with
        | (t', None) => set_file_cursors (<[cursor_key := cur_size]> (file_cursors t')) t'
        | (t', Some _) =>
            logging ERROR ("poll_shell_sources(" ++ source_name ++ ")")
                    (set_error_count (_error_count t' + 1) t')
        end
  end.

Definition poll_shell_sources (e : env) (t : tracker) : tracker :=
  if negb (ENABLE_SHELL_MONITOR cfg) then t else
  let now := clock e in
  fold_left (fun t' entry => poll_shell_file e (fst entry) (snd entry) now t')
            (active_shell t) t.


(** What [for c in v] iterates over: the elements of a list, the keys of a
    dict, the characters of a string; anything else is a TypeError. *)
Definition iterate (v : json) : result (list json) :=
  match v with
  | JList l => Ok l
  | JDict kv => Ok (List.map (fun p => JStr (fst p)) kv)
  | JStr s => Ok (List.map (fun c => JStr (String c EmptyString)) (list_ascii_of_string s))
  | _ => Raise TypeError
  end.

(** The comprehension over [payload.get("content", [])]: the [text] of the
    elements whose [type] is [output_text]. *)
Fixpoint output_texts (content : list json) : result (list json) :=
  match content with
  | [] => Ok []
  | c :: rest =>
      bind (get c "type") (fun ty =>
        if eq_str ty "output_text" then
          bind (get_default c "text" (JStr EmptyString)) (fun tx =>
          bind (output_texts rest) (fun txs => Ok (tx :: txs)))
        else output_texts rest)
  end.

(** The strings of [(t for t in texts if t)]; joining one that is not a
    string is a TypeError. *)
Fixpoint truthy_strings (texts : list json) : result (list string) :=
  match texts with
  | [] => Ok []
  | tx :: rest =>
      if truthy tx then
        match tx with
        | JStr s => bind (truthy_strings rest) (fun ss => Ok (s :: ss))
        | _ => Raise TypeError
        end
      else truthy_strings rest
  end.

(** [_sanitize_text] on whatever the record holds: a falsy value gives the
    empty string, a string is sanitized, and anything else has no [strip]. *)
Definition sanitize_value (v : json) : result string :=
  if negb (truthy v) then Ok EmptyString
  else match v with
       | JStr s => Ok (_sanitize_text s)
       | _ => Raise AttributeError
       end.

(** The body of the read loop of [poll_codex_sessions]; only a
    JSONDecodeError of [json.loads] is caught there. *)
Definition codex_line (p : string) (now : Q) (line : string) (t : tracker)
  : tracker * option exn :=
  let line := strip line in
  if negb (nonempty line) then (t, None) else
  match json_loads line with
  | Raise JSONDecodeError => (t, None)
  | Raise x => (t, Some x)
  | Ok data =>
      bind_in t (get data "type") (fun ty =>
      if negb (eq_str ty "response_item") then (t, None) else
      bind_in t (get_default data "payload" (JDict [])) (fun payload =>
      bind_in t (get payload "type") (fun ptype =>
      bind_in t (if eq_str ptype "message" then
              bind (get_default payload "content" (JList [])) (fun content =>
              bind (iterate content) (fun cs =>
              bind (output_texts cs) (fun texts =>
              bind (truthy_strings texts) (fun ss =>
              Ok (JStr (join (String newline EmptyString) ss))))))
            else if eq_str ptype "reasoning" then get_default payload "text" (JStr EmptyString)
            else Ok (JStr EmptyString)) (fun text =>
      bind_in t (sanitize_value text) (fun text =>
      if nonempty text then _upsert_session (basename p) "codex_session" text now t
      else (t, None))))))
  end.

(** One turn of the loop over the session files of [poll_codex_sessions]. *)
Definition poll_codex_file (e : env) (p : string) (now : Q) (t : tracker) : tracker :=
  match getmtime e p with
  | None => t
  | Some mtime =>
      if ltb_Q mtime (now - 3600) then t else
      let cursor_key := _cursor_key "codex_session" "codex_session" p in
      match getsize e p with
      | None => t
      | Some cur_size =>
          let last := match file_cursors t !! cursor_key with
                      | Some c => c
                      | None => cur_size
                      end in
          let last := if cur_size <? last then 0 else last in
          if cur_size <=? last
          then set_file_cursors (<[cursor_key := cur_size]> (file_cursors t)) t
          else
            match read_lines_from e p last (codex_line p now) t with
            | (t', None) => set_file_cursors (<[cursor_key := cur_size]> (file_cursors t')) t'
            | (t', Some _) =>
                logging ERROR ("poll_codex_sessions(" ++ p ++ ")")
                        (set_error_count (_error_count t' + 1) t')
            end
      end
  end.

Definition poll_codex_sessions (e : env) (t : tracker) : tracker :=
  if negb (codex_isdir e) then t else
  let now := clock e in
  match codex_glob e with
  | None => logging ERROR "glob codex sessions" t
  | Some session_files => fold_left (fun t' p => poll_codex_file e p now t') session_files t
  end.

(** ** Cursor cleanup *)

(** Insertion sort, stable: what [sorted] computes for a total order. *)
Fixpoint insert_sorted {A : Type} (le : A -> A -> bool) (x : A) (l : list A) : list A :=
  match l with
  | [] => [x]
  | y :: l' => if le x y then x :: l else y :: insert_sorted le x l'
  end.

Definition sorted {A : Type} (le : A -> A -> bool) (l : list A) : list A :=
  fold_right (insert_sorted le) [] l.

Definition cleanup_cursors (t : tracker) : tracker :=
  if Z.of_nat (size (file_cursors t)) <=? MAX_FILE_CURSORS cfg then t else
  let keys := sorted String.leb (map_to_list (file_cursors t)).*1 in
  let remove_n := Z.max 1 (Z.of_nat (length keys) / 3) in
  let removed := firstn (Z.to_nat remove_n) keys in
  logging INFO "Cleaned file cursors."
          (set_file_cursors (fold_left (fun m k => delete k m) removed (file_cursors t)) t).


(** ** Export and outbox *)

(** [pending_path.write_text(...)]: a new file of the pending directory, or
    a new modification time for the file of that name. *)
Fixpoint outbox_put (name : string) (mtime : Q) (l : list pending_file) : list pending_file :=
  match l with
  | [] => [{| pf_name := name; pf_mtime := mtime |}]
  | pf :: l' =>
      if String.eqb name (pf_name pf) then {| pf_name := name; pf_mtime := mtime |} :: l'
      else pf :: outbox_put name mtime l'
  end.

(** [pf.unlink(missing_ok=True)] *)
Definition outbox_unlink (name : string) (l : list pending_file) : list pending_file :=
  List.filter (fun pf => negb (String.eqb name (pf_name pf))) l.

Definition set_outbox (o : list pending_file) (d : disk) : disk :=
  {| history := history d; outbox := o; requests := requests d |}.

(** [self._http_client.post(url, json={"path": p, ...})]: the request goes
    out, and the world answers. *)
Definition post (e : env) (p : string) (d : disk) : disk * post_outcome :=
  ({| history := history d; outbox := outbox d; requests := (requests d ++ [p])%list |},
   respond e (length (requests d)) p).

(** [str(pf)] for a file of the pending directory. *)
Definition pending_path (pf : pending_file) : string :=
  PENDING_DIR cfg ++ "/" ++ pf_name pf.

(** The loop [for pf in pending[:8]] of [_retry_pending]. *)
Fixpoint retry_batch (e : env) (batch : list pending_file) (t : tracker) (d : disk)
  : tracker * disk :=
  match batch with
  | [] => (t, d)
  | pf :: rest =>
      match post e (pending_path pf) d with
      | (d', Status code) =>
          if code <? 300
          then retry_batch e rest
                 (logging INFO ("Retried pending OK: " ++ pf_name pf) t)
                 (set_outbox (outbox_unlink (pf_name pf) (outbox d')) d')
          else retry_batch e rest t d'
      | (d', PostRaises) => (t, d')
      end
  end.

(** [_retry_pending], when sorting the listing of the pending directory
    returns. *)
Definition _retry_pending (e : env) (t : tracker) (d : disk) : tracker * disk :=
  if negb (_http_client t) then (t, d) else
  let pending := sorted (fun a b => Qle_bool (pf_mtime a) (pf_mtime b)) (outbox d) in
  match pending with
  | [] => (t, d)
  | _ => retry_batch e (firstn 8 pending) (set_last_pending_retry (clock e) t) d
  end.

(** The Markdown artifact of [_export]. *)
Definition artifact (e : env) (sid : string) (data : session) (title_prefix : string) : string :=
  let content := join (String newline "- ")
                      (List.map (take 2000) (last_n 60 (messages data))) in
  let prefix := if nonempty title_prefix then title_prefix
                else "Live " ++ source data ++ " Session" in
  let title := prefix ++ " " ++ take 12 sid in
  "# " ++ title ++ String newline (String newline
  ("Tags: " ++ source data ++ ", live_sync, unified_context" ++ String newline
  ("Date: " ++ now_iso e ++ String newline (String newline
  ("## Content" ++ String newline ("- " ++ content ++ String newline EmptyString)))))).

(** How a [try: p.write_text(text); os.chmod(p, 0o600) except OSError]
    ends: both calls returned, an OSError was caught, or another exception
    escapes. *)
Inductive guarded : Type :=
| Done
| Caught
| Escapes (x : exn).

(** The guarded write of [text] to [p]: what the file holds afterwards
    ([None] when it is as before), and how the statement ends. *)
Definition guarded_write (e : env) (p text : string) : option string * guarded :=
  match write_text e p text with
  | Written => (Some text, if chmod_ok e p then Done else Caught)
  | WriteRaises x kept =>
      (option_map (fun n => take n text) kept,
       match x with
       | OSError => Caught
       | _ => Escapes x
       end)
  end.

(** The queueing at the end of [_export], which returns False unless the
    write raises something else than an OSError. *)
Definition queue_pending (e : env) (name text : string) (t : tracker) (d : disk)
  : tracker * disk * result bool :=
  let '(held, ending) := guarded_write e (PENDING_DIR cfg ++ "/" ++ name) text in
  let d := match held with
           | Some _ => set_outbox (outbox_put name (clock e) (outbox d)) d
           | None => d
           end in
  match ending with
  | Done => (logging INFO ("Queued pending sync: " ++ name) t, d, Ok false)
  | Caught => (logging ERROR "Failed pending write" t, d, Ok false)
  | Escapes x => (t, d, Raise x)
  end.

(** [_export]: the tracker and the disk it leaves, and the value it returns
    or the exception it raises.  [mkdir] is outside every [try]; the local
    write catches OSError only; the [try] of the POST catches every
    exception, that of [_retry_pending] included, which is raised after the
    export was counted. *)
Definition _export (e : env) (sid : string) (data : session) (title_prefix : string)
           (t : tracker) (d : disk) : tracker * disk * result bool :=
  let name := source data ++ "_" ++ now_stamp e ++ "_" ++ take 12 sid ++ ".md" in
  let file_path := HISTORY_DIR cfg ++ "/" ++ name in
  let formatted := artifact e sid data title_prefix in
  if negb (mkdir_ok e (HISTORY_DIR cfg)) then (t, d, Raise OSError) else
  let '(held, ending) := guarded_write e file_path formatted in
  let d := match held with
           | Some text => {| history := dict_set file_path text (history d);
                             outbox := outbox d; requests := requests d |}
           | None => d
           end in
  match ending with
  | Escapes x => (t, d, Raise x)
  | Caught => (logging ERROR ("Failed to write local file " ++ file_path) t, d, Ok false)
  | Done =>
      if _http_client t then
        match post e file_path d with
        | (d', Status code) =>
            if code <? 300 then
              let t1 := logging INFO ("Synced " ++ source data ++ " session " ++ take 12 sid)
                                (set_export_count (_export_count t + 1) t) in
              if pending_sorted_ok e then
                let '(t2, d2) := _retry_pending e t1 d' in
                (t2, d2, Ok true)
              else
                queue_pending e name formatted
                              (logging WARNING "Viking offline, queue pending" t1) d'
            else
              queue_pending e name formatted
                            (logging WARNING ("Viking HTTP for " ++ source data) t) d'
        | (d', PostRaises) =>
            queue_pending e name formatted
                          (logging WARNING "Viking offline, queue pending" t) d'
        end
      else queue_pending e name formatted t d
  end.

(** ** Idle sweep *)

Definition mark_exported (data : session) : session :=
  {| last_seen := last_seen data; messages := messages data; exported := true;
     source := source data; created := created data; last_hash := last_hash data |}.

(** The state of the loop of [check_and_export_idle]: the tracker, the
    disk, [to_remove], the session ids [_export] was called for, and the
    exception that has left the method, if one has. *)
Record sweep_state : Type := {
  sw_tracker : tracker;
  sw_disk : disk;
  to_remove : list string;
  export_calls : list string;
  sw_raised : option exn
}.

(** One turn of the loop, for the session stored under [sid].  The call of
    [_export] is not guarded: when it raises, the method is left before the
    session is flagged, and no later turn runs. *)
Definition sweep_step (e : env) (now : Q) (st : sweep_state) (sid : string) : sweep_state :=
  let t := sw_tracker st in
  match sw_raised st with
  | Some _ => st
  | None =>
      match dict_get sid (sessions t) with
      | None => st
      | Some data =>
          if exported data then
            if ltb_Q (inject_Z (SESSION_TTL_SEC cfg)) (now - last_seen data)
            then {| sw_tracker := t; sw_disk := sw_disk st;
                    to_remove := (to_remove st ++ [sid])%list;
                    export_calls := export_calls st; sw_raised := None |}
            else st
          else if Qle_bool (now - last_seen data) (inject_Z (IDLE_TIMEOUT_SEC cfg)) then st
          else
            let min_messages := if startswith "shell_" (source data) then 4 else 2 in
            if Z.of_nat (length (messages data)) >=? min_messages
            then
              let calls := (export_calls st ++ [sid])%list in
              match _export e sid data EmptyString t (sw_disk st) with
              | (t1, d1, Ok _) =>
                  {| sw_tracker := set_sessions (dict_set sid (mark_exported data) (sessions t1)) t1;
                     sw_disk := d1; to_remove := to_remove st; export_calls := calls;
                     sw_raised := None |}
              | (t1, d1, Raise x) =>
                  {| sw_tracker := t1; sw_disk := d1; to_remove := to_remove st;
                     export_calls := calls; sw_raised := Some x |}
              end
            else
              {| sw_tracker := set_sessions (dict_set sid (mark_exported data) (sessions t)) t;
                 sw_disk := sw_disk st; to_remove := to_remove st;
                 export_calls := export_calls st; sw_raised := None |}
      end
  end.

(** [check_and_export_idle]: the tracker and the disk it leaves, the
    sessions handed to [_export], in order, and the exception that left
    it, if any; the sessions of [to_remove] are deleted only when the loop
    has come to its end. *)
Definition check_and_export_idle (e : env) (t : tracker) (d : disk) : sweep_state :=
  let now := clock e in
  let st := fold_left (sweep_step e now) (sessions t).*1
                      {| sw_tracker := t; sw_disk := d; to_remove := []; export_calls := [];
                         sw_raised := None |} in
  match sw_raised st with
  | Some _ => st
  | None =>
      let t' := sw_tracker st in
      {| sw_tracker :=
           set_sessions (fold_left (fun s sid => dict_del sid s) (to_remove st) (sessions t')) t';
         sw_disk := sw_disk st; to_remove := to_remove st; export_calls := export_calls st;
         sw_raised := None |}
  end.


(** ** Histories of the session table

    What the main loop does to [self.sessions]: the tailers upsert, and the
    idle sweep runs once per pass.  The loop catches what a pass raises, so
    the next step starts from the tracker the exception left. *)
Inductive op : Type :=
| Upsert (sid src text : string) (now : Q)
| Sweep (e : env).

Definition apply_op (o : op) (st : tracker * disk) : tracker * disk * list string :=
  match o with
  | Upsert sid src text now => ((_upsert_session sid src text now st.1).1, st.2, [])
  | Sweep e =>
      let r := check_and_export_idle e st.1 st.2 in
      (sw_tracker r, sw_disk r, export_calls r)
  end.

(** The sessions handed to [_export] along a history, in order. *)
Fixpoint run (ops : list op) (st : tracker * disk) : list string :=
  match ops with
  | [] => []
  | o :: rest => let '(t', d', calls) := apply_op o st in (calls ++ run rest (t', d'))%list
  end.

(** [sid] is tracked before every step of the history and after the last:
    the session is neither evicted nor expired in between. *)
Fixpoint tracked_throughout (sid : string) (ops : list op) (st : tracker * disk) : Prop :=
  is_Some (dict_get sid (sessions st.1))
  /\ match ops with
     | [] => True
     | o :: rest => let '(t', d', _) := apply_op o st in tracked_throughout sid rest (t', d')
     end.

(** No sweep of the history is left by an exception. *)
Fixpoint sweeps_return (ops : list op) (st : tracker * disk) : Prop :=
  match ops with
  | [] => True
  | o :: rest =>
      match o with
      | Sweep e => sw_raised (check_and_export_idle e st.1 st.2) = None
      | Upsert _ _ _ _ => True
      end
      /\ let '(t', d', _) := apply_op o st in sweeps_return rest (t', d')
  end.

(** ** Scheduler *)

(** The loop over [self.sessions.values()] of [next_sleep_interval]. *)
Fixpoint nearest_due_loop (now : Q) (nearest_due : option Q) (l : list (string * session))
  : option Q :=
  match l with
  | [] => nearest_due
  | (_, data) :: rest =>
      if exported data then nearest_due_loop now nearest_due rest
      else
        let remaining := (inject_Z (IDLE_TIMEOUT_SEC cfg) - (now - last_seen data))%Q in
        match nearest_due with
        | None => nearest_due_loop now (Some remaining) rest
        | Some nd =>
            if ltb_Q remaining nd then nearest_due_loop now (Some remaining) rest
            else nearest_due_loop now nearest_due rest
        end
  end.

(** [PENDING_DIR.exists() and any(PENDING_DIR.glob(...))]; [None] when the
    listing raises. *)
Definition has_pending (e : env) (d : disk) : option bool :=
  if listing_ok e then Some (match outbox d with [] => false | _ => true end) else None.

Definition next_sleep_interval (e : env) (t : tracker) (d : disk) : Z :=
  let sleep_s := Z.max 1 (POLL_INTERVAL_SEC cfg) in
  let sleep_s := match has_pending e d with
                 | Some true => Z.min sleep_s (FAST_POLL_INTERVAL_SEC cfg)
                 | _ => sleep_s
                 end in
  let now := clock e in
  let sleep_s :=
    match nearest_due_loop now None (sessions t) with
    | None => sleep_s
    | Some nearest_due =>
        if Qle_bool nearest_due (inject_Z (FAST_POLL_INTERVAL_SEC cfg))
        then Z.min sleep_s (FAST_POLL_INTERVAL_SEC cfg)
        else if ltb_Q nearest_due (inject_Z sleep_s)
             then Z.min sleep_s (Z.max 1 (int_of_float nearest_due))
             else sleep_s
    end in
  let sleep_s :=
    if negb (Qeq_bool (_last_activity_ts t) 0)
       && ltb_Q (now - _last_activity_ts t)
                (inject_Z (Z.max 15 (FAST_POLL_INTERVAL_SEC cfg * 4)))
    then Z.min sleep_s (FAST_POLL_INTERVAL_SEC cfg)
    else sleep_s in
  Z.max 1 sleep_s.

(** ** Source discovery and start-up *)

Definition set_cursor (k : string) (v : Z) (t : tracker) : tracker :=
  set_file_cursors (<[k := v]> (file_cursors t)) t.

(** One turn of the loop over [JSONL_SOURCES] in [refresh_sources]; the
    [getsize] of a picked file is not guarded. *)
Definition refresh_jsonl (e : env) (t : tracker) (entry : string * list jsonl_source)
  : result tracker :=
  let '(source_name, candidates) := entry in
  let prev := dict_get source_name (active_jsonl t) in
  match List.find (fun c => path_exists e (path c)) candidates with
  | Some picked =>
      let t1 := set_active (dict_set source_name picked (active_jsonl t)) (active_shell t) t in
      if match prev with
         | None => true
         | Some pr => negb (String.eqb (path pr) (path picked))
         end
      then match getsize e (path picked) with
           | None => Raise OSError
           | Some sz =>
               Ok (logging INFO ("Source active: " ++ source_name)
                     (set_cursor (_cursor_key "jsonl" source_name (path picked)) sz t1))
           end
      else Ok t1
  | None =>
      match prev with
      | Some _ => Ok (set_active (dict_del source_name (active_jsonl t)) (active_shell t)
                        (logging INFO ("Source offline: " ++ source_name) t))
      | None => Ok t
      end
  end.

(** One turn of the loop over [SHELL_SOURCES]. *)
Definition refresh_shell (e : env) (t : tracker) (entry : string * list string)
  : result tracker :=
  let '(source_name, paths) := entry in
  let picked_path := match List.find (path_exists e) paths with
                     | Some p => p
                     | None => EmptyString
                     end in
  let prev := match dict_get source_name (active_shell t) with
              | Some p => p
              | None => EmptyString
              end in
  if nonempty picked_path then
    let t1 := set_active (active_jsonl t) (dict_set source_name picked_path (active_shell t)) t in
    if negb (String.eqb prev picked_path)
    then match getsize e picked_path with
         | None => Raise OSError
         | Some sz =>
             Ok (logging INFO ("Source active: " ++ source_name)
                   (set_cursor (_cursor_key "shell" source_name picked_path) sz t1))
         end
    else Ok t1
  else
    match dict_get source_name (active_shell t) with
    | Some _ => Ok (set_active (active_jsonl t) (dict_del source_name (active_shell t))
                      (logging INFO ("Source offline: " ++ source_name) t))
    | None => Ok t
    end.

Fixpoint for_each {A : Type} (body : tracker -> A -> result tracker) (l : list A) (t : tracker)
  : result tracker :=
  match l with
  | [] => Ok t
  | x :: rest => bind (body t x) (for_each body rest)
  end.

Definition refresh_sources (e : env) (force : bool) (t : tracker) : result tracker :=
  let now := clock e in
  if negb force && ltb_Q (now - _last_source_refresh t) 120 then Ok t else
  let t := set_last_source_refresh now t in
  bind (for_each (refresh_jsonl e) (JSONL_SOURCES cfg) t) (fun t =>
  if ENABLE_SHELL_MONITOR cfg then for_each (refresh_shell e) (SHELL_SOURCES cfg) t
  else Ok t).

(** [SessionTracker()]; [httpx_ok] tells whether an HTTP client could be
    made. *)
Definition SessionTracker_init (e : env) (httpx_ok : bool) (log0 : list (level * string))
  : result tracker :=
  refresh_sources e true
    {| sessions := []; file_cursors := ∅; active_jsonl := []; active_shell := [];
       _last_source_refresh := 0; _last_pending_retry := 0; _export_count := 0;
       _error_count := 0; _last_activity_ts := 0; _http_client := httpx_ok;
       log := log0 |}.

(** [main] up to the head of its loop: the tracker the loop starts with, or
    the exception that ends the process.  There is no other way out of
    [main] before the loop. *)
Definition main_startup (e : env) (httpx_ok : bool) : result tracker :=
  SessionTracker_init e httpx_ok
    [ (INFO, "Starting OpenViking Hardened Daemon v3.0");
      (INFO, "OpenViking URL: " ++ OPENVIKING_URL cfg);
      (INFO, "Codex sessions path: " ++ CODEX_SESSIONS cfg);
      (INFO, "Antigravity brain path: " ++ HOME cfg ++ "/.gemini/antigravity/brain");
      (INFO, "Idle Poll FastPoll PendingRetry Heartbeat ShellMonitor") ].

End Methods.

(** ** Vocabulary of the properties *)

(** Two trackers with the same cursors, error counter and log. *)
Definition same_books (t t' : tracker) : Prop :=
  file_cursors t' = file_cursors t
  /\ _error_count t' = _error_count t
  /\ log t' = log t.

(** Where a pass starts to read: at the stored cursor, at the end of the
    file when no cursor is stored, at 0 when the file has shrunk below the
    cursor.  The three tailers compute it in the same two statements. *)
Definition resume_offset (stored : option Z) (cur_size : Z) : Z :=
  let last := match stored with Some c => c | None => cur_size end in
  if cur_size <? last then 0 else last.

(** The steps the three tailers share, from [getsize] on; [blame] is the
    text of the error record. *)
Definition tail_protocol (e : env) (p cursor_key : string)
           (body : string -> tracker -> tracker * option exn) (blame : string) (t : tracker)
  : tracker :=
  match getsize e p with
  | None => t
  | Some cur_size =>
      let last := resume_offset (file_cursors t !! cursor_key) cur_size in
      if cur_size <=? last then set_cursor cursor_key cur_size t
      else match read_lines_from e p last body t with
           | (t', None) => set_cursor cursor_key cur_size t'
           | (t', Some _) => logging ERROR blame (set_error_count (_error_count t' + 1) t')
           end
  end.

(** What a pass over a file of size [sz], smaller than the stored cursor
    [c], comes to: the lines are read from offset 0; if the read completes,
    the pass ends with the cursor at [sz]; if it raises, the cursor is
    still [c]; an empty file is not opened. *)
Definition truncated_outcome (e : env) (p key : string)
           (body : string -> tracker -> tracker * option exn) (sz c : Z) (t t' : tracker) : Prop :=
  let r := read_lines_from e p 0 body t in
  (0 < sz -> r.2 = None -> t' = set_cursor key sz r.1)
  /\ (0 < sz -> r.2 <> None -> file_cursors t' !! key = Some c)
  /\ (sz <= 0 -> t' = set_cursor key sz t).

(** How often [sid] occurs among the sessions handed to [_export]. *)
Definition exports_of (sid : string) (calls : list string) : nat :=
  length (List.filter (String.eqb sid) calls).

(** The message threshold of the idle sweep. *)
Definition threshold (data : session) : Z :=
  if startswith "shell_" (source data) then 4 else 2.

(** A session the sweep at time [now] flags: not yet exported, and idle for
    more than IDLE_TIMEOUT_SEC. *)
Definition expires (cfg : Config) (now : Q) (data : session) : bool :=
  negb (exported data)
  && negb (Qle_bool (now - last_seen data) (inject_Z (IDLE_TIMEOUT_SEC cfg))).

(** A session the sweep hands to [_export]. *)
Definition due (cfg : Config) (now : Q) (data : session) : bool :=
  expires cfg now data && (Z.of_nat (length (messages data)) >=? threshold data).

(** A session the sweep removes. *)
Definition stale (cfg : Config) (now : Q) (data : session) : bool :=
  exported data && ltb_Q (inject_Z (SESSION_TTL_SEC cfg)) (now - last_seen data).

(** What the sweep makes of a session it keeps. *)
Definition swept (cfg : Config) (now : Q) (data : session) : session :=
  if expires cfg now data then mark_exported data else data.

(** What the loop of the sweep makes of the session table. *)
Definition sweep_all (cfg : Config) (now : Q) (l : list (string * session))
  : list (string * session) :=
  prod_map id (swept cfg now) <$> l.

(** The stored hash of a session is the digest of its last message. *)
Definition hash_tracks_last (md5 : string -> string) (sess : session) : Prop :=
  forall m, last (messages sess) = Some m -> last_hash sess = md5 m.

(** ** The start-up guard of the memory-tool script *)

(** [s.split(sep, 1)]: the text before the first [sep] and, if there is
    one, the text after it. *)
Fixpoint split_once (sep s : string) : string * option string :=
  if startswith sep s then (EmptyString, Some (drop (String.length sep) s))
  else match s with
       | EmptyString => (EmptyString, None)
       | String c s' => let '(a, b) := split_once sep s' in (String c a, b)
       end.

(** [OPENVIKING_URL.split("://", 1)[-1].split("/", 1)[0].split(":")[0]] *)
Definition _ov_host (url : string) : string :=
  let rest := match split_once "://" url with
              | (_, Some after) => after
              | (all, None) => all
              end in
  fst (split_once ":" (fst (split_once "/" rest))).

(** The module-level check of [openviking_mcp.py]: [true] when it raises
    SystemExit. *)
Definition mcp_rejects_url (url : string) : bool :=
  negb (existsb (String.eqb (_ov_host url)) ["127.0.0.1"; "localhost"; "::1"])
  && negb (startswith "https://" url).

End Daemon.

(** ** Vocabulary of the redaction proofs *)

Module Masks.
Import Text Regex.

Definition star : ascii := "*".
Definition stars : string := "***".

(** The longest prefix of characters of a class, and what follows it. *)
Fixpoint span (p : ascii -> bool) (s : string) : string * string :=
  match s with
  | String c s' =>
      if p c then let '(a, b) := span p s' in (String c a, b) else (EmptyString, s)
  | EmptyString => (EmptyString, EmptyString)
  end.

Fixpoint all_chars (p : ascii -> bool) (s : string) : bool :=
  match s with
  | String c s' => p c && all_chars p s'
  | EmptyString => true
  end.

(** [s] is empty or starts with a character outside the class. *)
Definition stops (p : ascii -> bool) (s : string) : Prop :=
  match s with
  | String c _ => p c = false
  | EmptyString => True
  end.

Definition nostar (s : string) : Prop :=
  all_chars (fun c => negb (Ascii.eqb c star)) s = true.

(** The last character of [s], or [prev] when [s] is empty: the character
    before whatever follows [s]. *)
Fixpoint last_char (s : string) (prev : option ascii) : option ascii :=
  match s with
  | String c s' => last_char s' (Some c)
  | EmptyString => prev
  end.

Definition head (s : string) : option ascii :=
  match s with
  | String c _ => Some c
  | EmptyString => None
  end.

(** What a pattern finds at the head of [s]: the text that replaces the
    match, and the length of the match. *)
Definition hit (its : list item) (repl : list piece) (prev : option ascii) (s : string)
  : option (string * nat) :=
  match match_here its prev s O no_caps with
  | Some (st, len) => Some (expand repl st s, len)
  | None => None
  end.

(** [sub_scan], with the matching left to [h]. *)
Fixpoint scan_with (h : option ascii -> string -> option (string * nat))
         (prev : option ascii) (s : string) (skip : nat) {struct s} : string :=
  match s with
  | EmptyString =>
      match skip with
      | O => match h prev EmptyString with
             | Some (e, _) => e
             | None => EmptyString
             end
      | S _ => EmptyString
      end
  | String c s' =>
      match skip with
      | S k => scan_with h (Some c) s' k
      | O =>
          match h prev s with
          | Some (e, S len) => e ++ scan_with h (Some c) s' len
          | Some (e, O) => e ++ String c (scan_with h (Some c) s' O)
          | None => String c (scan_with h (Some c) s' O)
          end
      end
  end.

(** A scan, block by block: a character that is kept, or a match whose
    secret [R] is replaced by three stars after the prefix [P]. *)
Inductive Scan (h : option ascii -> string -> option (string * nat))
  : option ascii -> string -> string -> Prop :=
| Scan_nil (prev : option ascii) : Scan h prev EmptyString EmptyString
| Scan_keep (prev : option ascii) (c : ascii) (s o : string) :
    h prev (String c s) = None ->
    Scan h (Some c) s o ->
    Scan h prev (String c s) (String c o)
| Scan_mask (prev : option ascii) (P R rest o : string) :
    h prev (P ++ R ++ rest) = Some (P ++ stars, (String.length P + String.length R)%nat) ->
    P <> EmptyString -> R <> EmptyString ->
    Scan h (last_char (P ++ R) prev) rest o ->
    Scan h prev (P ++ R ++ rest) (P ++ stars ++ o).

(** No match anywhere in [w]. *)
Definition no_hits (h : option ascii -> string -> option (string * nat))
           (prev : option ascii) (w : string) : Prop :=
  forall x y, w = x ++ y -> h (last_char x prev) y = None.

(** [s] is empty, or neither starts nor ends with white space. *)
Definition stripped (s : string) : Prop :=
  match s with
  | EmptyString => True
  | String c _ => isspace c = false
                  /\ match last_char s None with
                     | Some d => isspace d = false
                     | None => True
                     end
  end.

End Masks.

(** ** Vocabulary of the redaction rules *)

Module Redaction.
Import Text Regex Sanitizer Masks.

(** [y] starts with [w], letter case apart. *)
Fixpoint prefix_i (w y : string) : bool :=
  match w, y with
  | EmptyString, _ => true
  | String c w', String x y' => Ascii.eqb (lower x) (lower c) && prefix_i w' y'
  | String _ _, EmptyString => false
  end.

(** The length of the first of the keywords [alts] that [y] starts with. *)
Fixpoint klen (alts : list string) (y : string) : option nat :=
  match alts with
  | [] => None
  | w :: alts' => if prefix_i w y then Some (String.length w) else klen alts' y
  end.

(** What an assignment pattern finds at the head of [y]: a keyword, white
    space, [=] or [:], white space, and a run of secret characters; the
    text that replaces the match, and the length of the match. *)
Definition hit_assign (alts : list string) (y : string) : option (string * nat) :=
  match klen alts y with
  | None => None
  | Some k =>
      let '(w1, y2) := span isspace (drop k y) in
      match y2 with
      | String c y3 =>
          if one_of "=:" c then
            let '(w2, y4) := span isspace y3 in
            let '(R, _) := span not_space_or_quote y4 in
            match R with
            | EmptyString => None
            | _ => let n := (k + String.length w1 + 1 + String.length w2)%nat in
                   Some (take n y ++ stars, (n + String.length R)%nat)
            end
          else None
      | EmptyString => None
      end
  end.

(** What a flag pattern finds at the head of [y]: the flag, white space,
    and a run of characters that are not white space. *)
Definition hit_flag (alts : list string) (y : string) : option (string * nat) :=
  match klen alts y with
  | None => None
  | Some k =>
      let '(w, y2) := span isspace (drop k y) in
      let '(R, _) := span not_space y2 in
      match w, R with
      | String _ _, String _ _ =>
          let n := (k + String.length w)%nat in
          Some (take n y ++ stars, (n + String.length R)%nat)
      | _, _ => None
      end
  end.

(** [kw] is one of the keywords [alts], letter case apart. *)
Definition iskw (alts : list string) (kw : string) : Prop :=
  exists w, In w alts /\ String.length kw = String.length w /\ prefix_i w kw = true.

(** The texts an assignment pattern keeps: group 1. *)
Definition pre_assign (alts : list string) (Q : string) : Prop :=
  exists kw w1 c w2,
    Q = kw ++ w1 ++ String c w2 /\ iskw alts kw
    /\ all_chars isspace w1 = true /\ one_of "=:" c = true /\ all_chars isspace w2 = true.

(** The texts a flag pattern keeps. *)
Definition pre_flag (alts : list string) (Q : string) : Prop :=
  exists kw w,
    Q = kw ++ w /\ iskw alts kw /\ w <> EmptyString /\ all_chars isspace w = true.

(** The keyword part of a pattern: it matches the first of [alts] that the
    text starts with, and nothing else. *)
Definition kw_ok (KW : list item) (alts : list string) : Prop :=
  forall (r : list item) (prev : option ascii) (y : string) (pos : nat) (st : caps),
    match_here (KW ++ r) prev y pos st
    = match klen alts y with
      | Some k => match_here r (last_char (take k y) prev) (drop k y) (pos + k)%nat st
      | None => None
      end.

(** The characters of the keywords: letters, the underscore and the
    hyphen. *)
Definition kwchar (c : ascii) : bool :=
  let n := N_of_ascii c in
  (((65 <=? n) && (n <=? 90)) || ((97 <=? n) && (n <=? 122)) || (n =? 95) || (n =? 45))%N.

(** The keywords of the five redaction rules that keep a prefix. *)
Definition alts_api_key : list string := ["api_key"; "api-key"; "apikey"].
Definition alts_token : list string := ["token"].
Definition alts_password : list string := ["password"].
Definition alts_api_key_flag : list string := ["--api-key"].
Definition alts_token_flag : list string := ["--token"].

(** Keywords of different lengths never start the same text. *)
Definition compatible (alts : list string) : Prop :=
  forall w1 w2, In w1 alts -> In w2 alts -> prefix_i w1 w2 = true ->
                String.length w1 = String.length w2.

(** The keywords are made of letters, underscores and hyphens. *)
Definition plain_alts (alts : list string) : Prop :=
  forall w, In w alts -> w <> EmptyString /\ all_chars kwchar w = true.

(** No keyword ends with another keyword of the list. *)
Definition no_suffix (alts : list string) : Prop :=
  forall w1 w2 n, In w1 alts -> In w2 alts -> (0 < n)%nat ->
                  (String.length w2 + n = String.length w1)%nat ->
                  prefix_i w2 (drop n w1) = false.

(** Every match of [h] is a prefix without stars and a secret, and the
    secret is replaced by three stars. *)
Definition masks_blocks (h : option ascii -> string -> option (string * nat)) : Prop :=
  forall prev y e len,
    h prev y = Some (e, len) ->
    exists P R rest,
      y = P ++ R ++ rest /\ P <> EmptyString /\ nostar P /\ R <> EmptyString
      /\ e = P ++ stars /\ len = (String.length P + String.length R)%nat.

(** [h] matches only a text of [pre] followed by a run of the class [G]
    that cannot be extended. *)
Definition hits_only (h : option ascii -> string -> option (string * nat))
           (pre : string -> Prop) (G : ascii -> bool) : Prop :=
  forall prev y e len,
    h prev y = Some (e, len) ->
    exists Q R rest,
      y = Q ++ R ++ rest /\ pre Q /\ R <> EmptyString
      /\ all_chars G R = true /\ stops G rest
      /\ e = Q ++ stars /\ len = (String.length Q + String.length R)%nat.

(** [h] matches every such text. *)
Definition hits_all (h : option ascii -> string -> option (string * nat))
           (pre : string -> Prop) (G : ascii -> bool) : Prop :=
  forall prev Q R rest,
    pre Q -> R <> EmptyString -> all_chars G R = true -> stops G rest ->
    h prev (Q ++ R ++ rest) = Some (Q ++ stars, (String.length Q + String.length R)%nat).

(** The sixth rule: [sk-] and sixteen or more key characters, between word
    boundaries. *)
Definition sk_pattern : list item :=
  ([Bnd; Open 1] ++ lits "sk-" ++ [Many 16 key_char; Close 1; Bnd])%list.

Definition hit_sk : option ascii -> string -> option (string * nat) :=
  hit sk_pattern [Lit "sk-***"].

(** The character before [s] in the output of a scan, [po], and in its
    input, [ps]: the same, or a star that replaced a key, and then no
    run of key characters at the head of [s] ends at a word boundary. *)
Definition joined (po ps : option ascii) (s : string) : Prop :=
  po = ps
  \/ (po = Some star
      /\ forall K rest, s = K ++ rest -> K <> EmptyString -> all_chars key_char K = true ->
                        at_boundary (last_char K ps) rest = false).

(** Wherever a text of [pre] is followed by a run of the class [G], the run
    is three stars: the rule finds nothing left to mask. *)
Definition secrets_masked (pre : string -> Prop) (G : ascii -> bool) (s : string) : Prop :=
  forall x Q R rest,
    s = x ++ Q ++ R ++ rest -> pre Q -> R <> EmptyString ->
    all_chars G R = true -> stops G rest -> R = stars.

(** A rule that keeps a prefix: it matches exactly the texts of [pre]
    followed by a run of [G], and no text of [pre] lies inside another
    one after its start. *)
Definition keeps_prefix (h : option ascii -> string -> option (string * nat))
           (pre : string -> Prop) (G : ascii -> bool) : Prop :=
  hits_only h pre G /\ hits_all h pre G
  /\ forall P Q A Z, pre P -> pre Q -> P = A ++ Q ++ Z -> A = EmptyString.

(** The texts of [pre] are not empty, hold no star, and end with white
    space, [=] or [:]. *)
Definition prefix_shape (pre : string -> Prop) : Prop :=
  forall Q, pre Q ->
            Q <> EmptyString /\ nostar Q
            /\ exists d, last_char Q None = Some d /\ (isspace d || one_of "=:" d) = true.

Definition api_key_kw : list item :=
  (lits_i "api" ++ [Opt (one_of "_-")] ++ lits_i "key")%list.

Definition mask_repl : list piece := [Ref 1; Lit "***"].

(** Every assignment and every flag of the five rules is followed by three
    stars. *)
Definition masked (s : string) : Prop :=
  secrets_masked (pre_assign alts_api_key) not_space_or_quote s
  /\ secrets_masked (pre_assign alts_token) not_space_or_quote s
  /\ secrets_masked (pre_assign alts_password) not_space_or_quote s
  /\ secrets_masked (pre_flag alts_api_key_flag) not_space s
  /\ secrets_masked (pre_flag alts_token_flag) not_space s.

(** Where a walk along the output of a scan stands: at the boundary of a
    block, or inside the prefix [P1 ++ P2] of a masked block, after [P1];
    the first index is the character before. *)
Inductive At (h : option ascii -> string -> option (string * nat))
  : option ascii -> string -> string -> Prop :=
| At_scan (pc prev : option ascii) (s o : string) :
    Scan h prev s o -> At h pc s o
| At_prefix (prev : option ascii) (P1 P2 R rest o : string) :
    h prev ((P1 ++ P2) ++ R ++ rest)
    = Some ((P1 ++ P2) ++ stars, (String.length (P1 ++ P2) + String.length R)%nat) ->
    P1 <> EmptyString -> R <> EmptyString ->
    Scan h (last_char ((P1 ++ P2) ++ R) prev) rest o ->
    At h (last_char P1 None) (P2 ++ R ++ rest) (P2 ++ stars ++ o).

End Redaction.
(** ** Further methods of the tracker *)

Module Loop.
Import Text Regex Py Sanitizer Daemon.

Definition ANTIGRAVITY_BRAIN (cfg : Config) : string :=
  HOME cfg ++ "/.gemini/antigravity/brain".

(** What a pass observes of the antigravity directory: whether it is a
    directory, the session directories its glob lists ([None] is an
    OSError), and the text of a walkthrough file ([None] when [open] or
    [read] raises). *)
Record brain : Type := {
  brain_isdir : bool;
  brain_glob : option (list string);
  read_walkthrough : string -> option string
}.

(** [self.antigravity_sessions]: per session id, the [mtime] and the [path]
    recorded last. *)
Definition baselines : Type := list (string * (Q * string)).

Section Methods.

Variable cfg : Config.

(** [maybe_retry_pending]: nothing is pending when the directory is missing,
    is empty, or cannot be listed; the sorted listing of [_retry_pending] is
    taken to return. *)
Definition maybe_retry_pending (e : env) (t : tracker) (d : disk) : tracker * disk :=
  match has_pending e d with
  | Some true =>
      if ltb_Q (clock e - _last_pending_retry t) (inject_Z (PENDING_RETRY_INTERVAL_SEC cfg))
      then (t, d)
      else _retry_pending cfg e t d
  | _ => (t, d)
  end.

(** The dict [poll_antigravity] hands to [_export]: it has the keys
    [source], [messages] and [last_seen] only, and [_export] reads the first
    two. *)
Definition walkthrough_data (content : string) (now : Q) : session :=
  {| last_seen := now; messages := [content]; exported := false;
     source := "antigravity"; created := now; last_hash := EmptyString |}.

(** One turn of the loop over the session directories of
    [poll_antigravity]; what the read or [_export] raises is caught, counted
    and logged, and the baseline is then left as it was. *)
Definition antigravity_dir (e : env) (b : brain) (now : Q)
           (st : tracker * disk * baselines) (sdir : string) : tracker * disk * baselines :=
  let '(t, d, seen) := st in
  let sid := basename sdir in
  let wt := sdir ++ "/walkthrough.md" in
  if negb (path_exists e wt) then st else
  match getmtime e wt with
  | None => st
  | Some mtime =>
      match dict_get sid seen with
      | None => (t, d, dict_set sid (mtime, wt) seen)
      | Some (prev, _) =>
          if Qle_bool mtime prev then st else
          match read_walkthrough b wt with
          | None =>
              (logging ERROR ("poll_antigravity(" ++ sid ++ ")")
                       (set_error_count (_error_count t + 1) t), d, seen)
          | Some text =>
              let content := _sanitize_text (take 50000 text) in
              if nonempty content then
                match _export cfg e sid (walkthrough_data content now)
                              "Antigravity Walkthrough" t d with
                | (t', d', Ok _) => (t', d', dict_set sid (mtime, wt) seen)
                | (t', d', Raise _) =>
                    (logging ERROR ("poll_antigravity(" ++ sid ++ ")")
                             (set_error_count (_error_count t' + 1) t'), d', seen)
                end
              else st
          end
      end
  end.

Definition poll_antigravity (e : env) (b : brain) (st : tracker * disk * baselines)
  : tracker * disk * baselines :=
  if negb (brain_isdir b) then st else
  let now := clock e in
  match brain_glob b with
  | None => st
  | Some dirs => fold_left (antigravity_dir e b now) dirs st
  end.

End Methods.

(** ** Vocabulary of the further properties *)

(** No walkthrough of [dirs] is newer than the baseline recorded for its
    session. *)
Definition nothing_newer (e : env) (seen : baselines) (dirs : list string) : Prop :=
  forall sdir m prev wt,
    In sdir dirs -> getmtime e (sdir ++ "/walkthrough.md") = Some m ->
    dict_get (basename sdir) seen = Some (prev, wt) -> (m <= prev)%Q.

(** The session of least [last_seen] among [l]: [k] is tracked in [l] and no
    session of [l] was seen earlier. *)
Definition oldest_of (k : string) (s : session) (l : list (string * session)) : Prop :=
  In (k, s) l /\ forall k' s', In (k', s') l -> (last_seen s <= last_seen s')%Q.

(** Every tracked session holds at most [n] messages. *)
Definition messages_within (n : Z) (l : list (string * session)) : Prop :=
  forall k s, In (k, s) l -> Z.of_nat (length (messages s)) <= n.

(** The value under [k] can serve as a session id: a string or an integer
    whose text is not blank. *)
Definition usable_sid (kv : list (string * json)) (k s : string) : Prop :=
  exists v, lookup_key k kv = Some v /\ scalar_str v = Some s /\ strip s <> EmptyString.

End Loop.

(** ** File names of the memory-tool script *)

Module Mcp.
Import Text Regex Py.

(** [str.lower] on a code point below 256: the ASCII capitals and the
    capitals of the Latin-1 block move up by 32. *)
Definition str_lower_char (c : ascii) : ascii :=
  let n := N_of_ascii c in
  if (((65 <=? n) && (n <=? 90)) || ((192 <=? n) && (n <=? 214))
      || ((216 <=? n) && (n <=? 222)))%N
  then ascii_of_N (n + 32) else c.

Fixpoint str_lower (s : string) : string :=
  match s with
  | EmptyString => EmptyString
  | String c s' => String (str_lower_char c) (str_lower s')
  end.

(** The class [a-zA-Z0-9._-]. *)
Definition filename_char (c : ascii) : bool :=
  let n := N_of_ascii c in
  (((97 <=? n) && (n <=? 122)) || ((65 <=? n) && (n <=? 90))
   || ((48 <=? n) && (n <=? 57)) || (n =? 46) || (n =? 95) || (n =? 45))%N.

Fixpoint lstrip_chars (cs : string) (s : string) : string :=
  match s with
  | EmptyString => EmptyString
  | String c s' => if one_of cs c then lstrip_chars cs s' else s
  end.

Fixpoint rstrip_chars (cs : string) (s : string) : string :=
  match s with
  | EmptyString => EmptyString
  | String c s' =>
      match rstrip_chars cs s' with
      | EmptyString => if one_of cs c then EmptyString else String c EmptyString
      | r => String c r
      end
  end.

(** [s.strip(cs)] *)
Definition strip_chars (cs : string) (s : string) : string :=
  rstrip_chars cs (lstrip_chars cs s).

(** [_safe_filename], for a [str] argument. *)
Definition _safe_filename (value : string) : string :=
  let s := sub [Many 1 (fun c => negb (filename_char c))] [Lit "_"]
               (str_lower (strip value)) in
  let s := strip_chars "._-" s in
  take 120 (if nonempty s then s else "memory").

(** The characters a file name is made of: lower-case letters, digits, the
    dot, the underscore and the hyphen. *)
Definition plain_char (c : ascii) : bool :=
  let n := N_of_ascii c in
  (((97 <=? n) && (n <=? 122)) || ((48 <=? n) && (n <=? 57))
   || (n =? 46) || (n =? 95) || (n =? 45))%N.

End Mcp.

(** ** Inputs used in the examples *)

Module Examples.
Import Text Regex Py Sanitizer Daemon.

(** 3999 letters, a space and one more letter: 4001 characters. *)
Definition long_line : string := replicate 3999 "a" ++ " b".

(** The opencode record of the schema-variance scenario. *)
Definition opencode_record : json :=
  JDict [ ("id", JStr "x");
          ("parts", JList [ JDict [("type", JStr "text"); ("text", JStr "a")];
                            JDict [("type", JStr "other"); ("text", JStr "z")];
                            JDict [("type", JStr "text"); ("text", JStr "b")] ]);
          ("input", JStr "pre") ].

(** A machine on which none of the monitored files exists. *)
Definition quiet_env : env :=
  {| clock := 1700000000;
     path_exists := fun _ => false;
     getsize := fun _ => None;
     getmtime := fun _ => None;
     read_from := fun _ _ => {| lines := []; failure := None |};
     codex_isdir := false;
     codex_glob := Some [];
     strftime_day := fun _ => Some "20231114";
     now_stamp := "20231114_221320";
     now_iso := "2023-11-14T22:13:20";
     mkdir_ok := fun _ => true;
     write_text := fun _ _ => Written;
     chmod_ok := fun _ => true;
     respond := fun _ _ => Status 200;
     listing_ok := true;
     pending_sorted_ok := true |}.

(** OPENVIKING_URL set to a remote host over plain http. *)
Definition plain_http_config : Config :=
  {| OPENVIKING_URL := "http://example.com/api/v1";
     HOME := "/home/u";
     LOCAL_STORAGE_ROOT := "/home/u/.unified_context_data";
     ENABLE_SHELL_MONITOR := true;
     IDLE_TIMEOUT_SEC := 300;
     POLL_INTERVAL_SEC := 30;
     env_FAST_POLL_INTERVAL_SEC := 3;
     env_PENDING_RETRY_INTERVAL_SEC := 60;
     MAX_TRACKED_SESSIONS := 240;
     MAX_FILE_CURSORS := 800;
     SESSION_TTL_SEC := 7200;
     MAX_MESSAGES_PER_SESSION := 500 |}.

(** Stand-ins for [hashlib.md5] and [json.loads] in the examples that do
    not depend on them: a digest that is the text itself, and a decoder
    that rejects every line. *)
Definition toy_md5 (s : string) : string := s.
Definition no_json (s : string) : result json := Raise JSONDecodeError.

(** Every text can be encoded. *)
Definition any_text (s : string) : bool := true.

(** The history file of the claude_code source. *)
Definition claude_history : jsonl_source :=
  {| path := "/home/u/.claude/history.jsonl";
     sid_keys := ["sessionId"; "session_id"];
     text_keys := ["display"; "text"; "input"; "prompt"] |}.

(** A machine on which every monitored file has 5 bytes and was modified
    at the time the clock reads; [broken] tells whether opening a file
    fails. *)
Definition small_files_env (broken : bool) : env :=
  {| clock := 1700000000;
     path_exists := fun _ => true;
     getsize := fun _ => Some 5;
     getmtime := fun _ => Some (inject_Z 1700000000);
     read_from := fun _ _ => {| lines := [];
                                failure := if broken then Some OSError else None |};
     codex_isdir := true;
     codex_glob := Some ["/home/u/.codex/sessions/r.jsonl"];
     strftime_day := fun _ => Some "20231114";
     now_stamp := "20231114_221320";
     now_iso := "2023-11-14T22:13:20";
     mkdir_ok := fun _ => true;
     write_text := fun _ _ => Written;
     chmod_ok := fun _ => true;
     respond := fun _ _ => Status 200;
     listing_ok := true;
     pending_sorted_ok := true |}.

(** A tracker as [SessionTracker()] leaves it on [quiet_env]. *)
Definition fresh_tracker : tracker :=
  {| sessions := []; file_cursors := ∅; active_jsonl := []; active_shell := [];
     _last_source_refresh := 0; _last_pending_retry := 0; _export_count := 0;
     _error_count := 0; _last_activity_ts := 0; _http_client := true; log := [] |}.

(** VIKING_POLL_INTERVAL_SEC=0, everything else unset. *)
Definition zero_poll_config : Config :=
  {| OPENVIKING_URL := "http://127.0.0.1:8090/api/v1";
     HOME := "/home/u";
     LOCAL_STORAGE_ROOT := "/home/u/.unified_context_data";
     ENABLE_SHELL_MONITOR := true;
     IDLE_TIMEOUT_SEC := 300;
     POLL_INTERVAL_SEC := 0;
     env_FAST_POLL_INTERVAL_SEC := 3;
     env_PENDING_RETRY_INTERVAL_SEC := 60;
     MAX_TRACKED_SESSIONS := 240;
     MAX_FILE_CURSORS := 800;
     SESSION_TTL_SEC := 7200;
     MAX_MESSAGES_PER_SESSION := 500 |}.

Definition empty_disk : disk := {| history := []; outbox := []; requests := [] |}.

(** A session last seen 298 seconds before the clock of [quiet_env] reads. *)
Definition nearly_idle_session : session :=
  {| last_seen := 1699999702; messages := ["ls"; "pwd"]; exported := false;
     source := "claude_code"; created := 1699999000; last_hash := "h" |}.

(** Two queued artifacts, the older one first to be retried. *)
Definition two_pending : disk :=
  {| history := [];
     outbox := [ {| pf_name := "b.md"; pf_mtime := 20 |};
                 {| pf_name := "a.md"; pf_mtime := 10 |} ];
     requests := [] |}.


(** [quiet_env], a thousand seconds later. *)
Definition later_env : env :=
  {| clock := 1700001000;
     path_exists := fun _ => false;
     getsize := fun _ => None;
     getmtime := fun _ => None;
     read_from := fun _ _ => {| lines := []; failure := None |};
     codex_isdir := false;
     codex_glob := Some [];
     strftime_day := fun _ => Some "20231114";
     now_stamp := "20231114_223000";
     now_iso := "2023-11-14T22:30:00";
     mkdir_ok := fun _ => true;
     write_text := fun _ _ => Written;
     chmod_ok := fun _ => true;
     respond := fun _ _ => Status 200;
     listing_ok := true;
     pending_sorted_ok := true |}.

(** A pass that finds [s1] not yet idle, a repeated and a new message, and
    two later passes. *)
Definition one_session_history : list op :=
  [ Sweep quiet_env;
    Upsert "s1" "claude_code" "pwd" 1699999900;
    Upsert "s1" "claude_code" "make" 1699999901;
    Sweep later_env;
    Sweep later_env ].

(** [n] cursors, under the keys [codex_session:codex_session:0] and so on,
    as the codex tailer leaves them for [n] session files. *)
Definition many_cursors (n : nat) : gmap string Z :=
  list_to_map (List.map (fun i => ("codex_session:codex_session:" ++ str_of_int (Z.of_nat i), 0))
                        (seq 0 n)).

End Examples.

(** ** Inputs used in the further examples *)

Module MoreExamples.
Import Text Regex Py Sanitizer Daemon Loop Examples.

(** A session exported long before the clock of [later_env] reads. *)
Definition old_exported_session : session :=
  {| last_seen := 1699990000; messages := ["ls"; "pwd"]; exported := true;
     source := "claude_code"; created := 1699980000; last_hash := "pwd" |}.

(** A session of one message, last seen 298 seconds before the clock of
    [quiet_env] reads. *)
Definition short_session : session :=
  {| last_seen := 1699999702; messages := ["ls"]; exported := false;
     source := "claude_code"; created := 1699999000; last_hash := "ls" |}.

(** A table of three sessions. *)
Definition three_sessions : list (string * session) :=
  [ ("s1", nearly_idle_session); ("old", old_exported_session); ("s2", short_session) ].

(** A decoder that reads every line as the number 123. *)
Definition number_json (s : string) : result json := Ok (JInt 123).

(** A machine on which every monitored file has 5 bytes, and a read from
    any offset yields the one line [x]. *)
Definition one_line_env : env :=
  {| clock := 1700000000;
     path_exists := fun _ => true;
     getsize := fun _ => Some 5;
     getmtime := fun _ => Some (inject_Z 1700000000);
     read_from := fun _ _ => {| lines := ["x"]; failure := None |};
     codex_isdir := true;
     codex_glob := Some ["/home/u/.codex/sessions/r.jsonl"];
     strftime_day := fun _ => Some "20231114";
     now_stamp := "20231114_221320";
     now_iso := "2023-11-14T22:13:20";
     mkdir_ok := fun _ => true;
     write_text := fun _ _ => Written;
     chmod_ok := fun _ => true;
     respond := fun _ _ => Status 200;
     listing_ok := true;
     pending_sorted_ok := true |}.

(** A configuration that allows no session to be tracked. *)
Definition no_room_config : Config :=
  {| OPENVIKING_URL := "http://127.0.0.1:8090/api/v1";
     HOME := "/home/u";
     LOCAL_STORAGE_ROOT := "/home/u/.unified_context_data";
     ENABLE_SHELL_MONITOR := true;
     IDLE_TIMEOUT_SEC := 300;
     POLL_INTERVAL_SEC := 30;
     env_FAST_POLL_INTERVAL_SEC := 3;
     env_PENDING_RETRY_INTERVAL_SEC := 60;
     MAX_TRACKED_SESSIONS := 0;
     MAX_FILE_CURSORS := 800;
     SESSION_TTL_SEC := 7200;
     MAX_MESSAGES_PER_SESSION := 500 |}.

(** [quiet_env] with a service that cannot be reached. *)
Definition offline_env : env :=
  {| clock := 1700000000;
     path_exists := fun _ => false;
     getsize := fun _ => None;
     getmtime := fun _ => None;
     read_from := fun _ _ => {| lines := []; failure := None |};
     codex_isdir := false;
     codex_glob := Some [];
     strftime_day := fun _ => Some "20231114";
     now_stamp := "20231114_221320";
     now_iso := "2023-11-14T22:13:20";
     mkdir_ok := fun _ => true;
     write_text := fun _ _ => Written;
     chmod_ok := fun _ => true;
     respond := fun _ _ => PostRaises;
     listing_ok := true;
     pending_sorted_ok := true |}.

(** [quiet_env], thirty seconds later. *)
Definition soon_env : env :=
  {| clock := 1700000030;
     path_exists := fun _ => false;
     getsize := fun _ => None;
     getmtime := fun _ => None;
     read_from := fun _ _ => {| lines := []; failure := None |};
     codex_isdir := false;
     codex_glob := Some [];
     strftime_day := fun _ => Some "20231114";
     now_stamp := "20231114_221350";
     now_iso := "2023-11-14T22:13:50";
     mkdir_ok := fun _ => true;
     write_text := fun _ _ => Written;
     chmod_ok := fun _ => true;
     respond := fun _ _ => Status 200;
     listing_ok := true;
     pending_sorted_ok := true |}.


(** A machine on which every monitored file exists and none can be
    measured. *)
Definition unreadable_env : env :=
  {| clock := 1700000000;
     path_exists := fun _ => true;
     getsize := fun _ => None;
     getmtime := fun _ => None;
     read_from := fun _ _ => {| lines := []; failure := None |};
     codex_isdir := false;
     codex_glob := Some [];
     strftime_day := fun _ => Some "20231114";
     now_stamp := "20231114_221320";
     now_iso := "2023-11-14T22:13:20";
     mkdir_ok := fun _ => true;
     write_text := fun _ _ => Written;
     chmod_ok := fun _ => true;
     respond := fun _ _ => Status 200;
     listing_ok := true;
     pending_sorted_ok := true |}.

(** An antigravity directory with two sessions, each with a walkthrough. *)
Definition two_walkthroughs : brain :=
  {| brain_isdir := true;
     brain_glob := Some [ "/home/u/.gemini/antigravity/brain/1-2-3-4-5";
                          "/home/u/.gemini/antigravity/brain/6-7-8-9-0" ];
     read_walkthrough := fun _ => Some "# Walkthrough" |}.

(** An encoder for the examples in which a text cannot be encoded: the
    character 255 stands for a lone surrogate, which the 8-bit characters
    of the embedding cannot name. *)
Definition latin_text (s : string) : bool :=
  negb (existsb (Ascii.eqb "255") (list_ascii_of_string s)).

(** A text that [latin_text] refuses. *)
Definition surrogate_text : string := String "a" (String "255" "b").

(** [quiet_env] on a machine where the files of the pending directory
    cannot be listed or examined. *)
Definition unlistable_env : env :=
  {| clock := 1700000000;
     path_exists := fun _ => false;
     getsize := fun _ => None;
     getmtime := fun _ => None;
     read_from := fun _ _ => {| lines := []; failure := None |};
     codex_isdir := false;
     codex_glob := Some [];
     strftime_day := fun _ => Some "20231114";
     now_stamp := "20231114_221320";
     now_iso := "2023-11-14T22:13:20";
     mkdir_ok := fun _ => true;
     write_text := fun _ _ => Written;
     chmod_ok := fun _ => true;
     respond := fun _ _ => Status 200;
     listing_ok := false;
     pending_sorted_ok := false |}.

(** A session id that holds a NUL character, as the [sessionId] of a
    record can. *)
Definition nul_sid : string := String "a" (String "000" "b").

(** [later_env], where a path that holds a NUL character is refused:
    [write_text] raises ValueError before the file is opened. *)
Definition nul_refusing_env : env :=
  {| clock := 1700001000;
     path_exists := fun _ => false;
     getsize := fun _ => None;
     getmtime := fun _ => None;
     read_from := fun _ _ => {| lines := []; failure := None |};
     codex_isdir := false;
     codex_glob := Some [];
     strftime_day := fun _ => Some "20231114";
     now_stamp := "20231114_223000";
     now_iso := "2023-11-14T22:30:00";
     mkdir_ok := fun _ => true;
     write_text := fun p _ => if existsb (Ascii.eqb "000") (list_ascii_of_string p)
                              then WriteRaises ValueError None else Written;
     chmod_ok := fun _ => true;
     respond := fun _ _ => Status 200;
     listing_ok := true;
     pending_sorted_ok := true |}.

(** A tracker with two idle sessions of two messages each, the one under
    [nul_sid] first. *)
Definition two_idle_sessions : tracker :=
  set_sessions [(nul_sid, nearly_idle_session); ("s2", nearly_idle_session)] fresh_tracker.

(** [later_env] on a machine whose history directory cannot be made. *)
Definition no_mkdir_env : env :=
  {| clock := 1700001000;
     path_exists := fun _ => false;
     getsize := fun _ => None;
     getmtime := fun _ => None;
     read_from := fun _ _ => {| lines := []; failure := None |};
     codex_isdir := false;
     codex_glob := Some [];
     strftime_day := fun _ => Some "20231114";
     now_stamp := "20231114_223000";
     now_iso := "2023-11-14T22:30:00";
     mkdir_ok := fun _ => false;
     write_text := fun _ _ => Written;
     chmod_ok := fun _ => true;
     respond := fun _ _ => Status 200;
     listing_ok := true;
     pending_sorted_ok := true |}.

End MoreExamples.

(** * Properties *)

Import Text Regex Py Sanitizer Daemon Examples Loop MoreExamples.

(** ** Sanitizer *)

Lemma take_length (n : nat) (s : string) : (String.length (take n s) <= n)%nat.
Proof.
  revert s. induction n as [|n IH]; intros [|c s]; simpl; try lia.
  specialize (IH s). lia.
Qed.

Lemma take_all (n : nat) (s : string) : (String.length s <= n)%nat -> take n s = s.
Proof.
  revert s. induction n as [|n IH]; intros [|c s]; simpl; intros H; try reflexivity; try lia.
  f_equal. apply IH. lia.
Qed.

Lemma truncate_length (s : string) : (String.length (truncate s) <= 4000)%nat.
Proof.
  unfold truncate. destruct (4000 <? String.length s)%nat eqn:E.
  - apply take_length.
  - apply Nat.ltb_ge in E. exact E.
Qed.

Lemma truncate_short (s : string) : (String.length s <= 4000)%nat -> truncate s = s.
Proof.
  intros H. unfold truncate.
  destruct (4000 <? String.length s)%nat eqn:E; [|reflexivity].
  apply Nat.ltb_lt in E. lia.
Qed.

Lemma redact_empty : redact EmptyString = EmptyString.
Proof. reflexivity. Qed.

(** The three steps, in their order, also on the empty string. *)
Lemma sanitize_steps (x : string) : _sanitize_text x = truncate (redact (strip x)).
Proof. destruct x; reflexivity. Qed.

Lemma sanitize_length (x : string) : (String.length (_sanitize_text x) <= 4000)%nat.
Proof. rewrite sanitize_steps. apply truncate_length. Qed.

Lemma sanitize_fixed_point (y : string) :
  strip y = y -> redact y = y -> (String.length y <= 4000)%nat -> _sanitize_text y = y.
Proof.
  intros Hs Hr Hl. rewrite sanitize_steps, Hs, Hr. apply truncate_short, Hl.
Qed.

(** C5, as stated, fails: on 3999 letters followed by a space and a letter
    the truncation leaves a trailing space, which a second pass strips. *)
Lemma sanitize_not_idempotent :
  _sanitize_text (_sanitize_text long_line) <> _sanitize_text long_line.
Proof.
  intros H.
  assert (E : Nat.eqb (String.length (_sanitize_text (_sanitize_text long_line)))
                      (String.length (_sanitize_text long_line)) = false)
    by (vm_compute; reflexivity).
  rewrite H, Nat.eqb_refl in E. discriminate E.
Qed.

(** ** Record extraction *)

(** C4: on the record of the scenario, with the text keys of the opencode
    source, [_extract_text] returns at the first text key, [input], and
    never reaches the [parts] branch: the message is [pre], not the three
    lines the scenario expects.  The session id is [x]. *)
Theorem opencode_record_extraction :
  _extract_text opencode_record (text_keys (prompt_history "prompt-history.jsonl")) = Ok "pre"
  /\ _extract_sid opencode_record (sid_keys (prompt_history "prompt-history.jsonl")) "opencode"
     = Ok "x".
Proof. split; reflexivity. Qed.

(** The [parts] branch does build the three lines, for text keys that do
    not list [input]; no configured source has such keys. *)
Lemma opencode_record_parts_branch :
  _extract_text opencode_record ["prompt"; "text"]
  = Ok ("pre" ++ String newline ("a" ++ String newline "b")).
Proof. reflexivity. Qed.

Lemma every_source_probes_input (cfg : Config) :
  forallb (fun entry => forallb (fun src => existsb (String.eqb "input") (text_keys src))
                                (snd entry))
          (JSONL_SOURCES cfg) = true.
Proof. reflexivity. Qed.

(** ** Start-up *)

(** C1: the daemon's [main] reaches its loop with OPENVIKING_URL set to a
    remote host over plain http, a URL the start-up guard of the
    memory-tool script rejects. *)
Theorem daemon_starts_on_plain_http (md5 : string -> string) (httpx_ok : bool) :
  mcp_rejects_url (OPENVIKING_URL plain_http_config) = true
  /\ exists t, main_startup md5 plain_http_config quiet_env httpx_ok = Ok t.
Proof. split; [reflexivity|]. eexists. reflexivity. Qed.

Lemma mcp_guard_accepts_loopback_and_https :
  mcp_rejects_url "http://127.0.0.1:8090/api/v1" = false
  /\ mcp_rejects_url "http://localhost/api" = false
  /\ mcp_rejects_url "https://example.com/api/v1" = false.
Proof. repeat split; reflexivity. Qed.

(** ** Sorting *)

Lemma insert_sorted_perm {A : Type} (le : A -> A -> bool) (x : A) (l : list A) :
  insert_sorted le x l ≡ₚ x :: l.
Proof.
  induction l as [|y l IH]; simpl; [reflexivity|].
  destruct (le x y); [reflexivity|].
  rewrite IH. apply Permutation_swap.
Qed.

Lemma sorted_perm {A : Type} (le : A -> A -> bool) (l : list A) : sorted le l ≡ₚ l.
Proof.
  induction l as [|x l IH]; simpl; [reflexivity|].
  unfold sorted in *. simpl. rewrite insert_sorted_perm. by rewrite IH.
Qed.

(** ** Cursor cleanup *)

Lemma size_delete_all (ks : list string) (m : gmap string Z) :
  NoDup ks -> (forall k, k ∈ ks -> is_Some (m !! k)) ->
  size (fold_left (fun m k => delete k m) ks m) = (size m - length ks)%nat.
Proof.
  revert m. induction ks as [|k ks IH]; intros m Hnd Hin; simpl; [lia|].
  apply NoDup_cons in Hnd as [Hk Hnd].
  rewrite IH; [|done|].
  - rewrite map_size_delete_Some by (apply Hin; left). 
    assert (size m <> 0%nat).
    { destruct (Hin k) as [v Hv]; [left|]. intros E. apply map_size_empty_inv in E.
      subst. by rewrite lookup_empty in Hv. }
    lia.
  - intros k' Hk'. rewrite lookup_delete_ne; [apply Hin; by right|].
    intros ->. done.
Qed.

(** What a cleanup leaves: nothing changes up to the cap; above it, the
    first [max(1, n // 3)] keys in sorted order go. *)
Lemma cleanup_cursors_size (cfg : Config) (t : tracker) :
  size (file_cursors (cleanup_cursors cfg t))
  = if Z.of_nat (size (file_cursors t)) <=? MAX_FILE_CURSORS cfg
    then size (file_cursors t)
    else (size (file_cursors t)
          - Z.to_nat (Z.max 1 (Z.of_nat (size (file_cursors t)) / 3)))%nat.
Proof.
  unfold cleanup_cursors.
  destruct (Z.of_nat (size (file_cursors t)) <=? MAX_FILE_CURSORS cfg) eqn:E; [done|].
  simpl. set (keys := sorted String.leb (map_to_list (file_cursors t)).*1).
  assert (Hp : keys ≡ₚ (map_to_list (file_cursors t)).*1) by apply sorted_perm.
  assert (Hlen : length keys = size (file_cursors t)).
  { rewrite Hp, length_fmap. apply length_map_to_list. }
  rewrite size_delete_all.
  - rewrite length_take, Hlen.
    assert (0 <= Z.of_nat (size (file_cursors t)) / 3 <= Z.of_nat (size (file_cursors t))).
    { split; [apply Z.div_pos; lia|]. apply Z.div_le_upper_bound; lia. }
    lia.
  - apply (sublist_NoDup _ keys); [|apply sublist_take].
    rewrite Hp. apply NoDup_fst_map_to_list.
  - intros k Hk. apply subseteq_take in Hk. rewrite Hp in Hk.
    apply list_elem_of_fmap in Hk as [[k' v] [-> Hkv]].
    apply elem_of_map_to_list in Hkv. by exists v.
Qed.

(** C8, as stated, fails: with the default cap of 800 and 1201 cursors in
    the table, a cleanup removes 400 of them and leaves 801. *)
Lemma cleanup_can_exceed_cap :
  ~ (Z.of_nat (size (file_cursors
        (cleanup_cursors (default_config "/home/u")
                         (set_file_cursors (many_cursors 1201) fresh_tracker))))
     <= MAX_FILE_CURSORS (default_config "/home/u")).
Proof.
  rewrite cleanup_cursors_size. simpl file_cursors.
  assert (E : size (many_cursors 1201) = 1201%nat) by (vm_compute; reflexivity).
  rewrite E. vm_compute. intros H. apply H. reflexivity.
Qed.

(** C8, amended: a cleanup that finds n cursors leaves n of them when n is
    at most MAX_FILE_CURSORS, and n - max(1, n div 3) otherwise (never less
    than none); so the table is within the cap after the call whenever
    2 n <= 3 MAX_FILE_CURSORS, and can exceed it for larger n. *)
Theorem cleanup_cursors_bound (cfg : Config) (t : tracker) :
  let n := Z.of_nat (size (file_cursors t)) in
  let n' := Z.of_nat (size (file_cursors (cleanup_cursors cfg t))) in
  (n <= MAX_FILE_CURSORS cfg -> n' = n)
  /\ (MAX_FILE_CURSORS cfg < n -> n' = Z.max 0 (n - Z.max 1 (n / 3)))
  /\ (2 * n <= 3 * MAX_FILE_CURSORS cfg -> n' <= MAX_FILE_CURSORS cfg).
Proof.
  intros n n'. subst n'. rewrite cleanup_cursors_size. fold n.
  destruct (n <=? MAX_FILE_CURSORS cfg) eqn:E.
  - apply Z.leb_le in E. repeat split; intros; lia.
  - apply Z.leb_gt in E.
    assert (Hd : 0 <= n / 3 <= n).
    { split; [apply Z.div_pos; lia|]. apply Z.div_le_upper_bound; lia. }
    assert (Hm : n = 3 * (n / 3) + n mod 3) by (apply Z.div_mod; lia).
    assert (Hr : 0 <= n mod 3 < 3) by (apply Z.mod_pos_bound; lia).
    repeat split; intros; lia.
Qed.

Lemma cleanup_cursors_bound_witness :
  Z.of_nat (size (file_cursors
      (cleanup_cursors (default_config "/home/u")
                       (set_file_cursors (many_cursors 1200) fresh_tracker))))
  <= MAX_FILE_CURSORS (default_config "/home/u").
Proof.
  apply (cleanup_cursors_bound (default_config "/home/u")
           (set_file_cursors (many_cursors 1200) fresh_tracker)).
  vm_compute. intros H. discriminate H.
Defined.

(** ** Scheduler *)

Lemma ltb_Q_false (a b : Q) : ltb_Q a b = false -> (b <= a)%Q.
Proof.
  unfold ltb_Q. intros H. apply negb_false_iff in H. by apply Qle_bool_iff.
Qed.

Lemma ltb_Q_true (a b : Q) : ltb_Q a b = true -> (a < b)%Q.
Proof.
  unfold ltb_Q. intros H. apply negb_true_iff in H.
  apply Qnot_le_lt. intros Hle. apply Qle_bool_iff in Hle. congruence.
Qed.

(** The loop returns a lower bound of its start value and of the time left
    to every session not yet exported. *)
Lemma nearest_due_loop_lower_bound (cfg : Config) (now : Q) (l : list (string * session)) :
  forall (acc : option Q) (sid : string) (data : session),
    In (sid, data) l -> exported data = false ->
    exists nd, nearest_due_loop cfg now acc l = Some nd
               /\ (nd <= inject_Z (IDLE_TIMEOUT_SEC cfg) - (now - last_seen data))%Q.
Proof.
  assert (Hacc : forall l acc a, acc = Some a ->
            exists nd, nearest_due_loop cfg now acc l = Some nd /\ (nd <= a)%Q).
  { clear l. induction l as [|[k d] l IH]; intros acc a ->; simpl.
    - exists a. split; [done|apply Qle_refl].
    - destruct (exported d); [by apply IH|].
      destruct (ltb_Q _ a) eqn:E.
      + edestruct IH as (nd & Hnd & Hle); [reflexivity|]. exists nd.
        split; [exact Hnd|].
        apply ltb_Q_true in E. eapply Qle_trans; [exact Hle|]. by apply Qlt_le_weak.
      + by apply IH. }
  induction l as [|[k d] l IH]; intros acc sid data Hin Hex; [destruct Hin|].
  destruct Hin as [Heq|Hin].
  - injection Heq as -> ->. simpl. rewrite Hex.
    destruct acc as [a|].
    + destruct (ltb_Q _ a) eqn:E.
      * by apply Hacc.
      * edestruct (Hacc l) as (nd & Hnd & Hle); [reflexivity|]. exists nd.
        split; [exact Hnd|].
        apply ltb_Q_false in E. eapply Qle_trans; eauto.
    + by apply Hacc.
  - simpl. destruct (exported d); [by eapply IH|].
    destruct acc as [a|]; [destruct (ltb_Q _ a)|]; by eapply IH.
Qed.

Lemma FAST_POLL_INTERVAL_SEC_floor (cfg : Config) : 1 <= FAST_POLL_INTERVAL_SEC cfg.
Proof. unfold FAST_POLL_INTERVAL_SEC. lia. Qed.

(** C9, as stated, fails: with VIKING_POLL_INTERVAL_SEC=0 the interval is
    1, which is more than POLL_INTERVAL_SEC. *)
Lemma sleep_can_exceed_poll_interval :
  ~ (next_sleep_interval zero_poll_config quiet_env fresh_tracker empty_disk
     <= POLL_INTERVAL_SEC zero_poll_config).
Proof. vm_compute. intros H. apply H. reflexivity. Qed.

(** C9, amended: for every tracker state the computed sleep interval is at
    least 1 and at most max(1, POLL_INTERVAL_SEC), and it is at most
    FAST_POLL_INTERVAL_SEC whenever the pending directory is found
    non-empty or some session not yet exported has
    IDLE_TIMEOUT_SEC - (now - last_seen) <= FAST_POLL_INTERVAL_SEC. *)
Theorem next_sleep_interval_bounds (cfg : Config) (e : env) (t : tracker) (d : disk) :
  1 <= next_sleep_interval cfg e t d <= Z.max 1 (POLL_INTERVAL_SEC cfg)
  /\ (has_pending e d = Some true
      \/ (exists sid data,
            In (sid, data) (sessions t) /\ exported data = false
            /\ (inject_Z (IDLE_TIMEOUT_SEC cfg) - (clock e - last_seen data)
                <= inject_Z (FAST_POLL_INTERVAL_SEC cfg))%Q)
      -> next_sleep_interval cfg e t d <= FAST_POLL_INTERVAL_SEC cfg).
Proof.
  pose proof (FAST_POLL_INTERVAL_SEC_floor cfg) as Hf.
  assert (Hdue : forall sid data,
            In (sid, data) (sessions t) -> exported data = false ->
            (inject_Z (IDLE_TIMEOUT_SEC cfg) - (clock e - last_seen data)
             <= inject_Z (FAST_POLL_INTERVAL_SEC cfg))%Q ->
            exists nd, nearest_due_loop cfg (clock e) None (sessions t) = Some nd
                       /\ Qle_bool nd (inject_Z (FAST_POLL_INTERVAL_SEC cfg)) = true).
  { intros sid data Hin Hex Hrem.
    destruct (nearest_due_loop_lower_bound cfg (clock e) _ None _ _ Hin Hex)
      as (nd & Hnd & Hle).
    exists nd. split; [exact Hnd|]. apply Qle_bool_iff. eapply Qle_trans; eauto. }
  unfold next_sleep_interval.
  destruct (has_pending e d) as [[]|] eqn:Hp;
    (destruct (nearest_due_loop cfg (clock e) None (sessions t)) as [nd|] eqn:Hnd;
     [destruct (Qle_bool nd (inject_Z (FAST_POLL_INTERVAL_SEC cfg))) eqn:Hq;
      [|match goal with |- context [ltb_Q nd ?x] => destruct (ltb_Q nd x) end]|]);
    match goal with |- context [?a && ?b] => destruct (a && b) end;
    (split; [lia|]);
    (intros [Hpend | (sid & data & Hin & Hex & Hrem)];
     [first [discriminate Hpend | lia]
     |destruct (Hdue sid data Hin Hex Hrem) as (nd' & Hnd' & Hq');
      first [discriminate Hnd' | injection Hnd' as <-; first [congruence | lia]]]).
Qed.

Lemma next_sleep_interval_bounds_witness :
  next_sleep_interval (default_config "/home/u") quiet_env
    (set_sessions [("s1", nearly_idle_session)] fresh_tracker) empty_disk
  <= FAST_POLL_INTERVAL_SEC (default_config "/home/u").
Proof.
  apply (next_sleep_interval_bounds (default_config "/home/u") quiet_env
           (set_sessions [("s1", nearly_idle_session)] fresh_tracker) empty_disk).
  right. exists "s1", nearly_idle_session.
  split; [left; reflexivity|]. split; [reflexivity|].
  vm_compute. intros H. discriminate H.
Defined.

Lemma insert_sorted_sorted {A : Type} (le : A -> A -> bool) (x : A) (l : list A) :
  (forall a b, le a b = true \/ le b a = true) ->
  (forall a b c, le a b = true -> le b c = true -> le a c = true) ->
  StronglySorted (fun a b => le a b = true) l ->
  StronglySorted (fun a b => le a b = true) (insert_sorted le x l).
Proof.
  intros Htot Htr. induction 1 as [|y l Hs IH Hall]; simpl.
  - repeat constructor.
  - destruct (le x y) eqn:E.
    + constructor; [by constructor|]. constructor; [done|].
      eapply Forall_impl; [exact Hall|]. intros z Hz. simpl in Hz. eauto.
    + constructor; [done|]. rewrite insert_sorted_perm. constructor; [|done].
      destruct (Htot x y); congruence.
Qed.

Lemma sorted_sorted {A : Type} (le : A -> A -> bool) (l : list A) :
  (forall a b, le a b = true \/ le b a = true) ->
  (forall a b c, le a b = true -> le b c = true -> le a c = true) ->
  StronglySorted (fun a b => le a b = true) (sorted le l).
Proof.
  intros Htot Htr. induction l as [|x l IH]; [constructor|].
  unfold sorted in *. simpl. by apply insert_sorted_sorted.
Qed.

(** ** Outbox retry *)

Lemma retry_batch_cons (cfg : Config) (e : env) (pf : pending_file)
      (rest : list pending_file) (t : tracker) (d : disk) :
  retry_batch cfg e (pf :: rest) t d
  = let d1 := {| history := history d; outbox := outbox d;
                 requests := (requests d ++ [pending_path cfg pf])%list |} in
    match respond e (length (requests d)) (pending_path cfg pf) with
    | Status code =>
        retry_batch cfg e rest
          (if code <? 300 then logging INFO ("Retried pending OK: " ++ pf_name pf) t else t)
          (if code <? 300 then set_outbox (outbox_unlink (pf_name pf) (outbox d)) d1 else d1)
    | PostRaises => (t, d1)
    end.
Proof.
  simpl. unfold post.
  destruct (respond e (length (requests d)) (pending_path cfg pf)) as [code|]; [|done].
  by destruct (code <? 300).
Qed.







(** ** Dicts *)

Lemma dict_get_set_eq {A : Type} (k : string) (v : A) (d : list (string * A)) :
  dict_get k (dict_set k v d) = Some v.
Proof.
  induction d as [|[k' v'] d IH]; simpl.
  - by rewrite String.eqb_refl.
  - destruct (String.eqb k k') eqn:E; simpl; rewrite E; [done|exact IH].
Qed.

Lemma dict_get_set_ne {A : Type} (k k' : string) (v : A) (d : list (string * A)) :
  k <> k' -> dict_get k' (dict_set k v d) = dict_get k' d.
Proof.
  intros Hne. induction d as [|[k0 v0] d IH]; simpl.
  - destruct (String.eqb k' k) eqn:E; [|done]. apply String.eqb_eq in E. congruence.
  - destruct (String.eqb k k0) eqn:E; simpl.
    + apply String.eqb_eq in E. subst k0.
      destruct (String.eqb k' k) eqn:E'; [|done]. apply String.eqb_eq in E'. congruence.
    + by rewrite IH.
Qed.

Lemma dict_set_keys {A : Type} (k : string) (v : A) (d : list (string * A)) :
  is_Some (dict_get k d) -> (dict_set k v d).*1 = d.*1.
Proof.
  induction d as [|[k' v'] d IH]; simpl; intros [x Hx]; [done|].
  destruct (String.eqb k k') eqn:E; simpl; [done|]. f_equal. apply IH. by exists x.
Qed.

Lemma dict_get_In {A : Type} (k : string) (v : A) (d : list (string * A)) :
  dict_get k d = Some v -> In (k, v) d.
Proof.
  induction d as [|[k' v'] d IH]; simpl; [done|].
  destruct (String.eqb k k') eqn:E.
  - apply String.eqb_eq in E. intros [= ->]. left. by subst.
  - intros H. right. by apply IH.
Qed.

Lemma dict_get_None {A : Type} (k : string) (d : list (string * A)) :
  dict_get k d = None <-> k ∉ d.*1.
Proof.
  induction d as [|[k' v'] d IH]; simpl.
  - split; [intros _; apply not_elem_of_nil|done].
  - destruct (String.eqb k k') eqn:E.
    + apply String.eqb_eq in E. subst. split; [done|]. intros H. exfalso. apply H. left.
    + apply String.eqb_neq in E. rewrite IH, not_elem_of_cons. tauto.
Qed.

(** ** What the tailers leave alone *)

Section Tailers.

Variable md5 : string -> string.
Variable encodable : string -> bool.
Variable json_loads : string -> result json.
Variable cfg : Config.

Lemma same_books_refl (t : tracker) : same_books t t.
Proof. by repeat split. Qed.

Lemma same_books_trans (t1 t2 t3 : tracker) :
  same_books t1 t2 -> same_books t2 t3 -> same_books t1 t3.
Proof. intros (?&?&?) (?&?&?). repeat split; congruence. Qed.

Lemma evict_oldest_books (t t' : tracker) : _evict_oldest t = Ok t' -> same_books t t'.
Proof.
  unfold _evict_oldest.
  destruct (List.filter _ (sessions t)); [destruct (sessions t)|];
    intros [= <-]; by repeat split.
Qed.

Lemma ensure_session_books (sid src : string) (now : Q) (t t' : tracker) :
  ensure_session cfg sid src now t = Ok t' -> same_books t t'.
Proof.
  unfold ensure_session. destruct (dict_get sid (sessions t)).
  - intros [= <-]. apply same_books_refl.
  - destruct (Z.of_nat (length (sessions t)) >=? MAX_TRACKED_SESSIONS cfg).
    + destruct (_evict_oldest t) as [t0|] eqn:E; simpl; [|done].
      intros [= <-]. apply evict_oldest_books in E. destruct E as (?&?&?).
      by repeat split.
    + simpl. intros [= <-]. by repeat split.
Qed.

Lemma upsert_session_books (sid src text : string) (now : Q) (t : tracker) :
  same_books t (_upsert_session md5 encodable cfg sid src text now t).1.
Proof.
  unfold _upsert_session, bind_in.
  destruct (ensure_session cfg sid src now t) as [t1|] eqn:E; [|apply same_books_refl].
  apply ensure_session_books in E.
  destruct (dict_get sid (sessions t1)) as [sess|]; [|exact E].
  destruct (negb (encodable text)); [exact E|].
  destruct (String.eqb _ _); [exact E|].
  destruct E as (?&?&?). by repeat split.
Qed.

Lemma jsonl_line_books (source_name : string) (src : jsonl_source) (now : Q)
      (line : string) (t : tracker) :
  same_books t (jsonl_line md5 encodable json_loads cfg source_name src now line t).1.
Proof.
  unfold jsonl_line, bind_in. destruct (negb (nonempty (strip line))).
  { apply same_books_refl. }
  destruct (json_loads (strip line)) as [data|[]]; try apply same_books_refl.
  destruct (_extract_sid _ _ _) as [sid|]; [|apply same_books_refl].
  destruct (_extract_text _ _) as [text|]; [|apply same_books_refl].
  destruct (negb _); [apply same_books_refl|].
  apply upsert_session_books.
Qed.

Lemma shell_line_books (e : env) (source_name : string) (now : Q)
      (line : string) (t : tracker) :
  same_books t (shell_line md5 encodable cfg e source_name now line t).1.
Proof.
  unfold shell_line, bind_in.
  destruct (_parse_shell_line _ _ _) as [[[sid text]|]|]; try apply same_books_refl.
  apply upsert_session_books.
Qed.

Lemma codex_line_books (p : string) (now : Q) (line : string) (t : tracker) :
  same_books t (codex_line md5 encodable json_loads cfg p now line t).1.
Proof.
  unfold codex_line, bind_in. destruct (negb (nonempty (strip line))).
  { apply same_books_refl. }
  destruct (json_loads (strip line)) as [data|[]]; try apply same_books_refl.
  destruct (get data "type") as [ty|]; [|apply same_books_refl].
  destruct (negb (eq_str ty "response_item")); [apply same_books_refl|].
  destruct (get_default data "payload" _) as [payload|]; [|apply same_books_refl].
  destruct (get payload "type") as [ptype|]; [|apply same_books_refl].
  match goal with |- context [match ?x with Ok _ => _ | Raise _ => _ end] =>
    destruct x as [text|]; [|apply same_books_refl] end.
  destruct (sanitize_value text) as [text'|]; [|apply same_books_refl].
  destruct (nonempty text'); [apply upsert_session_books|apply same_books_refl].
Qed.

Lemma for_each_line_books (body : string -> tracker -> tracker * option exn) :
  (forall line t, same_books t (body line t).1) ->
  forall ls t, same_books t (for_each_line body ls t).1.
Proof.
  intros Hbody. induction ls as [|line ls IH]; intros t; simpl.
  - apply same_books_refl.
  - pose proof (Hbody line t) as H. destruct (body line t) as [t' [x|]]; [exact H|].
    eapply same_books_trans; [exact H|apply IH].
Qed.

Lemma read_lines_from_books (e : env) (p : string) (last : Z)
      (body : string -> tracker -> tracker * option exn) (t : tracker) :
  (forall line t, same_books t (body line t).1) ->
  same_books t (read_lines_from e p last body t).1.
Proof.
  intros Hbody. unfold read_lines_from.
  pose proof (for_each_line_books body Hbody (lines (read_from e p last)) t) as H.
  by destruct (for_each_line body _ t) as [t' [x|]].
Qed.

End Tailers.

(** ** The tailer protocol *)

Section Protocol.

Variable md5 : string -> string.
Variable encodable : string -> bool.
Variable json_loads : string -> result json.
Variable cfg : Config.

Lemma poll_jsonl_file_protocol (e : env) (source_name p : string) (src : jsonl_source)
      (cursor_key : string) (now : Q) (t : tracker) :
  _poll_jsonl_file md5 encodable json_loads cfg e source_name p src cursor_key now t
  = tail_protocol e p cursor_key (jsonl_line md5 encodable json_loads cfg source_name src now)
                  ("poll_jsonl_sources(" ++ source_name ++ ")") t.
Proof. reflexivity. Qed.

Lemma poll_shell_file_protocol (e : env) (source_name p : string) (now : Q) (t : tracker) :
  poll_shell_file md5 encodable cfg e source_name p now t
  = tail_protocol e p (_cursor_key md5 "shell" source_name p)
                  (shell_line md5 encodable cfg e source_name now)
                  ("poll_shell_sources(" ++ source_name ++ ")") t.
Proof. reflexivity. Qed.

Lemma poll_codex_file_protocol (e : env) (p : string) (now m : Q) (t : tracker) :
  getmtime e p = Some m -> ltb_Q m (now - 3600) = false ->
  poll_codex_file md5 encodable json_loads cfg e p now t
  = tail_protocol e p (_cursor_key md5 "codex_session" "codex_session" p)
                  (codex_line md5 encodable json_loads cfg p now)
                  ("poll_codex_sessions(" ++ p ++ ")") t.
Proof. intros Hm Hr. unfold poll_codex_file. by rewrite Hm, Hr. Qed.


Lemma tail_protocol_getsize_fails (e : env) (p key : string)
      (body : string -> tracker -> tracker * option exn) (blame : string) (t : tracker) :
  getsize e p = None -> tail_protocol e p key body blame t = t.
Proof. intros Hs. unfold tail_protocol. by rewrite Hs. Qed.

(** The read loop raises: one more error, one error record, and the
    cursors as they were. *)
Lemma tail_protocol_read_fails (e : env) (p key : string)
      (body : string -> tracker -> tracker * option exn) (blame : string) (t : tracker)
      (sz : Z) (x : exn) :
  (forall line t, same_books t (body line t).1) ->
  getsize e p = Some sz ->
  resume_offset (file_cursors t !! key) sz < sz ->
  (read_lines_from e p (resume_offset (file_cursors t !! key) sz) body t).2 = Some x ->
  file_cursors (tail_protocol e p key body blame t) = file_cursors t
  /\ _error_count (tail_protocol e p key body blame t) = _error_count t + 1
  /\ log (tail_protocol e p key body blame t) = (log t ++ [(ERROR, blame)])%list.
Proof.
  intros Hbody Hs Hlt Hx. unfold tail_protocol. rewrite Hs. cbv zeta.
  destruct (sz <=? _) eqn:E; [apply Z.leb_le in E; lia|].
  pose proof (read_lines_from_books e p (resume_offset (file_cursors t !! key) sz) body t Hbody)
    as (Hc & He & Hl).
  destruct (read_lines_from e p _ body t) as [t' [y|]]; [|done].
  simpl in *. by rewrite Hc, He, Hl.
Qed.

(** The file has shrunk below the stored cursor: the pass reads from
    offset 0. *)
Lemma tail_protocol_truncated (e : env) (p key : string)
      (body : string -> tracker -> tracker * option exn) (blame : string) (t : tracker)
      (sz c : Z) :
  (forall line t, same_books t (body line t).1) ->
  file_cursors t !! key = Some c -> getsize e p = Some sz -> sz < c ->
  let r := read_lines_from e p 0 body t in
  let t' := tail_protocol e p key body blame t in
  (0 < sz -> r.2 = None -> t' = set_cursor key sz r.1)
  /\ (0 < sz -> r.2 <> None -> file_cursors t' !! key = Some c)
  /\ (sz <= 0 -> t' = set_cursor key sz t).
Proof.
  intros Hbody Hk Hs Hlt r t'. subst r t'. unfold tail_protocol, resume_offset.
  rewrite Hs, Hk. cbv zeta.
  assert (E : (sz <? c) = true) by (apply Z.ltb_lt; lia). rewrite E.
  pose proof (read_lines_from_books e p 0 body t Hbody) as (Hc & _ & _).
  destruct (sz <=? 0) eqn:E0; [apply Z.leb_le in E0|apply Z.leb_gt in E0].
  - repeat split; intros; try lia; done.
  - destruct (read_lines_from e p 0 body t) as [t1 [x|]]; simpl in *.
    + repeat split; intros; try lia; try done. by rewrite Hc.
    + repeat split; intros; try lia; done.
Qed.

End Protocol.

(** ** Consecutive repeats *)

Section Dedupe.

Variable md5 : string -> string.
Variable encodable : string -> bool.
Variable cfg : Config.

Lemma last_n_last {A : Type} (n : nat) (l : list A) (x : A) :
  (0 < n)%nat -> last (last_n n (l ++ [x])) = Some x.
Proof.
  intros Hn. unfold last_n. rewrite length_app. simpl.
  rewrite skipn_app.
  replace (length l + 1 - n - length l)%nat with O by lia. simpl.
  apply last_snoc.
Qed.

Lemma append_message_last (text : string) (msgs : list string) :
  last (append_message cfg text msgs) = Some text.
Proof.
  unfold append_message. destruct (_ >? _).
  - apply last_n_last. lia.
  - apply last_snoc.
Qed.

Lemma In_dict_set {A : Type} (k k0 : string) (v v0 : A) (d : list (string * A)) :
  In (k0, v0) (dict_set k v d) -> (k0, v0) = (k, v) \/ In (k0, v0) d.
Proof.
  induction d as [|[k' v'] d IH]; simpl.
  - intros [H|[]]. by left.
  - destruct (String.eqb k k') eqn:E; simpl.
    + apply String.eqb_eq in E. subst k'. intros [H|H]; [by left|right; by right].
    + intros [H|H]; [right; by left|]. destruct (IH H); [by left|right; by right].
Qed.

Lemma In_dict_del {A : Type} (k k0 : string) (v0 : A) (d : list (string * A)) :
  In (k0, v0) (dict_del k d) -> In (k0, v0) d.
Proof.
  induction d as [|[k' v'] d IH]; simpl; [done|].
  destruct (String.eqb k k'); simpl; [by right|].
  intros [H|H]; [by left|right; by apply IH].
Qed.

Lemma evict_oldest_subset (t t' : tracker) :
  _evict_oldest t = Ok t' ->
  exists k, sessions t' = dict_del k (sessions t).
Proof.
  unfold _evict_oldest. destruct (List.filter _ (sessions t)) as [|x rest].
  - destruct (sessions t) as [|y l] eqn:Es; [done|]. intros [= <-]. simpl.
    rewrite <- ?Es. by eexists.
  - intros [= <-]. by eexists.
Qed.

Lemma ensure_session_keeps_hashes (sid src : string) (now : Q) (t t1 : tracker) :
  (forall k s, In (k, s) (sessions t) -> hash_tracks_last md5 s) ->
  ensure_session cfg sid src now t = Ok t1 ->
  forall k s, In (k, s) (sessions t1) -> hash_tracks_last md5 s.
Proof.
  intros Hall. unfold ensure_session. destruct (dict_get sid (sessions t)).
  - by intros [= <-].
  - assert (Hnew : forall t0, (forall k s, In (k, s) (sessions t0) -> hash_tracks_last md5 s) ->
              forall k s, In (k, s) (dict_set sid (new_session src now) (sessions t0)) ->
                          hash_tracks_last md5 s).
    { intros t0 H0 k s [[= -> ->]|Hin]%In_dict_set; [|by eapply H0].
      intros m Hm. discriminate Hm. }
    destruct (_ >=? _).
    + destruct (_evict_oldest t) as [t0|] eqn:Ev; [|done]. simpl.
      intros [= <-]. simpl. apply Hnew.
      destruct (evict_oldest_subset _ _ Ev) as [k0 ->].
      intros k s Hin%In_dict_del. by eapply Hall.
    + simpl. intros [= <-]. simpl. by apply Hnew.
Qed.

(** A line that repeats the last message of its session changes nothing. *)
Lemma upsert_repeat_is_noop (sid src text : string) (now : Q) (t : tracker) (sess : session) :
  dict_get sid (sessions t) = Some sess ->
  hash_tracks_last md5 sess ->
  last (messages sess) = Some text ->
  _upsert_session md5 encodable cfg sid src text now t
  = (t, if encodable text then None else Some UnicodeEncodeError).
Proof.
  intros Hget Hok Hlast. unfold _upsert_session, ensure_session, bind_in. rewrite Hget.
  rewrite Hget. destruct (encodable text); [|done]. simpl.
  rewrite (Hok _ Hlast). by rewrite String.eqb_refl.
Qed.

(** Every session keeps the digest of its last message, whatever is
    upserted and however the upsert ends. *)
Lemma upsert_keeps_hashes (sid src text : string) (now : Q) (t : tracker) :
  (forall k s, In (k, s) (sessions t) -> hash_tracks_last md5 s) ->
  forall k s, In (k, s) (sessions (_upsert_session md5 encodable cfg sid src text now t).1) ->
              hash_tracks_last md5 s.
Proof.
  intros Hall. unfold _upsert_session, bind_in.
  destruct (ensure_session cfg sid src now t) as [t1|] eqn:E; [|exact Hall].
  pose proof (ensure_session_keeps_hashes _ _ _ _ _ Hall E) as H1.
  destruct (dict_get sid (sessions t1)) as [sess|]; [|exact H1].
  destruct (negb (encodable text)); [exact H1|].
  destruct (String.eqb _ _); [exact H1|]. simpl.
  intros k s [[= -> ->]|Hin]%In_dict_set; [|by eapply H1].
  intros m. simpl. rewrite append_message_last. by intros [= <-].
Qed.

(** After any upsert of [text] under [sid], a second one is a repeat. *)
Lemma upsert_twice (sid src src' text : string) (now now' : Q) (t t' : tracker) :
  _upsert_session md5 encodable cfg sid src text now t = (t', None) ->
  _upsert_session md5 encodable cfg sid src' text now' t' = (t', None).
Proof.
  unfold _upsert_session at 1. unfold bind_in.
  destruct (ensure_session cfg sid src now t) as [t1|] eqn:E; [|done].
  destruct (dict_get sid (sessions t1)) as [sess|] eqn:Hget; [|done].
  destruct (encodable text) eqn:He; [|done]. simpl.
  destruct (String.eqb (md5 text) (last_hash sess)) eqn:Hh.
  - intros [= <-]. unfold _upsert_session, ensure_session, bind_in. rewrite Hget.
    by rewrite Hget, He, Hh.
  - intros [= <-]. unfold _upsert_session, ensure_session, bind_in. simpl.
    rewrite dict_get_set_eq. simpl. rewrite dict_get_set_eq. rewrite He. simpl.
    by rewrite String.eqb_refl.
Qed.

End Dedupe.

(** ** The tailers *)



(** C7, as stated, fails: when [getsize] fails on the monitored file the
    pass returns at once; the error counter stays where it was and nothing
    is logged. *)
Lemma getsize_failure_is_silent :
  getsize quiet_env (path claude_history) = None
  /\ _error_count (_poll_jsonl_file toy_md5 any_text no_json (default_config "/home/u") quiet_env
                     "claude_code" (path claude_history) claude_history
                     (_cursor_key toy_md5 "jsonl" "claude_code" (path claude_history))
                     1700000000 fresh_tracker)
     = _error_count fresh_tracker
  /\ log (_poll_jsonl_file toy_md5 any_text no_json (default_config "/home/u") quiet_env
            "claude_code" (path claude_history) claude_history
            (_cursor_key toy_md5 "jsonl" "claude_code" (path claude_history))
            1700000000 fresh_tracker)
     = log fresh_tracker.
Proof. repeat split. Qed.

(** C7, amended: when opening or reading a monitored file raises during a
    tailer pass (or a line of it makes the loop raise), the error counter
    goes up by one, one error record is logged, the cursors stay as they
    were and the pass returns; when [getsize] (or, for a codex file,
    [getmtime]) fails, the pass returns with the tracker as it was: cursor
    unchanged, nothing counted, nothing logged. *)
Theorem tailer_failure_handling
        (md5 : string -> string) (encodable : string -> bool)
        (json_loads : string -> result json) (cfg : Config)
        (e : env) (now : Q) (t : tracker) (p : string) :
  (getsize e p = None ->
   (forall source_name src key,
       _poll_jsonl_file md5 encodable json_loads cfg e source_name p src key now t = t)
   /\ (forall source_name, poll_shell_file md5 encodable cfg e source_name p now t = t)
   /\ poll_codex_file md5 encodable json_loads cfg e p now t = t)
  /\ (getmtime e p = None -> poll_codex_file md5 encodable json_loads cfg e p now t = t)
  /\ (forall sz x source_name src key,
         getsize e p = Some sz ->
         resume_offset (file_cursors t !! key) sz < sz ->
         (read_lines_from e p (resume_offset (file_cursors t !! key) sz)
                          (jsonl_line md5 encodable json_loads cfg source_name src now) t).2 = Some x ->
         let t' := _poll_jsonl_file md5 encodable json_loads cfg e source_name p src key now t in
         file_cursors t' = file_cursors t
         /\ _error_count t' = _error_count t + 1
         /\ log t' = (log t ++ [(ERROR, ("poll_jsonl_sources(" ++ source_name ++ ")")%string)])%list)
  /\ (forall sz x source_name,
         let key := _cursor_key md5 "shell" source_name p in
         getsize e p = Some sz ->
         resume_offset (file_cursors t !! key) sz < sz ->
         (read_lines_from e p (resume_offset (file_cursors t !! key) sz)
                          (shell_line md5 encodable cfg e source_name now) t).2 = Some x ->
         let t' := poll_shell_file md5 encodable cfg e source_name p now t in
         file_cursors t' = file_cursors t
         /\ _error_count t' = _error_count t + 1
         /\ log t' = (log t ++ [(ERROR, ("poll_shell_sources(" ++ source_name ++ ")")%string)])%list)
  /\ (forall sz x m,
         let key := _cursor_key md5 "codex_session" "codex_session" p in
         getmtime e p = Some m -> ltb_Q m (now - 3600) = false ->
         getsize e p = Some sz ->
         resume_offset (file_cursors t !! key) sz < sz ->
         (read_lines_from e p (resume_offset (file_cursors t !! key) sz)
                          (codex_line md5 encodable json_loads cfg p now) t).2 = Some x ->
         let t' := poll_codex_file md5 encodable json_loads cfg e p now t in
         file_cursors t' = file_cursors t
         /\ _error_count t' = _error_count t + 1
         /\ log t' = (log t ++ [(ERROR, ("poll_codex_sessions(" ++ p ++ ")")%string)])%list).
Proof.
  split; [|split; [|split; [|split]]].
  - intros Hs. repeat split.
    + intros. rewrite poll_jsonl_file_protocol. by apply tail_protocol_getsize_fails.
    + intros. rewrite poll_shell_file_protocol. by apply tail_protocol_getsize_fails.
    + unfold poll_codex_file. destruct (getmtime e p); [|done].
      destruct (ltb_Q _ _); [done|]. by rewrite Hs.
  - intros Hm. unfold poll_codex_file. by rewrite Hm.
  - intros sz x source_name src key Hs Hlt Hx t'. subst t'.
    rewrite poll_jsonl_file_protocol.
    eapply tail_protocol_read_fails; eauto using jsonl_line_books.
  - intros sz x source_name key Hs Hlt Hx t'. subst t' key.
    rewrite poll_shell_file_protocol.
    eapply tail_protocol_read_fails; eauto using shell_line_books.
  - intros sz x m key Hm Hr Hs Hlt Hx t'. subst t' key.
    rewrite (poll_codex_file_protocol _ _ _ _ _ _ _ m) by done.
    eapply tail_protocol_read_fails; eauto using codex_line_books.
Qed.

Lemma tailer_failure_handling_witness :
  _error_count (_poll_jsonl_file toy_md5 any_text no_json (default_config "/home/u")
                  (small_files_env true) "claude_code" (path claude_history) claude_history
                  (_cursor_key toy_md5 "jsonl" "claude_code" (path claude_history))
                  1700000000
                  (set_cursor (_cursor_key toy_md5 "jsonl" "claude_code" (path claude_history))
                              2 fresh_tracker))
  = 1.
Proof.
  apply (tailer_failure_handling toy_md5 any_text no_json (default_config "/home/u")
           (small_files_env true) 1700000000
           (set_cursor (_cursor_key toy_md5 "jsonl" "claude_code" (path claude_history))
                       2 fresh_tracker)
           (path claude_history))
    with (sz := 5) (x := OSError); vm_compute; reflexivity.
Defined.

(** C2, as stated, fails: the file has 5 bytes and the stored cursor is
    10; the pass re-reads the file and ends with the cursor at 5, not 0. *)
Lemma truncated_pass_ends_at_size :
  getsize (small_files_env false) (path claude_history) = Some 5
  /\ file_cursors (set_cursor (_cursor_key toy_md5 "jsonl" "claude_code" (path claude_history))
                              10 fresh_tracker)
       !! _cursor_key toy_md5 "jsonl" "claude_code" (path claude_history) = Some 10
  /\ file_cursors
       (_poll_jsonl_file toy_md5 any_text no_json (default_config "/home/u") (small_files_env false)
          "claude_code" (path claude_history) claude_history
          (_cursor_key toy_md5 "jsonl" "claude_code" (path claude_history)) 1700000000
          (set_cursor (_cursor_key toy_md5 "jsonl" "claude_code" (path claude_history))
                      10 fresh_tracker))
       !! _cursor_key toy_md5 "jsonl" "claude_code" (path claude_history) = Some 5.
Proof. repeat split; vm_compute; reflexivity. Qed.

(** C2, amended: in every tailer pass that finds the file smaller than the
    stored cursor, the file is read again from byte offset 0; if that read
    completes, the cursor equals the current size of the file at the end of
    the pass (0 only for an empty file), and if it raises the cursor keeps
    its stored value; a line whose text is the last message appended to
    its session is not appended again (the tracker is left as it is; the
    upsert raises when the text cannot be encoded and returns otherwise),
    every session keeping the digest of its last message however an upsert
    ends. *)
Theorem truncated_file_pass
        (md5 : string -> string) (encodable : string -> bool)
        (json_loads : string -> result json) (cfg : Config)
        (e : env) (now : Q) (t : tracker) (p : string) (sz c : Z) :
  getsize e p = Some sz -> sz < c ->
  (forall source_name src key,
      file_cursors t !! key = Some c ->
      truncated_outcome e p key (jsonl_line md5 encodable json_loads cfg source_name src now) sz c t
        (_poll_jsonl_file md5 encodable json_loads cfg e source_name p src key now t))
  /\ (forall source_name,
         file_cursors t !! _cursor_key md5 "shell" source_name p = Some c ->
         truncated_outcome e p (_cursor_key md5 "shell" source_name p)
           (shell_line md5 encodable cfg e source_name now) sz c t
           (poll_shell_file md5 encodable cfg e source_name p now t))
  /\ (forall m,
         getmtime e p = Some m -> ltb_Q m (now - 3600) = false ->
         file_cursors t !! _cursor_key md5 "codex_session" "codex_session" p = Some c ->
         truncated_outcome e p (_cursor_key md5 "codex_session" "codex_session" p)
           (codex_line md5 encodable json_loads cfg p now) sz c t
           (poll_codex_file md5 encodable json_loads cfg e p now t))
  /\ (forall sid src text now' t0 sess,
         dict_get sid (sessions t0) = Some sess ->
         hash_tracks_last md5 sess ->
         last (messages sess) = Some text ->
         _upsert_session md5 encodable cfg sid src text now' t0
         = (t0, if encodable text then None else Some UnicodeEncodeError))
  /\ (forall sid src text now' t0,
         (forall k s, In (k, s) (sessions t0) -> hash_tracks_last md5 s) ->
         forall k s,
           In (k, s) (sessions (_upsert_session md5 encodable cfg sid src text now' t0).1) ->
           hash_tracks_last md5 s).
Proof.
  intros Hs Hlt. split; [|split; [|split; [|split]]].
  - intros source_name src key Hk. rewrite poll_jsonl_file_protocol.
    apply tail_protocol_truncated; eauto using jsonl_line_books.
  - intros source_name Hk. rewrite poll_shell_file_protocol.
    apply tail_protocol_truncated; eauto using shell_line_books.
  - intros m Hm Hr Hk. rewrite (poll_codex_file_protocol _ _ _ _ _ _ _ m) by done.
    apply tail_protocol_truncated; eauto using codex_line_books.
  - intros. by eapply upsert_repeat_is_noop.
  - intros sid src text now' t0 Hall. by apply upsert_keeps_hashes.
Qed.

Lemma truncated_file_pass_witness :
  truncated_outcome (small_files_env false) (path claude_history)
    (_cursor_key toy_md5 "jsonl" "claude_code" (path claude_history))
    (jsonl_line toy_md5 any_text no_json (default_config "/home/u") "claude_code" claude_history
                1700000000)
    5 10
    (set_cursor (_cursor_key toy_md5 "jsonl" "claude_code" (path claude_history))
                10 fresh_tracker)
    (_poll_jsonl_file toy_md5 any_text no_json (default_config "/home/u") (small_files_env false)
       "claude_code" (path claude_history) claude_history
       (_cursor_key toy_md5 "jsonl" "claude_code" (path claude_history)) 1700000000
       (set_cursor (_cursor_key toy_md5 "jsonl" "claude_code" (path claude_history))
                   10 fresh_tracker)).
Proof.
  apply (truncated_file_pass toy_md5 any_text no_json (default_config "/home/u")
           (small_files_env false) 1700000000
           (set_cursor (_cursor_key toy_md5 "jsonl" "claude_code" (path claude_history))
                       10 fresh_tracker)
           (path claude_history) 5 10).
  - reflexivity.
  - lia.
  - vm_compute. reflexivity.
Defined.

(** ** The idle sweep *)

#[local] Arguments exports_of : simpl never.
#[local] Arguments check_and_export_idle : simpl never.
#[local] Arguments _upsert_session : simpl never.

Section Sweep.

Variable md5 : string -> string.
Variable encodable : string -> bool.
Variable cfg : Config.

Lemma retry_batch_sessions (e : env) (batch : list pending_file) (t : tracker) (d : disk) :
  sessions (retry_batch cfg e batch t d).1 = sessions t.
Proof.
  revert t d. induction batch as [|pf rest IH]; intros t d; [done|].
  rewrite retry_batch_cons. cbv zeta.
  destruct (respond e _ _) as [code|]; [|done].
  rewrite IH. by destruct (code <? 300).
Qed.

Lemma retry_pending_sessions (e : env) (t : tracker) (d : disk) :
  sessions (_retry_pending cfg e t d).1 = sessions t.
Proof.
  unfold _retry_pending. destruct (negb (_http_client t)); [done|].
  destruct (sorted _ (outbox d)); [done|]. by rewrite retry_batch_sessions.
Qed.

Lemma queue_pending_sessions (e : env) (name text : string) (t : tracker) (d : disk) :
  sessions (queue_pending cfg e name text t d).1.1 = sessions t.
Proof. unfold queue_pending. by destruct (guarded_write e _ text) as [held []]. Qed.

Lemma export_sessions (e : env) (sid : string) (data : session) (prefix : string)
      (t : tracker) (d : disk) :
  sessions (_export cfg e sid data prefix t d).1.1 = sessions t.
Proof.
  unfold _export. destruct (negb (mkdir_ok e _)); [done|].
  destruct (guarded_write e _ _) as [held []]; [|done|done].
  destruct (_http_client t); cbv zeta; [|by rewrite queue_pending_sessions].
  unfold post. cbv beta iota zeta.
  destruct (respond e _ _) as [code|]; [|by rewrite queue_pending_sessions].
  destruct (code <? 300); [|by rewrite queue_pending_sessions].
  destruct (pending_sorted_ok e); [|by rewrite queue_pending_sessions].
  match goal with |- context [_retry_pending cfg e ?t1 ?d1] =>
    pose proof (retry_pending_sessions e t1 d1) as H;
    destruct (_retry_pending cfg e t1 d1) as [t2 d2] end.
  simpl in *. by rewrite H.
Qed.

Lemma dict_get_app_r {A : Type} (k : string) (d1 d2 : list (string * A)) :
  k ∉ d1.*1 -> dict_get k (d1 ++ d2) = dict_get k d2.
Proof.
  induction d1 as [|[k' v'] d1 IH]; simpl; [done|].
  rewrite not_elem_of_cons. intros [Hne Hnin].
  destruct (String.eqb k k') eqn:E; [apply String.eqb_eq in E; done|by apply IH].
Qed.

Lemma dict_set_app_r {A : Type} (k : string) (v v0 : A) (d1 d2 : list (string * A)) :
  k ∉ d1.*1 -> dict_set k v (d1 ++ (k, v0) :: d2) = (d1 ++ (k, v) :: d2)%list.
Proof.
  induction d1 as [|[k' v'] d1 IH]; simpl.
  - by rewrite String.eqb_refl.
  - rewrite not_elem_of_cons. intros [Hne Hnin].
    destruct (String.eqb k k') eqn:E; [apply String.eqb_eq in E; done|].
    by rewrite IH.
Qed.

Lemma sweep_all_keys (now : Q) (l : list (string * session)) : (sweep_all cfg now l).*1 = l.*1.
Proof.
  unfold sweep_all. induction l as [|[k v] l IH]; simpl; [done|]. f_equal. exact IH.
Qed.

Lemma filter_one_key (P : string * session -> bool) (k : string) (data : session) :
  (List.filter P [(k, data)]).*1 = if P (k, data) then [k] else [].
Proof. simpl. by destruct (P (k, data)). Qed.

(** One turn of the loop, on a table whose entry for [k] is [data]: the
    session is handed over if it is due, listed for removal if it is stale
    and, unless [_export] raises, left as [swept] has it. *)
Lemma sweep_step_entry (e : env) (now : Q) (st : sweep_state) (k : string) (data : session)
      (d1 d2 : list (string * session)) :
  sw_raised st = None ->
  sessions (sw_tracker st) = (d1 ++ (k, data) :: d2)%list -> k ∉ d1.*1 ->
  export_calls (sweep_step cfg e now st k)
  = (export_calls st ++ (if due cfg now data then [k] else []))%list
  /\ to_remove (sweep_step cfg e now st k)
     = (to_remove st ++ (if stale cfg now data then [k] else []))%list
  /\ match sw_raised (sweep_step cfg e now st k) with
     | None => sessions (sw_tracker (sweep_step cfg e now st k))
               = (d1 ++ (k, swept cfg now data) :: d2)%list
     | Some x => due cfg now data = true
                 /\ (_export cfg e k data EmptyString (sw_tracker st) (sw_disk st)).2 = Raise x
                 /\ sessions (sw_tracker (sweep_step cfg e now st k)) = sessions (sw_tracker st)
     end.
Proof.
  intros Hr Hs Hk. unfold sweep_step, swept, due, stale, expires, threshold. rewrite Hr.
  assert (Hget : dict_get k (sessions (sw_tracker st)) = Some data).
  { rewrite Hs, dict_get_app_r by done. simpl. by rewrite String.eqb_refl. }
  rewrite Hget. destruct (exported data) eqn:Hex; simpl.
  - destruct (ltb_Q _ _); simpl; by rewrite ?app_nil_r, ?Hr.
  - destruct (Qle_bool _ _); simpl; [by rewrite ?app_nil_r, ?Hr|].
    destruct (Z.of_nat (length (messages data)) >=? _).
    + pose proof (export_sessions e k data EmptyString (sw_tracker st) (sw_disk st)) as Hx.
      destruct (_export cfg e k data EmptyString (sw_tracker st) (sw_disk st))
        as [[t' d'] [b|x]]; simpl in *.
      * rewrite Hx, Hs, dict_set_app_r by done. by rewrite app_nil_r.
      * by rewrite app_nil_r.
    + simpl. rewrite Hs, dict_set_app_r by done. by rewrite !app_nil_r.
Qed.

(** Once [_export] has raised, no later turn runs. *)
Lemma sweep_raised_stays (e : env) (now : Q) (ks : list string) (st : sweep_state) (x : exn) :
  sw_raised st = Some x -> fold_left (sweep_step cfg e now) ks st = st.
Proof.
  intros Hr. induction ks as [|k ks IH]; [done|]. simpl.
  replace (sweep_step cfg e now st k) with st; [exact IH|].
  unfold sweep_step. by rewrite Hr.
Qed.

(** The loop of the sweep: the sessions it visits are a prefix of the
    table, all of it unless [_export] raises on the last one visited. *)
Lemma sweep_fold (e : env) (now : Q) (todo : list (string * session)) :
  forall (seen : list (string * session)) (st : sweep_state),
    sw_raised st = None ->
    sessions (sw_tracker st) = (sweep_all cfg now seen ++ todo)%list ->
    NoDup (seen ++ todo)%list.*1 ->
    exists visited rest : list (string * session),
      todo = (visited ++ rest)%list
      /\ export_calls (fold_left (sweep_step cfg e now) todo.*1 st)
         = (export_calls st ++ (List.filter (fun kv => due cfg now kv.2) visited).*1)%list
      /\ to_remove (fold_left (sweep_step cfg e now) todo.*1 st)
         = (to_remove st ++ (List.filter (fun kv => stale cfg now kv.2) visited).*1)%list
      /\ match sw_raised (fold_left (sweep_step cfg e now) todo.*1 st) with
         | None => rest = []
                   /\ sessions (sw_tracker (fold_left (sweep_step cfg e now) todo.*1 st))
                      = sweep_all cfg now (seen ++ todo)%list
         | Some x =>
             exists pre k data,
               visited = (pre ++ [(k, data)])%list /\ due cfg now data = true
               /\ sessions (sw_tracker (fold_left (sweep_step cfg e now) todo.*1 st))
                  = (sweep_all cfg now (seen ++ pre) ++ (k, data) :: rest)%list
         end.
Proof.
  induction todo as [|[k data] todo IH]; intros seen st Hr Hs Hnd.
  - exists [], []. simpl. rewrite Hr, !app_nil_r in *. done.
  - rewrite fmap_cons. cbn [fold_left fst].
    assert (Hk : k ∉ (sweep_all cfg now seen).*1).
    { rewrite sweep_all_keys. rewrite fmap_app in Hnd. simpl in Hnd.
      apply NoDup_app in Hnd as (_ & Hnd & _). intros Hin. apply (Hnd _ Hin). left. }
    destruct (sweep_step_entry e now st k data _ _ Hr Hs Hk) as (Hc' & Hr' & Hs').
    destruct (sw_raised (sweep_step cfg e now st k)) as [x|] eqn:Hx.
    + destruct Hs' as (Hdue & _ & Hs').
      rewrite (sweep_raised_stays e now _ _ x Hx), Hx.
      exists [(k, data)], todo. split; [done|].
      rewrite !(filter_one_key (fun kv => _ cfg now kv.2)). simpl.
      split; [exact Hc'|]. split; [exact Hr'|].
      exists [], k, data. rewrite app_nil_r. split; [done|]. split; [done|].
      by rewrite Hs', Hs.
    + destruct (IH (seen ++ [(k, data)])%list (sweep_step cfg e now st k))
        as (visited & rest & Ht & H2 & H3 & H4).
      * exact Hx.
      * rewrite Hs'. unfold sweep_all. rewrite fmap_app. simpl. by rewrite <- app_assoc.
      * by rewrite <- app_assoc.
      * exists ((k, data) :: visited), rest. split; [by rewrite Ht|].
        split; [|split].
        -- rewrite H2, Hc'. simpl. destruct (due cfg now data); simpl;
             by rewrite <- ?app_assoc, ?app_nil_r.
        -- rewrite H3, Hr'. simpl. destruct (stale cfg now data); simpl;
             by rewrite <- ?app_assoc, ?app_nil_r.
        -- destruct (sw_raised (fold_left _ _ _)) as [y|].
           ++ destruct H4 as (pre & k' & data' & -> & Hdue & H4).
              exists ((k, data) :: pre), k', data'. split; [done|]. split; [done|].
              rewrite H4. by rewrite <- app_assoc.
           ++ destruct H4 as [-> H4]. split; [done|]. rewrite H4. by rewrite <- app_assoc.
Qed.

(** One sweep: the sessions visited are a prefix of the table, those of
    them that are due are handed over, and the stale ones are removed when
    the loop has come to its end. *)
Lemma check_and_export_idle_spec (e : env) (t : tracker) (d : disk) :
  NoDup (sessions t).*1 ->
  exists visited rest : list (string * session),
    sessions t = (visited ++ rest)%list
    /\ export_calls (check_and_export_idle cfg e t d)
       = (List.filter (fun kv => due cfg (clock e) kv.2) visited).*1
    /\ match sw_raised (check_and_export_idle cfg e t d) with
       | None =>
           rest = []
           /\ sessions (sw_tracker (check_and_export_idle cfg e t d))
              = fold_left (fun s sid => dict_del sid s)
                          (List.filter (fun kv => stale cfg (clock e) kv.2) (sessions t)).*1
                          (sweep_all cfg (clock e) (sessions t))
       | Some x =>
           exists pre k data,
             visited = (pre ++ [(k, data)])%list /\ due cfg (clock e) data = true
             /\ sessions (sw_tracker (check_and_export_idle cfg e t d))
                = (sweep_all cfg (clock e) pre ++ (k, data) :: rest)%list
       end.
Proof.
  intros Hnd. unfold check_and_export_idle. cbv zeta.
  destruct (sweep_fold e (clock e) (sessions t) []
              {| sw_tracker := t; sw_disk := d; to_remove := []; export_calls := [];
                 sw_raised := None |})
    as (visited & rest & Ht & H2 & H3 & H4); [done|done|done|].
  exists visited, rest. split; [exact Ht|].
  destruct (sw_raised (fold_left _ _ _)) as [x|] eqn:Hx.
  - rewrite Hx. split; [exact H2|]. exact H4.
  - simpl. split; [exact H2|]. destruct H4 as [-> H4]. split; [done|].
    rewrite H3, H4. simpl. rewrite app_nil_r in Ht. by rewrite <- Ht.
Qed.

Lemma dict_get_sweep_all (now : Q) (sid : string) (l : list (string * session)) :
  dict_get sid (sweep_all cfg now l) = swept cfg now <$> dict_get sid l.
Proof.
  unfold sweep_all. induction l as [|[k v] l IH]; simpl; [done|].
  by destruct (String.eqb sid k).
Qed.

Lemma dict_get_del_ne {A : Type} (k k' : string) (d : list (string * A)) :
  k <> k' -> dict_get k' (dict_del k d) = dict_get k' d.
Proof.
  intros Hne. induction d as [|[k0 v0] d IH]; simpl; [done|].
  destruct (String.eqb k k0) eqn:E; simpl.
  - apply String.eqb_eq in E. subst k0.
    destruct (String.eqb k' k) eqn:E'; [apply String.eqb_eq in E'; congruence|done].
  - by rewrite IH.
Qed.

Lemma dict_get_del_eq {A : Type} (k : string) (d : list (string * A)) :
  NoDup d.*1 -> dict_get k (dict_del k d) = None.
Proof.
  induction d as [|[k0 v0] d IH]; simpl; [done|]. intros [Hk Hnd]%NoDup_cons.
  destruct (String.eqb k k0) eqn:E; simpl.
  - apply String.eqb_eq in E. subst k0. by apply dict_get_None.
  - rewrite E. by apply IH.
Qed.

Lemma dict_del_keys_sublist {A : Type} (k : string) (d : list (string * A)) :
  (dict_del k d).*1 `sublist_of` d.*1.
Proof.
  induction d as [|[k0 v0] d IH]; simpl; [done|].
  destruct (String.eqb k k0); simpl; [by apply sublist_cons|by apply sublist_skip].
Qed.

Lemma dict_del_NoDup {A : Type} (k : string) (d : list (string * A)) :
  NoDup d.*1 -> NoDup (dict_del k d).*1.
Proof. intros H. eapply sublist_NoDup; [exact H|apply dict_del_keys_sublist]. Qed.

Lemma dict_del_all_NoDup {A : Type} (ks : list string) (d : list (string * A)) :
  NoDup d.*1 -> NoDup (fold_left (fun s sid => dict_del sid s) ks d).*1.
Proof.
  revert d. induction ks as [|k ks IH]; intros d H; simpl; [done|].
  by apply IH, dict_del_NoDup.
Qed.

Lemma dict_get_del_all_notin {A : Type} (k : string) (ks : list string)
      (d : list (string * A)) :
  k ∉ ks -> dict_get k (fold_left (fun s sid => dict_del sid s) ks d) = dict_get k d.
Proof.
  revert d. induction ks as [|k0 ks IH]; intros d; simpl; [done|].
  rewrite not_elem_of_cons. intros [Hne Hnin].
  rewrite IH by done. by apply dict_get_del_ne.
Qed.

Lemma dict_set_NoDup {A : Type} (k : string) (v : A) (d : list (string * A)) :
  NoDup d.*1 -> NoDup (dict_set k v d).*1.
Proof.
  intros Hnd. destruct (dict_get k d) as [v0|] eqn:E.
  - rewrite dict_set_keys; [done|by exists v0].
  - assert (Hk : (dict_set k v d).*1 = (d.*1 ++ [k])%list).
    { clear Hnd. induction d as [|[k0 v0] d IH]; simpl in *; [done|].
      destruct (String.eqb k k0); [done|]. simpl. f_equal. by apply IH. }
    rewrite Hk. apply NoDup_app. split; [done|]. split; [|apply NoDup_singleton].
    intros x Hx Hx'. apply list_elem_of_singleton in Hx'. subst x.
    by apply dict_get_None in E.
Qed.

(** How often a tracked session occurs among the keys of the entries that
    satisfy [P]: once if its own entry does, never otherwise. *)
Lemma exports_of_filter (P : string * session -> bool) (sid : string) (data : session)
      (l : list (string * session)) :
  NoDup l.*1 -> dict_get sid l = Some data ->
  exports_of sid (List.filter P l).*1 = if P (sid, data) then 1%nat else 0%nat.
Proof.
  unfold exports_of. induction l as [|[k v] l IH]; simpl; [done|].
  intros [Hk Hnd]%NoDup_cons. destruct (String.eqb sid k) eqn:E.
  - apply String.eqb_eq in E. subst k. intros [= ->].
    assert (Hz : forall l', sid ∉ l'.*1 ->
               length (List.filter (String.eqb sid) (List.filter P l').*1) = 0%nat).
    { clear. induction l' as [|[k v] l' IH]; simpl; [done|].
      rewrite not_elem_of_cons. intros [Hne Hnin].
      destruct (P (k, v)); simpl; [|by apply IH].
      destruct (String.eqb sid k) eqn:E; [apply String.eqb_eq in E; done|by apply IH]. }
    destruct (P (sid, data)); simpl; [rewrite String.eqb_refl; simpl|]; by rewrite Hz.
  - intros Hget. destruct (P (k, v)); simpl; [rewrite E|]; by apply IH.
Qed.

Lemma dict_get_In_NoDup {A : Type} (k : string) (v : A) (d : list (string * A)) :
  NoDup d.*1 -> In (k, v) d -> dict_get k d = Some v.
Proof.
  induction d as [|[k0 v0] d IH]; simpl; [done|]. intros [Hk Hnd]%NoDup_cons [[= -> ->]|Hin].
  - by rewrite String.eqb_refl.
  - destruct (String.eqb k k0) eqn:E; [|by apply IH].
    apply String.eqb_eq in E. subst k0. exfalso. apply Hk.
    apply list_elem_of_fmap. exists (k, v). split; [done|]. by apply list_elem_of_In.
Qed.

Lemma dict_get_del_Some {A : Type} (k k0 : string) (v : A) (d : list (string * A)) :
  NoDup d.*1 -> dict_get k (dict_del k0 d) = Some v -> dict_get k d = Some v.
Proof.
  intros Hnd. destruct (String.eqb k0 k) eqn:E.
  - apply String.eqb_eq in E. subst k0. by rewrite dict_get_del_eq.
  - apply String.eqb_neq in E. by rewrite dict_get_del_ne.
Qed.

Lemma dict_get_del_all_Some {A : Type} (k : string) (ks : list string) (v : A)
      (d : list (string * A)) :
  NoDup d.*1 ->
  dict_get k (fold_left (fun s sid => dict_del sid s) ks d) = Some v -> dict_get k d = Some v.
Proof.
  revert d. induction ks as [|k0 ks IH]; intros d Hnd; simpl; [done|].
  intros H. apply IH in H; [|by apply dict_del_NoDup]. by eapply dict_get_del_Some.
Qed.

Lemma filter_keys_lookup (P : string * session -> bool) (k : string) (data : session)
      (l : list (string * session)) :
  NoDup l.*1 -> dict_get k l = Some data -> k ∈ (List.filter P l).*1 -> P (k, data) = true.
Proof.
  intros Hnd Hget Hin. apply list_elem_of_fmap in Hin as [[k' v] [Hk Hin]].
  simpl in Hk. subst k'. apply list_elem_of_In, filter_In in Hin as [Hin HP].
  apply (dict_get_In_NoDup _ _ _ Hnd) in Hin. congruence.
Qed.

Lemma dict_get_app {A : Type} (k : string) (d1 d2 : list (string * A)) :
  dict_get k (d1 ++ d2)
  = match dict_get k d1 with
    | Some v => Some v
    | None => dict_get k d2
    end.
Proof.
  induction d1 as [|[k' v'] d1 IH]; simpl; [done|]. by destruct (String.eqb k k').
Qed.

(** How often a tracked session is handed over when only a prefix of the
    table is visited: at most as often as when all of it is. *)
Lemma exports_of_prefix (P : string * session -> bool) (sid : string) (data : session)
      (visited rest : list (string * session)) :
  NoDup (visited ++ rest)%list.*1 -> dict_get sid (visited ++ rest)%list = Some data ->
  (exports_of sid (List.filter P visited).*1 <= if P (sid, data) then 1 else 0)%nat.
Proof.
  intros Hnd Hget. pose proof (exports_of_filter P sid data _ Hnd Hget) as H.
  rewrite List.filter_app, fmap_app in H. unfold exports_of in *.
  rewrite List.filter_app, length_app in H. lia.
Qed.

(** One sweep and one tracked session, however the sweep ends. *)
Lemma sweep_tracked_session (e : env) (t : tracker) (d : disk) (sid : string) (data : session) :
  NoDup (sessions t).*1 -> dict_get sid (sessions t) = Some data ->
  NoDup (sessions (sw_tracker (check_and_export_idle cfg e t d))).*1
  /\ (exports_of sid (export_calls (check_and_export_idle cfg e t d))
      <= if due cfg (clock e) data then 1 else 0)%nat
  /\ (forall data',
         dict_get sid (sessions (sw_tracker (check_and_export_idle cfg e t d))) = Some data' ->
         data' = swept cfg (clock e) data \/ data' = data).
Proof.
  intros Hnd Hget.
  destruct (check_and_export_idle_spec e t d Hnd) as (visited & rest & Ht & Hc & Hs).
  rewrite Hc. split; [|split].
  - destruct (sw_raised _) as [x|].
    + destruct Hs as (pre & k & dk & -> & _ & ->).
      rewrite Ht, <- app_assoc in Hnd. simpl in Hnd.
      rewrite fmap_app in *. by rewrite sweep_all_keys.
    + destruct Hs as [_ ->]. apply dict_del_all_NoDup. by rewrite sweep_all_keys.
  - rewrite Ht in Hnd, Hget.
    apply (exports_of_prefix (fun kv => due cfg (clock e) kv.2) sid data visited rest Hnd Hget).
  - intros data'. destruct (sw_raised _) as [x|].
    + destruct Hs as (pre & k & dk & -> & _ & ->).
      rewrite Ht, <- app_assoc, dict_get_app in Hget. simpl in Hget.
      rewrite dict_get_app, dict_get_sweep_all.
      destruct (dict_get sid pre) as [v|]; simpl.
      * injection Hget as ->. intros [= <-]. by left.
      * rewrite Hget. intros [= <-]. by right.
    + destruct Hs as [_ ->]. intros H. left.
      apply dict_get_del_all_Some in H; [|by rewrite sweep_all_keys].
      rewrite dict_get_sweep_all, Hget in H. simpl in H. congruence.
Qed.

(** One sweep that returns and one tracked session. *)
Lemma returning_sweep_tracked_session (e : env) (t : tracker) (d : disk) (sid : string)
      (data : session) :
  NoDup (sessions t).*1 -> dict_get sid (sessions t) = Some data ->
  sw_raised (check_and_export_idle cfg e t d) = None ->
  exports_of sid (export_calls (check_and_export_idle cfg e t d))
  = (if due cfg (clock e) data then 1%nat else 0%nat)
  /\ (forall data',
         dict_get sid (sessions (sw_tracker (check_and_export_idle cfg e t d))) = Some data' ->
         data' = swept cfg (clock e) data)
  /\ (exported data = false ->
      dict_get sid (sessions (sw_tracker (check_and_export_idle cfg e t d)))
      = Some (swept cfg (clock e) data)).
Proof.
  intros Hnd Hget Hr.
  destruct (check_and_export_idle_spec e t d Hnd) as (visited & rest & Ht & Hc & Hs).
  rewrite Hr in Hs. destruct Hs as [-> Hs]. rewrite app_nil_r in Ht. subst visited.
  rewrite Hc, Hs.
  assert (Hnd' : NoDup (sweep_all cfg (clock e) (sessions t)).*1) by by rewrite sweep_all_keys.
  assert (Hget' : dict_get sid (sweep_all cfg (clock e) (sessions t))
                  = Some (swept cfg (clock e) data)) by by rewrite dict_get_sweep_all, Hget.
  split; [by rewrite (exports_of_filter _ sid data)|].
  split.
  - intros data' H. apply dict_get_del_all_Some in H; [congruence|done].
  - intros Hex. rewrite dict_get_del_all_notin; [done|].
    intros Hin. apply (filter_keys_lookup _ _ data) in Hin; [|done|done].
    unfold stale in Hin. simpl in Hin. by rewrite Hex in Hin.
Qed.

Lemma evict_oldest_NoDup (t t' : tracker) :
  NoDup (sessions t).*1 -> _evict_oldest t = Ok t' -> NoDup (sessions t').*1.
Proof.
  intros Hnd [k ->]%evict_oldest_subset. by apply dict_del_NoDup.
Qed.

Lemma ensure_session_NoDup (sid src : string) (now : Q) (t t' : tracker) :
  NoDup (sessions t).*1 -> ensure_session cfg sid src now t = Ok t' -> NoDup (sessions t').*1.
Proof.
  intros Hnd. unfold ensure_session. destruct (dict_get sid (sessions t)); [by intros [= <-]|].
  destruct (_ >=? _).
  - destruct (_evict_oldest t) as [t0|] eqn:E; [|done]. simpl. intros [= <-]. simpl.
    apply dict_set_NoDup. by eapply evict_oldest_NoDup.
  - simpl. intros [= <-]. simpl. by apply dict_set_NoDup.
Qed.

Lemma upsert_session_NoDup (sid src text : string) (now : Q) (t : tracker) :
  NoDup (sessions t).*1 ->
  NoDup (sessions (_upsert_session md5 encodable cfg sid src text now t).1).*1.
Proof.
  intros Hnd. unfold _upsert_session, bind_in.
  destruct (ensure_session cfg sid src now t) as [t1|] eqn:E; [|done].
  apply ensure_session_NoDup in E; [|done].
  destruct (dict_get sid (sessions t1)); [|done].
  destruct (negb (encodable text)); [done|].
  destruct (String.eqb _ _); [done|]. simpl. by apply dict_set_NoDup.
Qed.

(** An upsert never clears the exported flag of a session that stays,
    however it ends. *)
Lemma upsert_session_keeps_flag (sid src text : string) (now : Q) (t : tracker)
      (k : string) (data data' : session) :
  NoDup (sessions t).*1 ->
  dict_get k (sessions t) = Some data ->
  dict_get k (sessions (_upsert_session md5 encodable cfg sid src text now t).1) = Some data' ->
  exported data' = exported data.
Proof.
  intros Hnd Hget. unfold _upsert_session, bind_in.
  destruct (ensure_session cfg sid src now t) as [t1|] eqn:E; [|simpl; congruence].
  assert (H1 : forall d1, dict_get k (sessions t1) = Some d1 -> exported d1 = exported data).
  { revert E. unfold ensure_session.
    destruct (dict_get sid (sessions t)) eqn:Hsid; [intros [= <-] d1; congruence|].
    assert (Hne : sid <> k) by congruence.
    destruct (_ >=? _).
    - destruct (_evict_oldest t) as [t0|] eqn:Ev; [|done]. simpl. intros [= <-] d1. simpl.
      rewrite dict_get_set_ne by done.
      destruct (evict_oldest_subset _ _ Ev) as [k0 ->].
      intros H. apply dict_get_del_Some in H; [congruence|done].
    - simpl. intros [= <-] d1. simpl. rewrite dict_get_set_ne by done. congruence. }
  destruct (dict_get sid (sessions t1)) as [sess|] eqn:Hs; [|by apply H1].
  destruct (negb (encodable text)); [by apply H1|].
  destruct (String.eqb _ _); [by apply H1|]. simpl. intros Hget'.
  destruct (String.eqb sid k) eqn:Ek.
  - apply String.eqb_eq in Ek. subst k. rewrite dict_get_set_eq in Hget'.
    injection Hget' as <-. simpl. by apply H1.
  - apply String.eqb_neq in Ek. rewrite dict_get_set_ne in Hget' by done. by apply H1.
Qed.

Lemma exports_of_app (sid : string) (a b : list string) :
  exports_of sid (a ++ b) = (exports_of sid a + exports_of sid b)%nat.
Proof. unfold exports_of. by rewrite List.filter_app, length_app. Qed.

Lemma due_needs_unexported (now : Q) (data : session) :
  exported data = true -> due cfg now data = false /\ swept cfg now data = data.
Proof. intros H. unfold due, swept, expires. by rewrite H. Qed.

(** Once flagged, a session is not handed to [_export] again for as long
    as it is tracked, whatever the upserts and the sweeps raise. *)
Lemma flagged_session_is_left_alone (sid : string) (ops : list op) :
  forall (t : tracker) (d : disk) (data : session),
    NoDup (sessions t).*1 -> dict_get sid (sessions t) = Some data ->
    exported data = true -> tracked_throughout md5 encodable cfg sid ops (t, d) ->
    exports_of sid (run md5 encodable cfg ops (t, d)) = 0%nat.
Proof.
  induction ops as [|o rest IH]; intros t d data Hnd Hget Hex Htr; [done|].
  cbn [tracked_throughout] in Htr. destruct Htr as [_ Htr]. cbn [run].
  destruct o as [sid' src text now|e]; cbn [apply_op fst snd] in *.
  - cbn [app].
    assert (Htr' := Htr).
    destruct rest; cbn [tracked_throughout fst snd] in Htr'; destruct Htr' as [[data' Hget'] _];
      (eapply IH; [by apply upsert_session_NoDup|exact Hget'| |exact Htr]);
      by rewrite (upsert_session_keeps_flag _ _ _ _ _ _ _ _ Hnd Hget Hget').
  - destruct (sweep_tracked_session e t d sid data Hnd Hget) as (Hnd' & Hc & Hkeep).
    destruct (due_needs_unexported (clock e) data Hex) as [Hdue Hsw].
    rewrite Hdue in Hc. rewrite Hsw in Hkeep.
    rewrite exports_of_app.
    assert (Htr' := Htr).
    destruct rest; cbn [tracked_throughout fst snd] in Htr'; destruct Htr' as [[data' Hget'] _];
      (rewrite (IH _ _ data' Hnd' Hget'); [lia| |exact Htr]);
      by destruct (Hkeep _ Hget') as [-> | ->].
Qed.

(** Along a history none of whose sweeps is left by an exception, a
    session is handed to [_export] at most once for as long as it is
    tracked. *)
Lemma tracked_session_exported_at_most_once (sid : string) (ops : list op) :
  forall (t : tracker) (d : disk),
    NoDup (sessions t).*1 -> tracked_throughout md5 encodable cfg sid ops (t, d) ->
    sweeps_return md5 encodable cfg ops (t, d) ->
    (exports_of sid (run md5 encodable cfg ops (t, d)) <= 1)%nat.
Proof.
  induction ops as [|o rest IH]; intros t d Hnd Htr Hret;
    [simpl; unfold exports_of; simpl; lia|].
  assert (Hall := Htr). cbn [tracked_throughout] in Htr. destruct Htr as [[data Hget] Htr].
  destruct (exported data) eqn:Hex.
  { rewrite (flagged_session_is_left_alone sid (o :: rest) t d data); [lia|done..]. }
  cbn [sweeps_return] in Hret. destruct Hret as [Hr Hret].
  cbn [run]. destruct o as [sid' src text now|e]; cbn [apply_op fst snd] in *.
  - cbn [app]. apply IH; [by apply upsert_session_NoDup|done|done].
  - destruct (sweep_tracked_session e t d sid data Hnd Hget) as (Hnd' & _ & _).
    destruct (returning_sweep_tracked_session e t d sid data Hnd Hget Hr) as (Hc & _ & Hkeep).
    specialize (Hkeep Hex).
    rewrite exports_of_app, Hc.
    destruct (expires cfg (clock e) data) eqn:Hexp.
    + rewrite (flagged_session_is_left_alone sid rest _ _ (mark_exported data)); try done.
      * destruct (due cfg (clock e) data); lia.
      * unfold swept in Hkeep. by rewrite Hexp in Hkeep.
    + unfold due. rewrite Hexp. simpl. by apply IH.
Qed.

(** When [_export] raises for the first session of the table, the sweep
    ends there: the session was handed over and is not flagged, no later
    session is looked at, and nothing is removed. *)
Lemma sweep_stops_at_raising_export (e : env) (t : tracker) (d : disk) (sid : string)
      (data : session) (rest : list (string * session)) (x : exn) :
  sessions t = (sid, data) :: rest -> due cfg (clock e) data = true ->
  (_export cfg e sid data EmptyString t d).2 = Raise x ->
  sw_raised (check_and_export_idle cfg e t d) = Some x
  /\ export_calls (check_and_export_idle cfg e t d) = [sid]
  /\ sessions (sw_tracker (check_and_export_idle cfg e t d)) = sessions t.
Proof.
  intros Hs Hdue Hx.
  set (st0 := {| sw_tracker := t; sw_disk := d; to_remove := []; export_calls := [];
                 sw_raised := None |}).
  assert (E : sweep_step cfg e (clock e) st0 sid
              = {| sw_tracker := (_export cfg e sid data EmptyString t d).1.1;
                   sw_disk := (_export cfg e sid data EmptyString t d).1.2;
                   to_remove := []; export_calls := [sid]; sw_raised := Some x |}).
  { unfold sweep_step, st0. cbn [sw_raised sw_tracker sw_disk to_remove export_calls].
    rewrite Hs. simpl. rewrite String.eqb_refl.
    revert Hdue. unfold due, expires, threshold.
    destruct (exported data); [done|]. destruct (Qle_bool _ _); [done|]. simpl.
    intros ->. revert Hx.
    by destruct (_export cfg e sid data EmptyString t d) as [[t1 d1] [b|y]]; simpl; intros [= ->]. }
  assert (F : fold_left (sweep_step cfg e (clock e)) (sessions t).*1 st0
              = {| sw_tracker := (_export cfg e sid data EmptyString t d).1.1;
                   sw_disk := (_export cfg e sid data EmptyString t d).1.2;
                   to_remove := []; export_calls := [sid]; sw_raised := Some x |}).
  { rewrite Hs at 1. rewrite fmap_cons. cbn [fold_left fst]. rewrite E.
    by apply sweep_raised_stays with (x := x). }
  unfold check_and_export_idle. cbv zeta. fold st0. rewrite !F. simpl.
  split; [done|]. split; [done|]. by rewrite export_sessions.
Qed.

End Sweep.

(** While no sweep is left by an exception, the idle sweep hands a tracked
    session to the exporter at most once.  A sweep that finds a session not
    yet exported leaves it alone while it has been idle for at most
    IDLE_TIMEOUT_SEC; the first sweep that finds it idle for longer, if it
    returns, hands it to the exporter once if its message count meets the
    threshold (4 for a shell source, 2 otherwise) and not at all if it does
    not, and sets its exported flag in either case; once the flag is set no
    sweep hands the session to the exporter again. *)
Lemma returning_sweeps_export_once (md5 : string -> string) (encodable : string -> bool)
      (cfg : Config) (sid : string) :
  (forall ops t d,
      NoDup (sessions t).*1 -> tracked_throughout md5 encodable cfg sid ops (t, d) ->
      sweeps_return md5 encodable cfg ops (t, d) ->
      (exports_of sid (run md5 encodable cfg ops (t, d)) <= 1)%nat)
  /\ (forall e t d data,
         NoDup (sessions t).*1 -> dict_get sid (sessions t) = Some data ->
         exported data = false ->
         sw_raised (check_and_export_idle cfg e t d) = None ->
         if Qle_bool (clock e - last_seen data) (inject_Z (IDLE_TIMEOUT_SEC cfg))
         then exports_of sid (export_calls (check_and_export_idle cfg e t d)) = 0%nat
              /\ dict_get sid (sessions (sw_tracker (check_and_export_idle cfg e t d)))
                 = Some data
         else exports_of sid (export_calls (check_and_export_idle cfg e t d))
              = (if Z.of_nat (length (messages data)) >=? threshold data then 1%nat else 0%nat)
              /\ dict_get sid (sessions (sw_tracker (check_and_export_idle cfg e t d)))
                 = Some (mark_exported data))
  /\ (forall ops t d data,
         NoDup (sessions t).*1 -> dict_get sid (sessions t) = Some data ->
         exported data = true -> tracked_throughout md5 encodable cfg sid ops (t, d) ->
         exports_of sid (run md5 encodable cfg ops (t, d)) = 0%nat).
Proof.
  split; [|split].
  - intros. by apply tracked_session_exported_at_most_once.
  - intros e t d data Hnd Hget Hex Hr.
    destruct (returning_sweep_tracked_session cfg e t d sid data Hnd Hget Hr) as (Hc & _ & Hkeep).
    specialize (Hkeep Hex). rewrite Hc, Hkeep.
    unfold due, swept, expires. rewrite Hex. simpl.
    by destruct (Qle_bool _ _).
  - intros. by eapply flagged_session_is_left_alone.
Qed.

(** A history whose sweeps return: [s1] is handed to the exporter by the
    first of the two late sweeps and by no other. *)
Lemma one_session_history_exports :
  run toy_md5 any_text (default_config "/home/u") one_session_history
      (set_sessions [("s1", nearly_idle_session)] fresh_tracker, empty_disk)
  = ["s1"]
  /\ sweeps_return toy_md5 any_text (default_config "/home/u") one_session_history
       (set_sessions [("s1", nearly_idle_session)] fresh_tracker, empty_disk).
Proof. vm_compute. repeat split. Qed.

(** C3 fails on the code: [_export] is called unguarded, so when it raises
    the sweep is left before the session is flagged.  With a session id
    that holds a NUL character the local write raises ValueError at every
    sweep: the session is handed over twice by two sweeps and is still not
    flagged, the idle session behind it in the table is never looked at,
    and no artifact is written. *)
Theorem raising_export_is_repeated :
  tracked_throughout toy_md5 any_text (default_config "/home/u") nul_sid
    [Sweep nul_refusing_env; Sweep nul_refusing_env] (two_idle_sessions, empty_disk)
  /\ run toy_md5 any_text (default_config "/home/u")
         [Sweep nul_refusing_env; Sweep nul_refusing_env] (two_idle_sessions, empty_disk)
     = [nul_sid; nul_sid]
  /\ exports_of nul_sid
       (run toy_md5 any_text (default_config "/home/u")
            [Sweep nul_refusing_env; Sweep nul_refusing_env] (two_idle_sessions, empty_disk))
     = 2%nat
  /\ sw_raised (check_and_export_idle (default_config "/home/u") nul_refusing_env
                  two_idle_sessions empty_disk) = Some ValueError
  /\ sessions (sw_tracker (check_and_export_idle (default_config "/home/u") nul_refusing_env
                             two_idle_sessions empty_disk))
     = sessions two_idle_sessions
  /\ history (sw_disk (check_and_export_idle (default_config "/home/u") nul_refusing_env
                         two_idle_sessions empty_disk)) = [].
Proof. vm_compute. repeat split; eexists; reflexivity. Qed.

(** The same on a machine whose history directory cannot be made (a full
    or read-only disk): [mkdir] is outside every [try], the sweep is left
    by an OSError and the session is not flagged. *)
Lemma failing_mkdir_is_repeated :
  run toy_md5 any_text (default_config "/home/u")
      [Sweep no_mkdir_env; Sweep no_mkdir_env]
      (set_sessions [("s1", nearly_idle_session)] fresh_tracker, empty_disk)
  = ["s1"; "s1"]
  /\ sw_raised (check_and_export_idle (default_config "/home/u") no_mkdir_env
                  (set_sessions [("s1", nearly_idle_session)] fresh_tracker) empty_disk)
     = Some OSError
  /\ sessions (sw_tracker (check_and_export_idle (default_config "/home/u") no_mkdir_env
                             (set_sessions [("s1", nearly_idle_session)] fresh_tracker)
                             empty_disk))
     = [("s1", nearly_idle_session)].
Proof. vm_compute. repeat split. Qed.

(** * Further properties of the daemon *)

Import Loop MoreExamples.

(** ** Session table *)

(** X1: upserting the same text under the same session id twice in a row
    adds it at most once; the second call, whatever source and time it is
    given, returns the tracker as the first one left it. *)
Theorem upsert_same_text_twice (md5 : string -> string) (encodable : string -> bool)
        (cfg : Config) (sid src src' text : string) (now now' : Q) (t t' : tracker) :
  _upsert_session md5 encodable cfg sid src text now t = (t', None) ->
  _upsert_session md5 encodable cfg sid src' text now' t' = (t', None).
Proof. apply upsert_twice. Qed.

Lemma upsert_same_text_twice_witness :
  exists t',
    _upsert_session toy_md5 any_text (default_config "/home/u") "s1" "claude_code" "ls" 1700000000
                    fresh_tracker = (t', None)
    /\ _upsert_session toy_md5 any_text (default_config "/home/u") "s1" "shell_zsh" "ls" 1700000050 t'
       = (t', None).
Proof.
  eexists. split; [reflexivity|].
  apply (upsert_same_text_twice toy_md5 any_text (default_config "/home/u") "s1" "claude_code"
           "shell_zsh" "ls" 1700000000 1700000050 fresh_tracker).
  reflexivity.
Defined.

(** ** Idle sweep *)

Lemma dict_get_del_all_None {A : Type} (k : string) (ks : list string)
      (d : list (string * A)) :
  NoDup d.*1 -> dict_get k d = None ->
  dict_get k (fold_left (fun s sid => dict_del sid s) ks d) = None.
Proof.
  intros Hnd Hn.
  destruct (dict_get k (fold_left _ ks d)) as [v|] eqn:E; [|done].
  apply dict_get_del_all_Some in E; [congruence|done].
Qed.

Lemma dict_get_del_all_In {A : Type} (k : string) (ks : list string)
      (d : list (string * A)) :
  NoDup d.*1 -> k ∈ ks ->
  dict_get k (fold_left (fun s sid => dict_del sid s) ks d) = None.
Proof.
  revert d. induction ks as [|k0 ks IH]; intros d Hnd Hin; [by apply elem_of_nil in Hin|].
  simpl. apply elem_of_cons in Hin as [->|Hin].
  - apply dict_get_del_all_None; [by apply dict_del_NoDup|by apply dict_get_del_eq].
  - apply IH; [by apply dict_del_NoDup|done].
Qed.

(** X2: an idle sweep that returns removes a tracked session if and only
    if the session was already exported when the sweep began and has been
    unseen for more than SESSION_TTL_SEC; a session the sweep itself flags
    stays in the table.  A sweep that is left by an exception of the
    exporter removes no session at all. *)
Theorem sweep_removes_exactly_the_stale
        (cfg : Config) (e : env) (t : tracker) (d : disk) (sid : string) (data : session) :
  NoDup (sessions t).*1 -> dict_get sid (sessions t) = Some data ->
  (sw_raised (check_and_export_idle cfg e t d) = None ->
   (dict_get sid (sessions (sw_tracker (check_and_export_idle cfg e t d))) = None
    <-> exported data = true
        /\ (inject_Z (SESSION_TTL_SEC cfg) < clock e - last_seen data)%Q))
  /\ (sw_raised (check_and_export_idle cfg e t d) <> None ->
      dict_get sid (sessions (sw_tracker (check_and_export_idle cfg e t d))) <> None).
Proof.
  intros Hnd Hget.
  destruct (check_and_export_idle_spec cfg e t d Hnd) as (visited & rest & Ht & _ & Hs).
  split.
  - intros Hr. rewrite Hr in Hs. destruct Hs as [_ Hs]. rewrite Hs. clear Hs.
    assert (Hnd' : NoDup (sweep_all cfg (clock e) (sessions t)).*1) by by rewrite sweep_all_keys.
    assert (Hget' : dict_get sid (sweep_all cfg (clock e) (sessions t))
                    = Some (swept cfg (clock e) data)) by by rewrite dict_get_sweep_all, Hget.
    assert (Hst : stale cfg (clock e) data = true
                  <-> exported data = true
                      /\ (inject_Z (SESSION_TTL_SEC cfg) < clock e - last_seen data)%Q).
    { unfold stale. rewrite andb_true_iff. split.
      - intros [H1 H2]. split; [done|]. by apply ltb_Q_true.
      - intros [H1 H2]. split; [done|]. unfold ltb_Q. apply negb_true_iff.
        destruct (Qle_bool _ _) eqn:E; [|done].
        apply Qle_bool_iff in E. exfalso. by apply (Qlt_not_le _ _ H2). }
    rewrite <- Hst. split.
    + intros Hnone. destruct (stale cfg (clock e) data) eqn:E; [done|].
      rewrite dict_get_del_all_notin in Hnone; [congruence|].
      intros Hin. apply (filter_keys_lookup _ _ data) in Hin; [|done|done].
      simpl in Hin. congruence.
    + intros Hstale. apply dict_get_del_all_In; [done|].
      apply list_elem_of_fmap. exists (sid, data). split; [done|].
      apply list_elem_of_In, filter_In. split; [by apply dict_get_In|done].
  - intros Hr. destruct (sw_raised _) as [x|]; [|done].
    destruct Hs as (pre & k & dk & -> & _ & ->).
    rewrite Ht, <- app_assoc, dict_get_app in Hget. simpl in Hget.
    rewrite dict_get_app, dict_get_sweep_all.
    destruct (dict_get sid pre) as [v|]; simpl; [done|]. by rewrite Hget.
Qed.

Lemma sweep_removes_exactly_the_stale_witness :
  dict_get "old" (sessions (sw_tracker (check_and_export_idle (default_config "/home/u") later_env
                                          (set_sessions three_sessions fresh_tracker)
                                          empty_disk)))
  = None.
Proof.
  apply (sweep_removes_exactly_the_stale (default_config "/home/u") later_env
           (set_sessions three_sessions fresh_tracker) empty_disk "old" old_exported_session).
  - apply (bool_decide_unpack _). vm_compute. reflexivity.
  - reflexivity.
  - vm_compute. reflexivity.
  - split; [reflexivity|]. vm_compute. reflexivity.
Defined.

(** X3: one idle sweep hands sessions to the exporter in the order of the
    session table, each at most once, and only sessions that, when it
    begins, are not exported, have been idle for more than IDLE_TIMEOUT_SEC
    and hold at least their threshold of messages (4 for a shell source, 2
    otherwise).  A sweep that returns hands over all of them; a sweep left
    by an exception of the exporter hands over those up to the one on which
    the exporter raised, and none of the later ones. *)
Theorem sweep_exports_the_due_in_table_order
        (cfg : Config) (e : env) (t : tracker) (d : disk) :
  NoDup (sessions t).*1 ->
  exists later : list string,
    (List.filter
       (fun kv => negb (exported kv.2)
                  && negb (Qle_bool (clock e - last_seen kv.2) (inject_Z (IDLE_TIMEOUT_SEC cfg)))
                  && (Z.of_nat (length (messages kv.2))
                      >=? (if startswith "shell_" (source kv.2) then 4 else 2)))
       (sessions t)).*1
    = (export_calls (check_and_export_idle cfg e t d) ++ later)%list
    /\ (sw_raised (check_and_export_idle cfg e t d) = None -> later = [])
    /\ (sw_raised (check_and_export_idle cfg e t d) <> None ->
        export_calls (check_and_export_idle cfg e t d) <> []).
Proof.
  intros Hnd.
  destruct (check_and_export_idle_spec cfg e t d Hnd) as (visited & rest & Ht & Hc & Hs).
  exists (List.filter (fun kv => due cfg (clock e) kv.2) rest).*1.
  split; [|split].
  - rewrite Hc, Ht, List.filter_app, fmap_app. reflexivity.
  - intros Hr. rewrite Hr in Hs. by destruct Hs as [-> _].
  - intros Hr. destruct (sw_raised _) as [x|]; [|done].
    destruct Hs as (pre & k & dk & -> & Hdue & _).
    rewrite Hc, List.filter_app, fmap_app. simpl. rewrite Hdue. simpl.
    intros H. by apply app_eq_nil in H as [_ H].
Qed.

Lemma sweep_exports_the_due_in_table_order_witness :
  export_calls (check_and_export_idle (default_config "/home/u") later_env
                  (set_sessions three_sessions fresh_tracker) empty_disk) = ["s1"].
Proof.
  destruct (sweep_exports_the_due_in_table_order (default_config "/home/u") later_env
              (set_sessions three_sessions fresh_tracker) empty_disk)
    as (later & H & Hn & _).
  - apply (bool_decide_unpack _). vm_compute. reflexivity.
  - rewrite Hn in H by (vm_compute; reflexivity). rewrite app_nil_r in H.
    rewrite <- H. vm_compute. reflexivity.
Defined.

(** X4: the sweep changes nothing of a session it keeps but the exported
    flag: messages, hash, source and times are as before; the flag is never
    cleared, it is set only for sessions found idle beyond
    IDLE_TIMEOUT_SEC, and a sweep that returns sets it for every such
    session. *)
Theorem sweep_touches_only_the_flag
        (cfg : Config) (e : env) (t : tracker) (d : disk)
        (sid : string) (data data' : session) :
  NoDup (sessions t).*1 -> dict_get sid (sessions t) = Some data ->
  dict_get sid (sessions (sw_tracker (check_and_export_idle cfg e t d))) = Some data' ->
  messages data' = messages data /\ last_hash data' = last_hash data
  /\ last_seen data' = last_seen data /\ source data' = source data
  /\ created data' = created data
  /\ (exported data = true -> exported data' = true)
  /\ (exported data' = true ->
      exported data
      || negb (Qle_bool (clock e - last_seen data) (inject_Z (IDLE_TIMEOUT_SEC cfg))) = true)
  /\ (sw_raised (check_and_export_idle cfg e t d) = None ->
      exported data'
      = exported data
        || negb (Qle_bool (clock e - last_seen data) (inject_Z (IDLE_TIMEOUT_SEC cfg)))).
Proof.
  intros Hnd Hget Hget'.
  assert (Hsw : messages (swept cfg (clock e) data) = messages data
                /\ last_hash (swept cfg (clock e) data) = last_hash data
                /\ last_seen (swept cfg (clock e) data) = last_seen data
                /\ source (swept cfg (clock e) data) = source data
                /\ created (swept cfg (clock e) data) = created data
                /\ exported (swept cfg (clock e) data)
                   = exported data
                     || negb (Qle_bool (clock e - last_seen data)
                                       (inject_Z (IDLE_TIMEOUT_SEC cfg)))).
  { unfold swept, expires. destruct (exported data) eqn:Hex; simpl; [done|].
    destruct (Qle_bool _ _); simpl; by rewrite ?Hex. }
  destruct Hsw as (H1 & H2 & H3 & H4 & H5 & H6).
  destruct (sweep_tracked_session cfg e t d sid data Hnd Hget) as (_ & _ & Hkeep).
  assert (Hret : sw_raised (check_and_export_idle cfg e t d) = None ->
                 data' = swept cfg (clock e) data).
  { intros Hr.
    destruct (returning_sweep_tracked_session cfg e t d sid data Hnd Hget Hr) as (_ & Hk & _).
    by apply Hk. }
  destruct (Hkeep _ Hget') as [-> | ->].
  - rewrite H1, H2, H3, H4, H5, H6. repeat split; try done.
    intros ->. done.
  - repeat split; try done.
    + intros ->. done.
    + intros Hr. rewrite (Hret Hr) at 1. exact H6.
Qed.

Lemma sweep_touches_only_the_flag_witness :
  messages nearly_idle_session = ["ls"; "pwd"]
  /\ exists data',
       dict_get "s1" (sessions (sw_tracker (check_and_export_idle (default_config "/home/u")
                                              later_env
                                              (set_sessions three_sessions fresh_tracker)
                                              empty_disk)))
       = Some data'
       /\ messages data' = messages nearly_idle_session.
Proof.
  split; [reflexivity|]. eexists. split; [vm_compute; reflexivity|].
  eapply (sweep_touches_only_the_flag (default_config "/home/u") later_env
            (set_sessions three_sessions fresh_tracker) empty_disk "s1" nearly_idle_session).
  - apply (bool_decide_unpack _). vm_compute. reflexivity.
  - reflexivity.
  - vm_compute. reflexivity.
Defined.

Lemma min_by_last_seen_spec (items : list (string * session)) :
  forall best,
    In (min_by_last_seen best items) (best :: items)
    /\ forall x, In x (best :: items) ->
                 (last_seen (min_by_last_seen best items).2 <= last_seen x.2)%Q.
Proof.
  induction items as [|y items IH]; intros best; simpl.
  - split; [by left|]. intros x [<-|[]]. apply Qle_refl.
  - destruct (ltb_Q (last_seen y.2) (last_seen best.2)) eqn:E.
    + destruct (IH y) as [Hin Hle]. split.
      * right. exact Hin.
      * intros x [<-|Hx]; [|by apply Hle].
        apply Qle_trans with (last_seen y.2); [apply Hle; by left|].
        apply Qlt_le_weak. by apply ltb_Q_true.
    + destruct (IH best) as [Hin Hle]. split.
      * destruct Hin as [Hin|Hin]; [by left|right; by right].
      * intros x [<-|[<-|Hx]].
        -- apply Hle. by left.
        -- apply Qle_trans with (last_seen best.2); [apply Hle; by left|].
           by apply ltb_Q_false.
        -- apply Hle. by right.
Qed.

Lemma dict_del_length {A : Type} (k : string) (v : A) (d : list (string * A)) :
  In (k, v) d -> S (length (dict_del k d)) = length d.
Proof.
  induction d as [|[k' v'] d IH]; simpl; [done|].
  intros Hin. destruct (String.eqb k k') eqn:E; [done|].
  simpl. f_equal. apply IH. destruct Hin as [Hin|Hin]; [|done].
  injection Hin as -> ->. by rewrite String.eqb_refl in E.
Qed.

Lemma dict_set_length {A : Type} (k : string) (v : A) (d : list (string * A)) :
  length (dict_set k v d) = match dict_get k d with
                            | Some _ => length d
                            | None => S (length d)
                            end.
Proof.
  induction d as [|[k' v'] d IH]; simpl; [done|].
  destruct (String.eqb k k'); simpl; [done|]. rewrite IH. by destruct (dict_get k d).
Qed.

Lemma evict_oldest_removes_one (t : tracker) :
  match _evict_oldest t with
  | Raise _ => sessions t = []
  | Ok t' => exists k s, In (k, s) (sessions t) /\ sessions t' = dict_del k (sessions t)
  end.
Proof.
  unfold _evict_oldest.
  destruct (List.filter (fun kv => exported kv.2) (sessions t)) as [|x rest] eqn:Ef.
  - destruct (sessions t) as [|x rest] eqn:Es; [done|].
    destruct (min_by_last_seen_spec rest x) as [Hin _].
    destruct (min_by_last_seen x rest) as [k s] eqn:Em.
    exists k, s. simpl. by split.
  - destruct (min_by_last_seen_spec rest x) as [Hin _].
    destruct (min_by_last_seen x rest) as [k s] eqn:Em.
    rewrite <- Ef in Hin. apply filter_In in Hin as [Hin _].
    exists k, s. simpl. by split.
Qed.

(** X5: the session evicted to make room is the one seen least recently
    among the exported sessions, if there is an exported one, and among all
    sessions otherwise; only on an empty table does the eviction raise
    (ValueError, the minimum of an empty sequence). *)
Theorem evict_oldest_choice (t : tracker) :
  match _evict_oldest t with
  | Raise x => x = ValueError /\ sessions t = []
  | Ok t' =>
      exists k s,
        In (k, s) (sessions t) /\ sessions t' = dict_del k (sessions t)
        /\ (forall k' s', In (k', s') (sessions t) -> exported s' = true ->
              exported s = true /\ (last_seen s <= last_seen s')%Q)
        /\ (forall k' s', In (k', s') (sessions t) -> exported s = false ->
              (last_seen s <= last_seen s')%Q)
  end.
Proof.
  unfold _evict_oldest.
  destruct (List.filter (fun kv => exported kv.2) (sessions t)) as [|x rest] eqn:Ef.
  - destruct (sessions t) as [|x rest] eqn:Es; [done|].
    destruct (min_by_last_seen_spec rest x) as [Hin Hle].
    destruct (min_by_last_seen x rest) as [k s] eqn:Em.
    exists k, s. simpl. split; [done|]. split; [done|]. split.
    + intros k' s' Hin' Hex. exfalso.
      assert (H : In (k', s') (List.filter (fun kv => exported kv.2) (x :: rest)))
        by (apply filter_In; by split).
      by rewrite Ef in H.
    + intros k' s' Hin' _. by apply (Hle (k', s')).
  - destruct (min_by_last_seen_spec rest x) as [Hin Hle].
    destruct (min_by_last_seen x rest) as [k s] eqn:Em.
    rewrite <- Ef in Hin, Hle.
    apply filter_In in Hin as [Hin Hex]. simpl in Hex.
    exists k, s. simpl. split; [done|]. split; [done|]. split.
    + intros k' s' Hin' Hex'. split; [done|].
      apply (Hle (k', s')). apply filter_In. by split.
    + intros k' s' _ Hne. congruence.
Qed.

Lemma evict_oldest_length (t t' : tracker) :
  _evict_oldest t = Ok t' -> S (length (sessions t')) = length (sessions t).
Proof.
  intros H. pose proof (evict_oldest_removes_one t) as Hc. rewrite H in Hc.
  destruct Hc as (k & s & Hin & ->). by apply (dict_del_length k s).
Qed.

Section Room.

Variable md5 : string -> string.
Variable encodable : string -> bool.
Variable cfg : Config.

Lemma ensure_session_room (sid src : string) (now : Q) (t : tracker) :
  1 <= MAX_TRACKED_SESSIONS cfg ->
  exists t', ensure_session cfg sid src now t = Ok t'
             /\ is_Some (dict_get sid (sessions t'))
             /\ (Z.of_nat (length (sessions t)) <= MAX_TRACKED_SESSIONS cfg ->
                 Z.of_nat (length (sessions t')) <= MAX_TRACKED_SESSIONS cfg).
Proof.
  intros Hmax. unfold ensure_session.
  destruct (dict_get sid (sessions t)) as [s|] eqn:Eg.
  - exists t. rewrite Eg. by eauto.
  - destruct (Z.of_nat (length (sessions t)) >=? MAX_TRACKED_SESSIONS cfg) eqn:Ec.
    + pose proof (evict_oldest_removes_one t) as Hc.
      destruct (_evict_oldest t) as [t1|x] eqn:Ee.
      * simpl. eexists. split; [done|]. simpl. rewrite dict_get_set_eq. split; [by eauto|].
        intros Hle. rewrite dict_set_length.
        pose proof (evict_oldest_length _ _ Ee) as Hlen.
        rewrite Z.geb_leb in Ec. apply Z.leb_le in Ec.
        destruct (dict_get sid (sessions t1)); lia.
      * rewrite Hc in Ec. simpl in Ec.
        rewrite Z.geb_leb in Ec. apply Z.leb_le in Ec. lia.
    + simpl. eexists. split; [done|]. simpl. rewrite dict_get_set_eq. split; [by eauto|].
      intros _. rewrite dict_set_length, Eg.
      rewrite Z.geb_leb in Ec. apply Z.leb_gt in Ec. lia.
Qed.

Lemma upsert_session_room (sid src text : string) (now : Q) (t : tracker) :
  1 <= MAX_TRACKED_SESSIONS cfg ->
  (_upsert_session md5 encodable cfg sid src text now t).2
  = (if encodable text then None else Some UnicodeEncodeError)
  /\ is_Some (dict_get sid (sessions (_upsert_session md5 encodable cfg sid src text now t).1))
  /\ (Z.of_nat (length (sessions t)) <= MAX_TRACKED_SESSIONS cfg ->
      Z.of_nat (length (sessions (_upsert_session md5 encodable cfg sid src text now t).1))
      <= MAX_TRACKED_SESSIONS cfg).
Proof.
  intros Hmax. unfold _upsert_session, bind_in.
  destruct (ensure_session_room sid src now t Hmax) as (t1 & -> & [s Hs] & Hlen).
  rewrite Hs. destruct (encodable text); simpl.
  - destruct (String.eqb (md5 text) (last_hash s)); simpl.
    + rewrite Hs. by eauto.
    + split; [done|]. rewrite dict_get_set_eq. split; [by eauto|].
      intros Hle. rewrite dict_set_length, Hs. by apply Hlen.
  - rewrite Hs. by eauto.
Qed.

Lemma append_message_length (text : string) (msgs : list string) :
  Z.of_nat (length msgs) <= Z.max (MAX_MESSAGES_PER_SESSION cfg) 200 ->
  Z.of_nat (length (append_message cfg text msgs))
  <= Z.max (MAX_MESSAGES_PER_SESSION cfg) 200.
Proof.
  intros Hle. unfold append_message.
  destruct (Z.of_nat (length (msgs ++ [text])%list) >? MAX_MESSAGES_PER_SESSION cfg) eqn:E.
  - unfold last_n. rewrite length_skipn. lia.
  - rewrite Z.gtb_ltb in E. apply Z.ltb_ge in E. lia.
Qed.

Lemma ensure_session_entries (sid src : string) (now : Q) (t t' : tracker)
      (k : string) (s : session) :
  ensure_session cfg sid src now t = Ok t' -> In (k, s) (sessions t') ->
  In (k, s) (sessions t) \/ s = new_session src now.
Proof.
  unfold ensure_session. destruct (dict_get sid (sessions t)).
  - intros [= <-]. by left.
  - destruct (Z.of_nat (length (sessions t)) >=? MAX_TRACKED_SESSIONS cfg).
    + destruct (_evict_oldest t) as [t1|x] eqn:Ee; simpl; [|done].
      intros [= <-] Hin. simpl in Hin. apply In_dict_set in Hin as [[= -> ->]|Hin]; [by right|].
      left. destruct (evict_oldest_subset _ _ Ee) as [k0 Hk0]. rewrite Hk0 in Hin.
      by apply In_dict_del in Hin.
    + simpl. intros [= <-] Hin. simpl in Hin.
      apply In_dict_set in Hin as [[= -> ->]|Hin]; [by right|by left].
Qed.

End Room.

(** X6: with MAX_TRACKED_SESSIONS at least 1, an upsert raises only when
    the text cannot be encoded for the digest (UnicodeEncodeError);
    whether it raises or not, the session is tracked afterwards, and a
    table within the cap stays within the cap. *)
Theorem upsert_keeps_table_within_cap (md5 : string -> string) (encodable : string -> bool)
        (cfg : Config) (sid src text : string) (now : Q) (t : tracker) :
  1 <= MAX_TRACKED_SESSIONS cfg ->
  (_upsert_session md5 encodable cfg sid src text now t).2
  = (if encodable text then None else Some UnicodeEncodeError)
  /\ is_Some (dict_get sid (sessions (_upsert_session md5 encodable cfg sid src text now t).1))
  /\ (Z.of_nat (length (sessions t)) <= MAX_TRACKED_SESSIONS cfg ->
      Z.of_nat (length (sessions (_upsert_session md5 encodable cfg sid src text now t).1))
      <= MAX_TRACKED_SESSIONS cfg).
Proof. apply upsert_session_room. Qed.

Lemma upsert_keeps_table_within_cap_witness :
  (_upsert_session toy_md5 latin_text (default_config "/home/u") "s9" "claude_code" surrogate_text
                   1700000000 (set_sessions three_sessions fresh_tracker)).2
  = Some UnicodeEncodeError
  /\ is_Some (dict_get "s9"
                (sessions (_upsert_session toy_md5 latin_text (default_config "/home/u") "s9"
                             "claude_code" surrogate_text 1700000000
                             (set_sessions three_sessions fresh_tracker)).1)).
Proof.
  destruct (upsert_keeps_table_within_cap toy_md5 latin_text (default_config "/home/u") "s9"
              "claude_code" surrogate_text 1700000000 (set_sessions three_sessions fresh_tracker))
    as (H1 & H2 & _); [simpl; lia|].
  split; [exact H1|exact H2].
Defined.

(** X7: with MAX_TRACKED_SESSIONS at most 0, an upsert into the empty table
    raises ValueError: the eviction that should make room finds no session
    to take the minimum of. *)
Theorem upsert_without_room_raises (md5 : string -> string) (encodable : string -> bool)
        (cfg : Config) (sid src text : string) (now : Q) (t : tracker) :
  MAX_TRACKED_SESSIONS cfg <= 0 -> sessions t = [] ->
  _upsert_session md5 encodable cfg sid src text now t = (t, Some ValueError).
Proof.
  intros Hmax Hnil. unfold _upsert_session, bind_in, ensure_session, _evict_oldest.
  rewrite Hnil. simpl. change (Z.of_nat 0) with 0.
  destruct (0 >=? MAX_TRACKED_SESSIONS cfg) eqn:E; [reflexivity|].
  rewrite Z.geb_leb in E. apply Z.leb_gt in E. lia.
Qed.

Lemma upsert_without_room_raises_witness :
  _upsert_session toy_md5 any_text no_room_config "s1" "claude_code" "ls" 1700000000 fresh_tracker
  = (fresh_tracker, Some ValueError).
Proof.
  apply (upsert_without_room_raises toy_md5 any_text no_room_config "s1" "claude_code" "ls"
           1700000000 fresh_tracker); [simpl; lia|reflexivity].
Defined.

(** X8: an upsert keeps every tracked session within
    max(MAX_MESSAGES_PER_SESSION, 200) messages, however it ends: a list
    that grows past MAX_MESSAGES_PER_SESSION is cut to its last 200
    entries. *)
Theorem upsert_keeps_message_cap (md5 : string -> string) (encodable : string -> bool)
        (cfg : Config) (sid src text : string) (now : Q) (t : tracker) :
  messages_within (Z.max (MAX_MESSAGES_PER_SESSION cfg) 200) (sessions t) ->
  messages_within (Z.max (MAX_MESSAGES_PER_SESSION cfg) 200)
                  (sessions (_upsert_session md5 encodable cfg sid src text now t).1).
Proof.
  intros Hinv. unfold _upsert_session, bind_in.
  destruct (ensure_session cfg sid src now t) as [t1|x] eqn:Ee; simpl; [|done].
  assert (Hinv1 : messages_within (Z.max (MAX_MESSAGES_PER_SESSION cfg) 200) (sessions t1)).
  { intros k s Hin. destruct (ensure_session_entries _ _ _ _ _ _ _ _ Ee Hin) as [H| ->].
    - by apply (Hinv k s).
    - simpl. lia. }
  destruct (dict_get sid (sessions t1)) as [sess|] eqn:Eg; [|done].
  destruct (negb (encodable text)); [done|].
  destruct (String.eqb (md5 text) (last_hash sess)); [done|].
  intros k s Hin. simpl in Hin.
  apply In_dict_set in Hin as [[= -> ->]|Hin]; [|by apply (Hinv1 k s)].
  simpl. apply append_message_length. apply (Hinv1 sid sess). by apply dict_get_In.
Qed.

Lemma upsert_keeps_message_cap_witness :
  messages_within 500
    (sessions (_upsert_session toy_md5 any_text (default_config "/home/u") "s1" "claude_code"
                 "make" 1700000000 (set_sessions three_sessions fresh_tracker)).1).
Proof.
  apply (upsert_keeps_message_cap toy_md5 any_text (default_config "/home/u") "s1" "claude_code"
           "make" 1700000000 (set_sessions three_sessions fresh_tracker)).
  intros k s [[= <- <-]|[[= <- <-]|[[= <- <-]|[]]]]; simpl; lia.
Defined.

(** ** Export and outbox *)

Section Outbox.

Variable cfg : Config.

Lemma retry_batch_keeps (e : env) (batch : list pending_file) :
  forall (t : tracker) (d : disk),
    history (retry_batch cfg e batch t d).2 = history d
    /\ _export_count (retry_batch cfg e batch t d).1 = _export_count t
    /\ _last_pending_retry (retry_batch cfg e batch t d).1 = _last_pending_retry t
    /\ _http_client (retry_batch cfg e batch t d).1 = _http_client t.
Proof.
  induction batch as [|pf rest IH]; intros t d; [done|].
  rewrite retry_batch_cons. cbv zeta.
  destruct (respond e (length (requests d)) (pending_path cfg pf)) as [code|]; [|done].
  destruct (code <? 300).
  - destruct (IH (logging INFO ("Retried pending OK: " ++ pf_name pf) t)
                 (set_outbox (outbox_unlink (pf_name pf) (outbox d))
                    {| history := history d; outbox := outbox d;
                       requests := (requests d ++ [pending_path cfg pf])%list |}))
      as (-> & -> & -> & ->). done.
  - destruct (IH t {| history := history d; outbox := outbox d;
                      requests := (requests d ++ [pending_path cfg pf])%list |})
      as (-> & -> & -> & ->). done.
Qed.

Lemma retry_pending_keeps (e : env) (t : tracker) (d : disk) :
  history (_retry_pending cfg e t d).2 = history d
  /\ _export_count (_retry_pending cfg e t d).1 = _export_count t
  /\ _http_client (_retry_pending cfg e t d).1 = _http_client t.
Proof.
  unfold _retry_pending. destruct (_http_client t) eqn:Hc; simpl; [|done].
  destruct (sorted _ (outbox d)) as [|pf l]; [done|].
  destruct (retry_batch_keeps e (firstn 8 (pf :: l)) (set_last_pending_retry (clock e) t) d)
    as (-> & -> & _ & ->). done.
Qed.

Lemma retry_pending_stamp (e : env) (t : tracker) (d : disk) :
  requests (_retry_pending cfg e t d).2 <> requests d ->
  _last_pending_retry (_retry_pending cfg e t d).1 = clock e.
Proof.
  unfold _retry_pending. destruct (_http_client t); simpl; [|done].
  destruct (sorted _ (outbox d)) as [|pf l]; [done|].
  intros _.
  by destruct (retry_batch_keeps e (firstn 8 (pf :: l)) (set_last_pending_retry (clock e) t) d)
    as (_ & _ & -> & _).
Qed.

Lemma outbox_put_name (name : string) (mtime : Q) (l : list pending_file) :
  In name (List.map pf_name (outbox_put name mtime l)).
Proof.
  induction l as [|pf l IH]; simpl; [by left|].
  destruct (String.eqb name (pf_name pf)); simpl; [by left|by right].
Qed.

Lemma guarded_write_done (e : env) (p text : string) :
  write_text e p text = Written -> chmod_ok e p = true ->
  guarded_write e p text = (Some text, Done).
Proof. intros Hw Hc. unfold guarded_write. by rewrite Hw, Hc. Qed.

Lemma guarded_write_unopened (e : env) (p text : string) (x : exn) :
  write_text e p text = WriteRaises x None -> (guarded_write e p text).1 = None.
Proof. intros Hw. unfold guarded_write. by rewrite Hw. Qed.

Lemma queue_pending_queues (e : env) (name text : string) (t : tracker) (d : disk) :
  write_text e (PENDING_DIR cfg ++ "/" ++ name) text = Written ->
  chmod_ok e (PENDING_DIR cfg ++ "/" ++ name) = true ->
  queue_pending cfg e name text t d
  = (logging INFO ("Queued pending sync: " ++ name) t,
     set_outbox (outbox_put name (clock e) (outbox d)) d, Ok false).
Proof. intros Hw Hc. unfold queue_pending. by rewrite (guarded_write_done _ _ _ Hw Hc). Qed.

Lemma queue_pending_not_true (e : env) (name text : string) (t : tracker) (d : disk) :
  (queue_pending cfg e name text t d).2 <> Ok true.
Proof. unfold queue_pending. by destruct (guarded_write e _ text) as [held []]. Qed.

Lemma queue_pending_requests (e : env) (name text : string) (t : tracker) (d : disk) :
  requests (queue_pending cfg e name text t d).1.2 = requests d.
Proof. unfold queue_pending. by destruct (guarded_write e _ text) as [[held|] []]. Qed.

End Outbox.

(** X9: when the history directory can be made and the artifact and the
    pending copy can be written, an export loses nothing: it returns, the
    artifact is in the history directory afterwards, and the export is
    counted exactly when there is a client and the POST was answered with a
    status below 300; it returns True when moreover the pending directory
    could be listed for the retry that follows, and when it returns False
    a pending file of the artifact's name is in the outbox. *)
Theorem export_stores_then_forwards (cfg : Config) (e : env) (sid : string) (data : session)
        (title_prefix : string) (t : tracker) (d : disk) :
  let name := source data ++ "_" ++ now_stamp e ++ "_" ++ take 12 sid ++ ".md" in
  let file_path := HISTORY_DIR cfg ++ "/" ++ name in
  let formatted := artifact e sid data title_prefix in
  let r := _export cfg e sid data title_prefix t d in
  let accepted := _http_client t
                  && match respond e (length (requests d)) file_path with
                     | Status code => code <? 300
                     | PostRaises => false
                     end in
  mkdir_ok e (HISTORY_DIR cfg) = true ->
  write_text e file_path formatted = Written -> chmod_ok e file_path = true ->
  write_text e (PENDING_DIR cfg ++ "/" ++ name) formatted = Written ->
  chmod_ok e (PENDING_DIR cfg ++ "/" ++ name) = true ->
  dict_get file_path (history r.1.2) = Some formatted
  /\ r.2 = Ok (accepted && pending_sorted_ok e)
  /\ _export_count r.1.1 = _export_count t + (if accepted then 1 else 0)
  /\ (r.2 = Ok false -> In name (List.map pf_name (outbox r.1.2))).
Proof.
  intros name file_path formatted r accepted Hm Hw Hc Hqw Hqc. subst r accepted.
  unfold _export. fold name. fold file_path. fold formatted. rewrite Hm. cbn [negb].
  rewrite (guarded_write_done _ _ _ Hw Hc). cbv beta iota zeta.
  set (d0 := {| history := dict_set file_path formatted (history d);
                outbox := outbox d; requests := requests d |}).
  assert (Hd0 : dict_get file_path (history d0) = Some formatted) by apply dict_get_set_eq.
  destruct (_http_client t); cbn [andb].
  - unfold post. change (requests d0) with (requests d).
    destruct (respond e (length (requests d)) file_path) as [code|].
    + destruct (code <? 300).
      * destruct (pending_sorted_ok e).
        -- match goal with |- context [_retry_pending cfg e ?t1 ?d1] =>
             destruct (retry_pending_keeps cfg e t1 d1) as (Hh & Hx & _);
             destruct (_retry_pending cfg e t1 d1) as [t2 d2] end.
           simpl in *. rewrite Hh, Hx. by repeat split.
        -- rewrite (queue_pending_queues cfg e name formatted _ _ Hqw Hqc). simpl.
           repeat split; try done. intros _. apply outbox_put_name.
      * rewrite (queue_pending_queues cfg e name formatted _ _ Hqw Hqc). simpl.
        repeat split; try done; [lia|]. intros _. apply outbox_put_name.
    + rewrite (queue_pending_queues cfg e name formatted _ _ Hqw Hqc). simpl.
      repeat split; try done; [lia|]. intros _. apply outbox_put_name.
  - rewrite (queue_pending_queues cfg e name formatted _ _ Hqw Hqc). simpl.
    repeat split; try done; [lia|]. intros _. apply outbox_put_name.
Qed.

Lemma export_stores_then_forwards_witness :
  dict_get "/home/u/.unified_context_data/resources/shared/history/claude_code_20231114_221320_s1.md"
           (history (_export (default_config "/home/u") offline_env "s1" nearly_idle_session
                             EmptyString fresh_tracker empty_disk).1.2)
  = Some (artifact offline_env "s1" nearly_idle_session EmptyString)
  /\ In "claude_code_20231114_221320_s1.md"
        (List.map pf_name
           (outbox (_export (default_config "/home/u") offline_env "s1" nearly_idle_session
                            EmptyString fresh_tracker empty_disk).1.2)).
Proof.
  destruct (export_stores_then_forwards (default_config "/home/u") offline_env "s1"
              nearly_idle_session EmptyString fresh_tracker empty_disk)
    as (H1 & H2 & _ & H4); [reflexivity..|].
  split; [exact H1|]. apply H4. rewrite H2. reflexivity.
Defined.

(** A POST answered with 200, and a pending directory whose listing
    cannot be sorted for the retry: the export is counted, and the export
    returns False with the artifact queued. *)
Lemma counted_export_can_return_false :
  let r := _export (default_config "/home/u") unlistable_env "s1" nearly_idle_session
                   EmptyString fresh_tracker two_pending in
  r.2 = Ok false /\ _export_count r.1.1 = 1
  /\ In "claude_code_20231114_221320_s1.md" (List.map pf_name (outbox r.1.2)).
Proof. vm_compute. split; [reflexivity|]. split; [reflexivity|]. do 2 right. by left. Qed.

(** X10: an export returns True exactly when the history directory could
    be made, the artifact was written and its mode set, the tracker has an
    HTTP client, the POST of the artifact was answered with a status below
    300 and the pending directory could be listed for the retry that
    follows.  When the history directory cannot be made the export raises
    OSError and changes nothing; when the write of the artifact raises
    before the file is opened, nothing outside the process changes; and
    without a client no request is sent. *)
Theorem export_returns_true_iff_synced (cfg : Config) (e : env) (sid : string)
        (data : session) (title_prefix : string) (t : tracker) (d : disk) :
  let file_path := HISTORY_DIR cfg ++ "/" ++ source data ++ "_" ++ now_stamp e ++ "_"
                   ++ take 12 sid ++ ".md" in
  let formatted := artifact e sid data title_prefix in
  let r := _export cfg e sid data title_prefix t d in
  (r.2 = Ok true <->
     mkdir_ok e (HISTORY_DIR cfg) = true
     /\ write_text e file_path formatted = Written /\ chmod_ok e file_path = true
     /\ _http_client t = true
     /\ (exists code, respond e (length (requests d)) file_path = Status code /\ code < 300)
     /\ pending_sorted_ok e = true)
  /\ (mkdir_ok e (HISTORY_DIR cfg) = false -> r = (t, d, Raise OSError))
  /\ (forall x, write_text e file_path formatted = WriteRaises x None -> r.1.2 = d)
  /\ (_http_client t = false -> requests r.1.2 = requests d).
Proof.
  intros file_path formatted r. subst r. unfold _export. fold file_path. fold formatted.
  destruct (mkdir_ok e (HISTORY_DIR cfg)) eqn:Hm; cbn [negb].
  2:{ simpl. split; [|done]. split; [done|]. by intros [? _]. }
  set (name := source data ++ "_" ++ now_stamp e ++ "_" ++ take 12 sid ++ ".md").
  unfold guarded_write.
  destruct (write_text e file_path formatted) as [|x kept] eqn:Hw.
  2:{ split; [|split; [done|split]].
      - split; [|by intros (_ & ? & _)].
        destruct x, kept; simpl; done.
      - intros y [= <- ->]. by destruct x.
      - intros Hc. by destruct x, kept. }
  destruct (chmod_ok e file_path) eqn:Hch.
  2:{ simpl. split; [|done]. split; [done|]. by intros (_ & _ & ? & _). }
  cbv beta iota zeta.
  set (d0 := {| history := dict_set file_path formatted (history d);
                outbox := outbox d; requests := requests d |}).
  split; [|split; [done|split; [done|]]].
  - destruct (_http_client t) eqn:Hc.
    + unfold post. change (requests d0) with (requests d).
      destruct (respond e (length (requests d)) file_path) as [code|] eqn:Hr.
      * destruct (code <? 300) eqn:Hcode.
        -- destruct (pending_sorted_ok e) eqn:Hl.
           ++ match goal with |- context [_retry_pending cfg e ?t1 ?d1] =>
                destruct (_retry_pending cfg e t1 d1) as [t2 d2] end.
              simpl. split; [|done]. intros _. repeat split.
              exists code. split; [done|]. by apply Z.ltb_lt.
           ++ split; [by intros H%queue_pending_not_true|]. by intros (_ & _ & _ & _ & _ & ?).
        -- split; [by intros H%queue_pending_not_true|].
           intros (_ & _ & _ & _ & (code' & [= <-] & Hlt) & _). apply Z.ltb_ge in Hcode. lia.
      * split; [by intros H%queue_pending_not_true|].
        by intros (_ & _ & _ & _ & (code' & ? & _) & _).
    + split; [by intros H%queue_pending_not_true|]. by intros (_ & _ & _ & ? & _).
  - intros ->. by rewrite queue_pending_requests.
Qed.

(** X11: once a retry pass has sent a request, a call of maybe_retry_pending
    less than PENDING_RETRY_INTERVAL_SEC seconds later sends nothing and
    changes nothing. *)
Theorem maybe_retry_pending_throttle (cfg : Config) (e e' : env) (t : tracker) (d : disk) :
  let r := maybe_retry_pending cfg e t d in
  requests r.2 <> requests d ->
  (clock e' - clock e < inject_Z (PENDING_RETRY_INTERVAL_SEC cfg))%Q ->
  maybe_retry_pending cfg e' r.1 r.2 = r.
Proof.
  intros r Hsent Hsoon. subst r. unfold maybe_retry_pending in Hsent |- * at 2 3 4.
  destruct (has_pending e d) as [[|]|]; [|done|done].
  destruct (ltb_Q (clock e - _last_pending_retry t) _); [done|].
  apply retry_pending_stamp in Hsent.
  destruct (_retry_pending cfg e t d) as [t1 d1] eqn:Er. simpl in *.
  unfold maybe_retry_pending. destruct (has_pending e' d1) as [[|]|]; [|done|done].
  rewrite Hsent. unfold ltb_Q.
  destruct (Qle_bool _ _) eqn:E; [|done].
  apply Qle_bool_iff in E. exfalso. by apply (Qlt_not_le _ _ Hsoon).
Qed.

Lemma maybe_retry_pending_throttle_witness :
  maybe_retry_pending (default_config "/home/u") soon_env
    (maybe_retry_pending (default_config "/home/u") quiet_env fresh_tracker two_pending).1
    (maybe_retry_pending (default_config "/home/u") quiet_env fresh_tracker two_pending).2
  = maybe_retry_pending (default_config "/home/u") quiet_env fresh_tracker two_pending.
Proof.
  apply (maybe_retry_pending_throttle (default_config "/home/u") quiet_env soon_env
           fresh_tracker two_pending).
  - vm_compute. discriminate.
  - vm_compute. reflexivity.
Defined.

(** ** Tailers *)

Lemma set_cursor_same (key : string) (sz : Z) (t : tracker) :
  file_cursors t !! key = Some sz -> set_cursor key sz t = t.
Proof.
  intros H. unfold set_cursor, set_file_cursors. rewrite (insert_id _ _ _ H). by destruct t.
Qed.

Lemma tail_protocol_steady (e : env) (p key : string)
      (body : string -> tracker -> tracker * option exn) (blame : string) (t : tracker) (sz : Z) :
  getsize e p = Some sz -> file_cursors t !! key = Some sz ->
  tail_protocol e p key body blame t = t.
Proof.
  intros Hs Hc. unfold tail_protocol, resume_offset. rewrite Hs, Hc.
  rewrite Z.ltb_irrefl, Z.leb_refl. by apply set_cursor_same.
Qed.

(** X12: a pass over a file whose size equals the stored cursor leaves the
    tracker exactly as it was, for each of the three tailers: nothing is
    read, no session and no counter changes. *)
Theorem unchanged_file_pass
        (md5 : string -> string) (encodable : string -> bool)
        (json_loads : string -> result json) (cfg : Config)
        (e : env) (now : Q) (t : tracker) (p : string) (sz : Z) :
  getsize e p = Some sz ->
  (forall source_name src key,
      file_cursors t !! key = Some sz ->
      _poll_jsonl_file md5 encodable json_loads cfg e source_name p src key now t = t)
  /\ (forall source_name,
         file_cursors t !! _cursor_key md5 "shell" source_name p = Some sz ->
         poll_shell_file md5 encodable cfg e source_name p now t = t)
  /\ (forall m,
         getmtime e p = Some m -> ltb_Q m (now - 3600) = false ->
         file_cursors t !! _cursor_key md5 "codex_session" "codex_session" p = Some sz ->
         poll_codex_file md5 encodable json_loads cfg e p now t = t).
Proof.
  intros Hs. repeat split.
  - intros source_name src key Hc. rewrite poll_jsonl_file_protocol.
    by apply (tail_protocol_steady _ _ _ _ _ _ sz).
  - intros source_name Hc. rewrite poll_shell_file_protocol.
    by apply (tail_protocol_steady _ _ _ _ _ _ sz).
  - intros m Hm Hrecent Hc. rewrite (poll_codex_file_protocol _ _ _ _ _ _ _ m); [|done|done].
    by apply (tail_protocol_steady _ _ _ _ _ _ sz).
Qed.

Lemma unchanged_file_pass_witness :
  poll_shell_file toy_md5 any_text (default_config "/home/u") one_line_env "shell_zsh"
                  "/home/u/.zsh_history" 1700000000
                  (set_cursor (_cursor_key toy_md5 "shell" "shell_zsh" "/home/u/.zsh_history")
                              5 fresh_tracker)
  = set_cursor (_cursor_key toy_md5 "shell" "shell_zsh" "/home/u/.zsh_history") 5 fresh_tracker.
Proof.
  destruct (unchanged_file_pass toy_md5 any_text no_json (default_config "/home/u") one_line_env
              1700000000
              (set_cursor (_cursor_key toy_md5 "shell" "shell_zsh" "/home/u/.zsh_history")
                          5 fresh_tracker)
              "/home/u/.zsh_history" 5) as (_ & H & _); [reflexivity|].
  apply H. reflexivity.
Defined.

Lemma extract_sid_object (kv : list (string * json)) (keys : list string) (src : string) :
  exists s, _extract_sid (JDict kv) keys src = Ok s.
Proof.
  induction keys as [|k keys IH]; simpl; [by eauto|].
  destruct (scalar_str _) as [s|]; [|done].
  destruct (nonempty (strip s)); [by eauto|done].
Qed.

Lemma probe_text_keys_object (kv : list (string * json)) (keys : list string) :
  exists r, probe_text_keys (JDict kv) keys = Ok r.
Proof.
  induction keys as [|k keys IH]; simpl; [by eauto|].
  destruct (match lookup_key k kv with Some v => v | None => JNull end); try done.
  destruct (nonempty (strip s)); [by eauto|done].
Qed.

Lemma extract_text_object (kv : list (string * json)) (keys : list string) :
  exists s, _extract_text (JDict kv) keys = Ok s.
Proof.
  unfold _extract_text. destruct (probe_text_keys_object kv keys) as [[s|] ->]; [by eauto|].
  simpl. destruct (match lookup_key "parts" kv with Some v => v | None => JNull end);
    try by eauto.
  destruct (collect_text_parts l); [by eauto|].
  destruct (nonempty _); by eauto.
Qed.

Lemma extract_text_non_object (v : json) (keys : list string) :
  (forall kv, v <> JDict kv) -> _extract_text v keys = Raise AttributeError.
Proof.
  intros Hv. unfold _extract_text.
  assert (Hg : forall k, get v k = Raise AttributeError).
  { intros k. destruct v; try done. by destruct (Hv kv). }
  destruct keys as [|k keys]; simpl; by rewrite Hg.
Qed.

Lemma extract_sid_non_object (v : json) (keys : list string) (src : string) :
  (forall kv, v <> JDict kv) ->
  _extract_sid v keys src = Raise AttributeError \/ exists s, _extract_sid v keys src = Ok s.
Proof.
  intros Hv. destruct keys as [|k keys]; simpl; [right; by eauto|left].
  destruct v; try done. by destruct (Hv kv).
Qed.

(** X13: what a line of a JSONL source does, by what it decodes to.  A
    blank line and a line on which json.loads raises JSONDecodeError are
    skipped; any other exception of json.loads (ValueError on an integer
    literal of too many digits, RecursionError on nesting too deep) is not
    caught and ends the pass; a JSON value that is not an object raises
    AttributeError; and, with room for at least one session, an object
    raises only when its sanitized text is not empty and cannot be encoded
    for the digest, with UnicodeEncodeError. *)
Theorem jsonl_line_raises_on_non_objects
        (md5 : string -> string) (encodable : string -> bool)
        (json_loads : string -> result json) (cfg : Config)
        (source_name : string) (src : jsonl_source) (now : Q) (line : string) (t : tracker) :
  1 <= MAX_TRACKED_SESSIONS cfg ->
  if nonempty (strip line)
  then match json_loads (strip line) with
       | Raise JSONDecodeError =>
           jsonl_line md5 encodable json_loads cfg source_name src now line t = (t, None)
       | Raise x =>
           jsonl_line md5 encodable json_loads cfg source_name src now line t = (t, Some x)
       | Ok (JDict kv) =>
           exists text,
             _extract_text (JDict kv) (text_keys src) = Ok text
             /\ (jsonl_line md5 encodable json_loads cfg source_name src now line t).2
                = (if nonempty (_sanitize_text text) && negb (encodable (_sanitize_text text))
                   then Some UnicodeEncodeError else None)
       | Ok _ =>
           jsonl_line md5 encodable json_loads cfg source_name src now line t
           = (t, Some AttributeError)
       end
  else jsonl_line md5 encodable json_loads cfg source_name src now line t = (t, None).
Proof.
  intros Hmax. unfold jsonl_line.
  destruct (nonempty (strip line)); cbn [negb]; [|done].
  destruct (json_loads (strip line)) as [v|[]]; try done.
  assert (Hno : (forall kv, v <> JDict kv) ->
                bind_in t (_extract_sid v (sid_keys src) source_name) (fun sid =>
                bind_in t (_extract_text v (text_keys src)) (fun text =>
                  if negb (nonempty (_sanitize_text text)) then (t, None)
                  else _upsert_session md5 encodable cfg sid source_name
                                       (_sanitize_text text) now t))
                = (t, Some AttributeError)).
  { intros Hv. destruct (extract_sid_non_object v (sid_keys src) source_name Hv) as [->|[s ->]];
      [done|]. simpl. by rewrite extract_text_non_object. }
  destruct v; try (apply Hno; by intros kv').
  destruct (extract_sid_object kv (sid_keys src) source_name) as [sid ->].
  destruct (extract_text_object kv (text_keys src)) as [text Ht]. exists text.
  split; [exact Ht|]. rewrite Ht. unfold bind_in.
  destruct (nonempty (_sanitize_text text)); cbn [negb andb]; [|done].
  destruct (upsert_session_room md5 encodable cfg sid source_name (_sanitize_text text) now t
              Hmax) as (-> & _).
  by destruct (encodable (_sanitize_text text)).
Qed.

Lemma jsonl_line_raises_on_non_objects_witness :
  jsonl_line toy_md5 any_text number_json (default_config "/home/u") "claude_code" claude_history
             1700000000 "123" fresh_tracker
  = (fresh_tracker, Some AttributeError).
Proof.
  apply (jsonl_line_raises_on_non_objects toy_md5 any_text number_json (default_config "/home/u")
           "claude_code" claude_history 1700000000 "123" fresh_tracker).
  simpl. lia.
Defined.

(** A line with an integer literal too long for [json.loads]: the
    ValueError is not a JSONDecodeError, and the line raises. *)
Lemma oversized_number_line_raises :
  jsonl_line toy_md5 any_text (fun _ => Raise ValueError) (default_config "/home/u")
             "claude_code" claude_history 1700000000 "1234" fresh_tracker
  = (fresh_tracker, Some ValueError).
Proof. reflexivity. Qed.

(** An object whose text cannot be encoded: the line raises from the
    digest, after its session was inserted. *)
Lemma unencodable_line_leaves_its_session :
  let r := jsonl_line toy_md5 latin_text
             (fun _ => Ok (JDict [("sessionId", JStr "s"); ("display", JStr surrogate_text)]))
             (default_config "/home/u") "claude_code" claude_history 1700000000 "{}"
             fresh_tracker in
  r.2 = Some UnicodeEncodeError
  /\ dict_get "s" (sessions r.1) = Some (new_session "claude_code" 1700000000).
Proof. vm_compute. split; reflexivity. Qed.

Lemma for_each_line_raises (body : string -> tracker -> tracker * option exn) (line : string) :
  (forall t, exists x, (body line t).2 = Some x) ->
  forall ls t, In line ls -> exists x, (for_each_line body ls t).2 = Some x.
Proof.
  intros Hr ls. induction ls as [|l ls IH]; intros t Hin; [done|]. simpl.
  destruct (body l t) as [t' [x|]] eqn:Eb; [by eauto|].
  destruct Hin as [->|Hin]; [|by apply IH].
  destruct (Hr t) as [x Hx]. rewrite Eb in Hx. done.
Qed.

Lemma read_lines_from_raises (e : env) (p : string) (last : Z)
      (body : string -> tracker -> tracker * option exn) (line : string) (t : tracker) :
  (forall t, exists x, (body line t).2 = Some x) -> In line (lines (read_from e p last)) ->
  exists x, (read_lines_from e p last body t).2 = Some x.
Proof.
  intros Hr Hin. unfold read_lines_from.
  destruct (for_each_line_raises body line Hr _ t Hin) as [x Hx].
  destruct (for_each_line body _ t) as [t' o]. simpl in Hx. subst o. by eauto.
Qed.

(** X14: a pass of a JSONL tailer that reads a line holding a JSON value
    other than an object fails as a whole: the error counter goes up by
    one and the cursor of the file stays where it was, so the next pass
    starts from the same offset and meets the same line. *)
Theorem non_object_line_stalls_the_cursor
        (md5 : string -> string) (encodable : string -> bool)
        (json_loads : string -> result json) (cfg : Config)
        (e : env) (source_name p : string) (src : jsonl_source) (key : string) (now : Q)
        (t : tracker) (sz : Z) (line : string) (v : json) :
  getsize e p = Some sz ->
  resume_offset (file_cursors t !! key) sz < sz ->
  In line (lines (read_from e p (resume_offset (file_cursors t !! key) sz))) ->
  nonempty (strip line) = true ->
  json_loads (strip line) = Ok v -> (forall kv, v <> JDict kv) ->
  let t' := _poll_jsonl_file md5 encodable json_loads cfg e source_name p src key now t in
  file_cursors t' = file_cursors t /\ _error_count t' = _error_count t + 1.
Proof.
  intros Hs Hoff Hin Hne Hv Hno t'. subst t'. rewrite poll_jsonl_file_protocol.
  assert (Hr : forall t0, exists x,
               (jsonl_line md5 encodable json_loads cfg source_name src now line t0).2 = Some x).
  { intros t0. exists AttributeError. unfold jsonl_line. rewrite Hne, Hv. cbn [negb].
    destruct (extract_sid_non_object v (sid_keys src) source_name Hno) as [->|[s ->]];
      [done|]. simpl. by rewrite extract_text_non_object. }
  destruct (read_lines_from_raises e p _ _ line t Hr Hin) as [x Hx].
  destruct (tail_protocol_read_fails e p key _
              ("poll_jsonl_sources(" ++ source_name ++ ")") t sz x
              (jsonl_line_books md5 encodable json_loads cfg source_name src now) Hs Hoff Hx)
    as (H1 & H2 & _).
  by split.
Qed.

Lemma non_object_line_stalls_the_cursor_witness :
  _error_count (_poll_jsonl_file toy_md5 any_text number_json (default_config "/home/u") one_line_env
                  "claude_code" (path claude_history) claude_history
                  (_cursor_key toy_md5 "jsonl" "claude_code" (path claude_history))
                  1700000000
                  (set_cursor (_cursor_key toy_md5 "jsonl" "claude_code" (path claude_history))
                              2 fresh_tracker))
  = _error_count (set_cursor (_cursor_key toy_md5 "jsonl" "claude_code" (path claude_history))
                             2 fresh_tracker) + 1.
Proof.
  apply (non_object_line_stalls_the_cursor toy_md5 any_text number_json (default_config "/home/u")
           one_line_env "claude_code" (path claude_history) claude_history
           (_cursor_key toy_md5 "jsonl" "claude_code" (path claude_history)) 1700000000
           (set_cursor (_cursor_key toy_md5 "jsonl" "claude_code" (path claude_history))
                       2 fresh_tracker)
           5 "x" (JInt 123)).
  - reflexivity.
  - vm_compute. reflexivity.
  - vm_compute. by left.
  - reflexivity.
  - reflexivity.
  - intros kv. discriminate.
Defined.

(** ** Parsing helpers *)

Lemma nonempty_true (s : string) : nonempty s = true <-> s <> EmptyString.
Proof.
  unfold nonempty. rewrite negb_true_iff. split.
  - intros H ->. by rewrite String.eqb_refl in H.
  - intros H. by apply String.eqb_neq.
Qed.

Lemma nonempty_false (s : string) : nonempty s = false <-> s = EmptyString.
Proof.
  unfold nonempty. rewrite negb_false_iff. apply String.eqb_eq.
Qed.

(** X15: on a JSON object the session id is the text of the first sid key
    that holds a string or an integer which is not blank, returned as it
    stands; when no key holds one, it is the source name followed by
    _default.  No exception is raised. *)
Theorem extract_sid_first_usable_key (kv : list (string * json)) (keys : list string)
        (src : string) :
  exists s,
    _extract_sid (JDict kv) keys src = Ok s
    /\ ((s = src ++ "_default" /\ forall k s', In k keys -> ~ usable_sid kv k s')
        \/ exists keys1 k keys2,
             keys = (keys1 ++ k :: keys2)%list /\ usable_sid kv k s
             /\ forall k' s', In k' keys1 -> ~ usable_sid kv k' s').
Proof.
  induction keys as [|k keys (s & Hs & IH)]; simpl.
  - eexists. split; [done|]. left. split; [done|]. by intros k s' [].
  - assert (Hskip : (forall s', ~ usable_sid kv k s') ->
              exists s, _extract_sid (JDict kv) keys src = Ok s
              /\ ((s = src ++ "_default"
                   /\ forall k0 s', k = k0 \/ In k0 keys -> ~ usable_sid kv k0 s')
                  \/ exists keys1 k0 keys2,
                       (k :: keys = keys1 ++ k0 :: keys2)%list /\ usable_sid kv k0 s
                       /\ forall k' s', In k' keys1 -> ~ usable_sid kv k' s')).
    { intros Hk. exists s. split; [done|].
      destruct IH as [[-> Hnone]|(keys1 & k0 & keys2 & -> & Hu & Hfirst)].
      - left. split; [done|]. intros k0 s' [<-|Hin]; [by apply Hk|by apply Hnone].
      - right. exists (k :: keys1), k0, keys2. split; [done|]. split; [done|].
        intros k' s' [<-|Hin]; [by apply Hk|by apply Hfirst]. }
    destruct (lookup_key k kv) as [v|] eqn:El.
    2:{ simpl. apply Hskip. intros s' (v & Hv & _). congruence. }
    destruct (scalar_str v) as [s0|] eqn:Esc.
    2:{ apply Hskip. intros s' (v' & Hv & Hsc & _). congruence. }
    destruct (nonempty (strip s0)) eqn:Ene.
    + exists s0. split; [done|]. right. exists [], k, keys. split; [done|].
      split; [|by intros k' s' []]. exists v. split; [done|]. split; [done|].
      by apply nonempty_true.
    + apply Hskip. intros s' (v' & Hv & Hsc & Hne).
      assert (s' = s0) as -> by congruence. apply nonempty_false in Ene. done.
Qed.


(** A plain line, an extended zsh line, and two lines whose command is an
    ignored one. *)
Lemma parse_shell_line_examples :
  _parse_shell_line quiet_env "shell_bash" "export TOKEN=abc "
  = Ok (Some ("shell_bash_20231114", "export TOKEN=***"))
  /\ _parse_shell_line quiet_env "shell_zsh" ": 1700000000:0;ls -l"
     = Ok (Some ("shell_zsh_20231114", "ls -l"))
  /\ _parse_shell_line quiet_env "shell_zsh" ": 1700000000:0; History 5" = Ok None
  /\ _parse_shell_line quiet_env "shell_bash" "fc -l" = Ok None.
Proof. vm_compute. repeat split. Qed.

(** ** Strings and greedy runs *)

Import Masks.

Lemma sapp_nil_l (s : string) : EmptyString ++ s = s.
Proof. reflexivity. Qed.

Lemma sapp_cons (c : ascii) (a b : string) : String c a ++ b = String c (a ++ b).
Proof. reflexivity. Qed.

Lemma sapp_nil_r (s : string) : s ++ EmptyString = s.
Proof. induction s as [|c s IH]; [done|]. rewrite sapp_cons. f_equal. exact IH. Qed.

Lemma sapp_assoc (a b c : string) : (a ++ b) ++ c = a ++ (b ++ c).
Proof. induction a as [|x a IH]; [done|]. rewrite !sapp_cons. f_equal. exact IH. Qed.

Ltac sapp_norm := repeat (rewrite sapp_cons || rewrite sapp_assoc || rewrite sapp_nil_l).

Lemma slength_app (a b : string) :
  String.length (a ++ b) = (String.length a + String.length b)%nat.
Proof. induction a as [|x a IH]; [done|]. rewrite sapp_cons. simpl. f_equal. exact IH. Qed.

Lemma take_app_exact (a b : string) : take (String.length a) (a ++ b) = a.
Proof.
  induction a as [|x a IH]; [by destruct b|]. rewrite sapp_cons. simpl. f_equal. exact IH.
Qed.

Lemma drop_app_exact (a b : string) : drop (String.length a) (a ++ b) = b.
Proof. induction a as [|x a IH]; [by destruct b|]. rewrite sapp_cons. simpl. exact IH. Qed.









(** ** Source discovery *)

(** X18: a JSONL source that becomes active, or changes to another file,
    starts at the end of the file it picked: the cursor stored is the size
    of the file, and a poll of the file as it stands leaves the tracker
    unchanged, so nothing written before the activation is ingested. *)
Theorem activated_source_starts_at_end
        (md5 : string -> string) (encodable : string -> bool)
        (json_loads : string -> result json) (cfg : Config)
        (e : env) (t t1 : tracker) (source_name : string) (candidates : list jsonl_source)
        (picked : jsonl_source) (now : Q) :
  refresh_jsonl md5 e t (source_name, candidates) = Ok t1 ->
  List.find (fun c => path_exists e (path c)) candidates = Some picked ->
  (forall pr, dict_get source_name (active_jsonl t) = Some pr -> path pr <> path picked) ->
  exists sz,
    getsize e (path picked) = Some sz
    /\ dict_get source_name (active_jsonl t1) = Some picked
    /\ file_cursors t1 !! _cursor_key md5 "jsonl" source_name (path picked) = Some sz
    /\ _poll_jsonl_file md5 encodable json_loads cfg e source_name (path picked) picked
                        (_cursor_key md5 "jsonl" source_name (path picked)) now t1 = t1.
Proof.
  intros Hr Hf Hprev. unfold refresh_jsonl in Hr. rewrite Hf in Hr.
  assert (Hnew : match dict_get source_name (active_jsonl t) with
                 | Some pr => negb (String.eqb (path pr) (path picked))
                 | None => true
                 end = true).
  { destruct (dict_get source_name (active_jsonl t)) as [pr|]; [|done].
    apply negb_true_iff, String.eqb_neq. by apply Hprev. }
  rewrite Hnew in Hr.
  destruct (getsize e (path picked)) as [sz|] eqn:Hs; [|done].
  injection Hr as <-. exists sz. split; [done|].
  assert (Hc : file_cursors
                 (logging INFO ("Source active: " ++ source_name)
                    (set_cursor (_cursor_key md5 "jsonl" source_name (path picked)) sz
                       (set_active (dict_set source_name picked (active_jsonl t))
                                   (active_shell t) t)))
               !! _cursor_key md5 "jsonl" source_name (path picked) = Some sz).
  { simpl. apply lookup_insert_eq. }
  split; [simpl; apply dict_get_set_eq|]. split; [exact Hc|].
  rewrite poll_jsonl_file_protocol. by apply (tail_protocol_steady _ _ _ _ _ _ sz).
Qed.

Lemma activated_source_starts_at_end_witness :
  exists t1 sz,
    refresh_jsonl toy_md5 one_line_env fresh_tracker ("claude_code", [claude_history]) = Ok t1
    /\ file_cursors t1 !! _cursor_key toy_md5 "jsonl" "claude_code" (path claude_history)
       = Some sz.
Proof.
  eexists. 
  destruct (activated_source_starts_at_end toy_md5 any_text no_json (default_config "/home/u")
              one_line_env fresh_tracker _ "claude_code" [claude_history] claude_history
              1700000000 eq_refl eq_refl) as (sz & _ & _ & H & _); [discriminate|].
  exists sz. split; [reflexivity|exact H].
Defined.

Lemma refresh_jsonl_raises (md5 : string -> string) (e : env) (t : tracker)
      (entry : string * list jsonl_source) (x : exn) :
  refresh_jsonl md5 e t entry = Raise x -> x = OSError.
Proof.
  destruct entry as [name candidates]. unfold refresh_jsonl.
  destruct (List.find _ candidates) as [picked|].
  - destruct (match dict_get name (active_jsonl t) with Some _ => _ | None => _ end); [|done].
    destruct (getsize e (path picked)); [done|]. by intros [= <-].
  - by destruct (dict_get name (active_jsonl t)).
Qed.

Lemma refresh_jsonl_active (md5 : string -> string) (e : env) (t t1 : tracker)
      (name : string) (candidates : list jsonl_source) (other : string) :
  refresh_jsonl md5 e t (name, candidates) = Ok t1 -> other <> name ->
  dict_get other (active_jsonl t1) = dict_get other (active_jsonl t).
Proof.
  unfold refresh_jsonl. intros Hr Hne.
  destruct (List.find _ candidates) as [picked|].
  - destruct (match dict_get name (active_jsonl t) with Some _ => _ | None => _ end).
    + destruct (getsize e (path picked)); [|done]. injection Hr as <-. simpl.
      by apply dict_get_set_ne.
    + injection Hr as <-. simpl. by apply dict_get_set_ne.
  - destruct (dict_get name (active_jsonl t)); injection Hr as <-; [|done].
    simpl. by apply dict_get_del_ne.
Qed.

Lemma for_each_refresh_jsonl_fails (md5 : string -> string) (e : env) (name : string)
      (candidates : list jsonl_source) (picked : jsonl_source)
      (l : list (string * list jsonl_source)) :
  List.find (fun c => path_exists e (path c)) candidates = Some picked ->
  getsize e (path picked) = None ->
  forall t, NoDup l.*1 -> In (name, candidates) l ->
            (forall n, n ∈ l.*1 -> dict_get n (active_jsonl t) = None) ->
            for_each (refresh_jsonl md5 e) l t = Raise OSError.
Proof.
  intros Hf Hs. induction l as [|[n c] l IH]; intros t Hnd Hin Hnone; [done|].
  rewrite fmap_cons in Hnd, Hnone. apply NoDup_cons in Hnd as [Hn Hnd]. cbn [for_each].
  destruct (refresh_jsonl md5 e t (n, c)) as [t1|x] eqn:Er; cbn [bind].
  - destruct Hin as [[= -> ->]|Hin].
    + exfalso. unfold refresh_jsonl in Er. rewrite Hf, Hnone in Er; [|by left].
      by rewrite Hs in Er.
    + apply IH; [done|done|]. intros n' Hn'.
      rewrite (refresh_jsonl_active _ _ _ _ _ _ n' Er); [apply Hnone; by right|].
      intros ->. done.
  - by rewrite (refresh_jsonl_raises _ _ _ _ _ Er).
Qed.

(** X19: the size of a file picked at start-up is read without a guard: if
    the first existing candidate of some JSONL source has a size that cannot
    be read, SessionTracker() raises OSError and main never reaches its
    loop. *)
Theorem startup_fails_on_unreadable_size
        (md5 : string -> string) (cfg : Config) (e : env) (httpx_ok : bool)
        (source_name : string) (candidates : list jsonl_source) (picked : jsonl_source) :
  In (source_name, candidates) (JSONL_SOURCES cfg) ->
  List.find (fun c => path_exists e (path c)) candidates = Some picked ->
  getsize e (path picked) = None ->
  main_startup md5 cfg e httpx_ok = Raise OSError.
Proof.
  intros Hin Hf Hs. unfold main_startup, SessionTracker_init, refresh_sources.
  cbn [negb andb].
  rewrite (for_each_refresh_jsonl_fails md5 e source_name candidates picked _ Hf Hs);
    [done| |done|done].
  apply (bool_decide_unpack _). vm_compute. reflexivity.
Qed.

Lemma startup_fails_on_unreadable_size_witness :
  main_startup toy_md5 (default_config "/home/u") unreadable_env true = Raise OSError.
Proof.
  apply (startup_fails_on_unreadable_size toy_md5 (default_config "/home/u") unreadable_env
           true "codex_history"
           [ {| path := "/home/u/.codex/history.jsonl";
                sid_keys := ["session_id"; "sessionId"; "id"];
                text_keys := ["text"; "input"; "prompt"] |} ]
           {| path := "/home/u/.codex/history.jsonl";
              sid_keys := ["session_id"; "sessionId"; "id"];
              text_keys := ["text"; "input"; "prompt"] |}).
  - right. left. reflexivity.
  - reflexivity.
  - reflexivity.
Defined.

(** ** Scheduler *)

Lemma nearest_due_loop_all_exported (cfg : Config) (now : Q) (l : list (string * session)) :
  (forall sid data, In (sid, data) l -> exported data = true) ->
  forall acc, nearest_due_loop cfg now acc l = acc.
Proof.
  induction l as [|[sid data] l IH]; intros Hall acc; [done|]. simpl.
  rewrite (Hall sid data); [|by left]. apply IH. intros sid' data' Hin.
  apply (Hall sid' data'). by right.
Qed.

(** X20: after a message was recorded less than max(15, 4 *
    FAST_POLL_INTERVAL_SEC) seconds ago, the next sleep is at most
    FAST_POLL_INTERVAL_SEC. *)
Theorem recent_activity_polls_fast (cfg : Config) (e : env) (t : tracker) (d : disk) :
  ~ (_last_activity_ts t == 0)%Q ->
  (clock e - _last_activity_ts t < inject_Z (Z.max 15 (FAST_POLL_INTERVAL_SEC cfg * 4)))%Q ->
  next_sleep_interval cfg e t d <= FAST_POLL_INTERVAL_SEC cfg.
Proof.
  intros Hact Hrecent. unfold next_sleep_interval.
  assert (H1 : negb (Qeq_bool (_last_activity_ts t) 0) = true).
  { apply negb_true_iff. destruct (Qeq_bool _ 0) eqn:E; [|done].
    apply Qeq_bool_iff in E. done. }
  assert (H2 : ltb_Q (clock e - _last_activity_ts t)
                     (inject_Z (Z.max 15 (FAST_POLL_INTERVAL_SEC cfg * 4))) = true).
  { unfold ltb_Q. apply negb_true_iff. destruct (Qle_bool _ _) eqn:E; [|done].
    apply Qle_bool_iff in E. exfalso. by apply (Qlt_not_le _ _ Hrecent). }
  rewrite H1, H2. cbn [andb].
  pose proof (FAST_POLL_INTERVAL_SEC_floor cfg). lia.
Qed.

Lemma recent_activity_polls_fast_witness :
  next_sleep_interval (default_config "/home/u") quiet_env
                      (set_last_activity_ts 1699999995 fresh_tracker) empty_disk
  <= FAST_POLL_INTERVAL_SEC (default_config "/home/u").
Proof.
  apply (recent_activity_polls_fast (default_config "/home/u") quiet_env
           (set_last_activity_ts 1699999995 fresh_tracker) empty_disk).
  - vm_compute. discriminate.
  - vm_compute. reflexivity.
Defined.

(** X21: with nothing pending, every tracked session exported and no
    message recorded within the last max(15, 4 * FAST_POLL_INTERVAL_SEC)
    seconds, the next sleep is exactly max(1, POLL_INTERVAL_SEC). *)
Theorem quiet_daemon_sleeps_poll_interval (cfg : Config) (e : env) (t : tracker) (d : disk) :
  has_pending e d <> Some true ->
  (forall sid data, In (sid, data) (sessions t) -> exported data = true) ->
  (_last_activity_ts t == 0
   \/ inject_Z (Z.max 15 (FAST_POLL_INTERVAL_SEC cfg * 4)) <= clock e - _last_activity_ts t)%Q ->
  next_sleep_interval cfg e t d = Z.max 1 (POLL_INTERVAL_SEC cfg).
Proof.
  intros Hp Hall Hquiet. unfold next_sleep_interval.
  rewrite (nearest_due_loop_all_exported cfg (clock e) (sessions t) Hall).
  assert (H : negb (Qeq_bool (_last_activity_ts t) 0)
              && ltb_Q (clock e - _last_activity_ts t)
                       (inject_Z (Z.max 15 (FAST_POLL_INTERVAL_SEC cfg * 4))) = false).
  { destruct Hquiet as [H0|Hold].
    - apply Qeq_bool_iff in H0. by rewrite H0.
    - apply andb_false_iff. right. unfold ltb_Q. apply negb_false_iff.
      by apply Qle_bool_iff. }
  rewrite H.
  destruct (has_pending e d) as [[|]|]; [done|lia|lia].
Qed.

Lemma quiet_daemon_sleeps_poll_interval_witness :
  next_sleep_interval (default_config "/home/u") quiet_env
                      (set_sessions [("old", old_exported_session)] fresh_tracker) empty_disk
  = Z.max 1 (POLL_INTERVAL_SEC (default_config "/home/u")).
Proof.
  apply (quiet_daemon_sleeps_poll_interval (default_config "/home/u") quiet_env
           (set_sessions [("old", old_exported_session)] fresh_tracker) empty_disk).
  - vm_compute. discriminate.
  - intros sid data [[= <- <-]|[]]. reflexivity.
  - left. reflexivity.
Defined.

(** ** Cursor cleanup *)

Lemma string_leb_trans (a b c : string) :
  String.leb a b = true -> String.leb b c = true -> String.leb a c = true.
Proof.
  unfold String.leb. revert b c.
  induction a as [|x a IH]; intros [|y b] [|z c]; simpl; try done.
  unfold Ascii.compare.
  destruct (N.compare_spec (N_of_ascii x) (N_of_ascii y)) as [E1|E1|E1];
    destruct (N.compare_spec (N_of_ascii y) (N_of_ascii z)) as [E2|E2|E2]; try done.
  - rewrite E1, E2, N.compare_refl. apply IH.
  - intros _ _. rewrite E1. by rewrite (proj2 (N.compare_lt_iff _ _) E2).
  - intros _ _. rewrite <- E2. by rewrite (proj2 (N.compare_lt_iff _ _) E1).
  - intros _ _. by rewrite (proj2 (N.compare_lt_iff _ _) (N.lt_trans _ _ _ E1 E2)).
Qed.

Lemma lookup_delete_all (ks : list string) :
  forall (m : gmap string Z) (k : string),
    fold_left (fun m k => delete k m) ks m !! k = if decide (k ∈ ks) then None else m !! k.
Proof.
  induction ks as [|k0 ks IH]; intros m k; simpl.
  - destruct (decide (k ∈ [])) as [H|_]; [by apply elem_of_nil in H|done].
  - rewrite IH. destruct (decide (k ∈ ks)) as [Hin|Hnin].
    + rewrite decide_True; [done|by right].
    + destruct (decide (k = k0)) as [->|Hne].
      * rewrite lookup_delete_eq. rewrite decide_True; [done|by left].
      * rewrite lookup_delete_ne by done. rewrite decide_False; [done|].
        intros [?|?]%elem_of_cons; done.
Qed.

(** X22: the cursor cleanup forgets cursors and changes none: a cursor that
    is kept has the offset it had, and every key that is dropped comes, in
    the order of strings, before or at every key that is kept. *)
Theorem cleanup_cursors_drops_the_smallest_keys (cfg : Config) (t : tracker) :
  let t' := cleanup_cursors cfg t in
  (forall k v, file_cursors t' !! k = Some v -> file_cursors t !! k = Some v)
  /\ (forall k k', is_Some (file_cursors t !! k) -> file_cursors t' !! k = None ->
                   is_Some (file_cursors t' !! k') -> String.leb k k' = true)
  /\ sessions t' = sessions t.
Proof.
  intros t'. subst t'. unfold cleanup_cursors.
  destruct (Z.of_nat (size (file_cursors t)) <=? MAX_FILE_CURSORS cfg).
  { split; [done|]. split; [|done]. intros k k' [v Hv] Hn. congruence. }
  set (keys := sorted String.leb (map_to_list (file_cursors t)).*1).
  set (n := Z.to_nat (Z.max 1 (Z.of_nat (length keys) / 3))).
  cbn [file_cursors logging set_file_cursors sessions].
  assert (Hkeys : forall k, k ∈ keys <-> is_Some (file_cursors t !! k)).
  { intros k. subst keys. rewrite sorted_perm.
    rewrite list_elem_of_fmap. split.
    - intros [[k0 v] [-> Hin]]. apply elem_of_map_to_list in Hin. by eauto.
    - intros [v Hv]. exists (k, v). split; [done|]. by apply elem_of_map_to_list. }
  assert (Hsorted : StronglySorted (fun a b => String.leb a b = true) keys).
  { apply sorted_sorted; [apply String.leb_total|apply string_leb_trans]. }
  split; [|split; [|done]].
  - intros k v. rewrite lookup_delete_all. by destruct (decide _).
  - intros k k' Hk. rewrite !lookup_delete_all.
    destruct (decide (k ∈ firstn n keys)) as [Hin|Hnin].
    2:{ intros Hn. destruct Hk as [v Hv]. congruence. }
    intros _. destruct (decide (k' ∈ firstn n keys)) as [?|Hnin']; [by intros [? ?]|].
    intros Hk'. apply Hkeys in Hk'.
    rewrite <- (firstn_skipn n keys) in Hk', Hsorted.
    apply elem_of_app in Hk' as [?|Hk']; [done|].
    by apply (StronglySorted_app_1_elem_of _ _ _ _ _ Hsorted).
Qed.

(** ** Antigravity walkthroughs *)

Lemma antigravity_fold_quiet (cfg : Config) (e : env) (b : brain) (now : Q)
      (t : tracker) (d : disk) (dirs : list string) :
  forall seen : baselines,
    NoDup (basename <$> dirs) -> nothing_newer e seen dirs ->
    exists seen',
      fold_left (antigravity_dir cfg e b now) dirs (t, d, seen) = (t, d, seen')
      /\ forall sid v, dict_get sid seen = Some v -> dict_get sid seen' = Some v.
Proof.
  induction dirs as [|sdir dirs IH]; intros seen Hnd Hnew; [by exists seen|].
  rewrite fmap_cons in Hnd. apply NoDup_cons in Hnd as [Hsid Hnd].
  assert (Hrest : nothing_newer e seen dirs).
  { intros sdir' m prev wt Hin. apply Hnew. by right. }
  cbn [fold_left]. unfold antigravity_dir at 2.
  destruct (path_exists e (sdir ++ "/walkthrough.md")); cbn [negb]; [|by apply IH].
  destruct (getmtime e (sdir ++ "/walkthrough.md")) as [m|] eqn:Hm; [|by apply IH].
  destruct (dict_get (basename sdir) seen) as [[prev wt]|] eqn:Hg.
  - assert (Hle : Qle_bool m prev = true).
    { apply Qle_bool_iff. apply (Hnew sdir m prev wt); [by left|done|done]. }
    rewrite Hle. by apply IH.
  - destruct (IH (dict_set (basename sdir) (m, sdir ++ "/walkthrough.md") seen) Hnd)
      as (seen' & Hfold & Hkeep).
    + intros sdir' m' prev wt Hin Hm'. rewrite dict_get_set_ne; [by apply Hrest|].
      intros E. apply Hsid. rewrite E. apply list_elem_of_fmap. exists sdir'. split; [done|].
      by apply list_elem_of_In.
    + exists seen'. split; [done|]. intros sid v Hv. apply Hkeep.
      rewrite dict_get_set_ne; [done|]. intros <-. congruence.
Qed.

(** X23: a pass over the antigravity directory in which no walkthrough is
    newer than the baseline recorded for its session exports nothing: the
    tracker and everything outside the process stay as they were, and the
    recorded baselines stay.  A session seen for the first time only gets a
    baseline. *)
Theorem antigravity_pass_exports_only_newer
        (cfg : Config) (e : env) (b : brain) (t : tracker) (d : disk) (seen : baselines)
        (dirs : list string) :
  brain_glob b = Some dirs -> NoDup (basename <$> dirs) -> nothing_newer e seen dirs ->
  exists seen',
    poll_antigravity cfg e b (t, d, seen) = (t, d, seen')
    /\ forall sid v, dict_get sid seen = Some v -> dict_get sid seen' = Some v.
Proof.
  intros Hg Hnd Hnew. unfold poll_antigravity. rewrite Hg.
  destruct (brain_isdir b); cbn [negb]; [|by exists seen].
  by apply antigravity_fold_quiet.
Qed.

Lemma antigravity_pass_exports_only_newer_witness :
  exists seen',
    poll_antigravity (default_config "/home/u") one_line_env two_walkthroughs
                     (fresh_tracker, empty_disk, []) = (fresh_tracker, empty_disk, seen').
Proof.
  destruct (antigravity_pass_exports_only_newer (default_config "/home/u") one_line_env
              two_walkthroughs fresh_tracker empty_disk []
              [ "/home/u/.gemini/antigravity/brain/1-2-3-4-5";
                "/home/u/.gemini/antigravity/brain/6-7-8-9-0" ]) as (seen' & H & _).
  - reflexivity.
  - apply (bool_decide_unpack _). vm_compute. reflexivity.
  - intros sdir m prev wt _ _ Hg. discriminate.
  - by exists seen'.
Defined.

(** ** File names of the memory-tool script *)

Import Mcp.

Lemma greedy_total (n : nat) (p : ascii -> bool) (st : caps) (s : string) :
  forall (k : nat) (prev : option ascii) (pos : nat),
    (n <= k)%nat ->
    exists len, greedy n p (fun _ _ pos' => Some (st, pos')) k prev s pos = Some (st, len)
                /\ (pos <= len)%nat.
Proof.
  induction s as [|c s IH]; intros k prev pos Hk; simpl.
  - apply Nat.leb_le in Hk. rewrite Hk. by eauto.
  - destruct (p c).
    + destruct (IH (S k) (Some c) (S pos)) as (len & -> & Hlen); [lia|].
      exists len. split; [done|lia].
    + apply Nat.leb_le in Hk. rewrite Hk. by eauto.
Qed.

Lemma all_chars_app (p : ascii -> bool) (a b : string) :
  all_chars p (a ++ b) = all_chars p a && all_chars p b.
Proof.
  induction a as [|c a IH]; [done|]. rewrite sapp_cons. simpl. rewrite IH.
  by rewrite andb_assoc.
Qed.

Lemma all_chars_take (p : ascii -> bool) (n : nat) (s : string) :
  all_chars p s = true -> all_chars p (take n s) = true.
Proof.
  revert s. induction n as [|n IH]; intros [|c s]; simpl; try done.
  intros [Hc Hs]%andb_true_iff. rewrite Hc. by apply IH.
Qed.

(** Every run of characters of the class [p] becomes one underscore, and
    the other characters stay. *)
Lemma replace_runs_chars (p q r : ascii -> bool) :
  (forall c, r c = true -> p c = false -> q c = true) -> q "_"%char = true ->
  forall (s : string) (prev : option ascii) (skip : nat),
    all_chars r s = true ->
    all_chars q (sub_scan [Many 1 p] [Lit "_"] prev s skip) = true.
Proof.
  intros Hkeep Hu. induction s as [|c s IH]; intros prev skip Hr.
  - simpl. by destruct skip.
  - simpl in Hr. apply andb_true_iff in Hr as [Hc Hr].
    cbn [sub_scan]. destruct skip as [|k]; [|by apply IH].
    cbn [match_here greedy]. destruct (p c) eqn:Hp.
    + destruct (greedy_total 1 p no_caps s 1 (Some c) 1) as (len & -> & Hlen); [lia|].
      destruct len as [|len]; [lia|].
      cbn [expand]. rewrite all_chars_app. simpl. rewrite Hu. simpl. by apply IH.
    + simpl. rewrite (Hkeep c Hc Hp). by apply IH.
Qed.

Lemma str_lower_no_capitals (s : string) :
  all_chars (fun c => negb ((65 <=? N_of_ascii c) && (N_of_ascii c <=? 90))%N) (str_lower s)
  = true.
Proof.
  induction s as [|c s IH]; [done|]. simpl. rewrite IH, andb_true_r.
  by destruct c as [[] [] [] [] [] [] [] []].
Qed.

Lemma all_chars_lstrip_chars (q : ascii -> bool) (cs s : string) :
  all_chars q s = true -> all_chars q (lstrip_chars cs s) = true.
Proof.
  induction s as [|c s IH]; [done|]. simpl. intros H.
  destruct (one_of cs c); [|done]. apply IH. by apply andb_true_iff in H as [_ ?].
Qed.

Lemma all_chars_rstrip_chars (q : ascii -> bool) (cs s : string) :
  all_chars q s = true -> all_chars q (rstrip_chars cs s) = true.
Proof.
  induction s as [|c s IH]; [done|]. simpl. intros [Hc Hs]%andb_true_iff.
  specialize (IH Hs). destruct (rstrip_chars cs s).
  - destruct (one_of cs c); [done|]. simpl. by rewrite Hc.
  - simpl in *. by rewrite Hc.
Qed.

Lemma lstrip_chars_head (cs s : string) :
  match lstrip_chars cs s with
  | String c _ => one_of cs c = false
  | EmptyString => True
  end.
Proof.
  induction s as [|c s IH]; [done|]. simpl. by destruct (one_of cs c) eqn:E; [|simpl].
Qed.

Lemma rstrip_chars_head (cs s : string) :
  match rstrip_chars cs s with
  | String c _ => head s = Some c
  | EmptyString => True
  end.
Proof.
  destruct s as [|c s]; [done|]. simpl. destruct (rstrip_chars cs s); [|done].
  by destruct (one_of cs c).
Qed.

(** X24: the file name made from a title is never empty, has at most 120
    characters, consists of lower-case ASCII letters, digits, dots,
    underscores and hyphens only - so it holds no path separator - and does
    not begin with a dot, an underscore or a hyphen. *)
Theorem safe_filename_is_plain (value : string) :
  all_chars plain_char (_safe_filename value) = true
  /\ (1 <= String.length (_safe_filename value) <= 120)%nat
  /\ match _safe_filename value with
     | String c _ => one_of "._-" c = false
     | EmptyString => False
     end.
Proof.
  unfold _safe_filename.
  set (s1 := sub _ _ _).
  assert (H1 : all_chars plain_char s1 = true).
  { apply (replace_runs_chars _ _
             (fun c => negb ((65 <=? N_of_ascii c) && (N_of_ascii c <=? 90))%N));
      [|done|apply str_lower_no_capitals].
    intros c. by destruct c as [[] [] [] [] [] [] [] []]. }
  set (s2 := strip_chars "._-" s1).
  assert (H2 : all_chars plain_char s2 = true).
  { by apply all_chars_rstrip_chars, all_chars_lstrip_chars. }
  assert (H3 : match s2 with String c _ => one_of "._-" c = false | EmptyString => True end).
  { subst s2. unfold strip_chars.
    pose proof (lstrip_chars_head "._-" s1) as Hl.
    pose proof (rstrip_chars_head "._-" (lstrip_chars "._-" s1)) as Hr.
    destruct (rstrip_chars "._-" (lstrip_chars "._-" s1)) as [|c r]; [done|].
    destruct (lstrip_chars "._-" s1) as [|c' l]; [done|]. simpl in Hr. congruence. }
  clearbody s2. clear H1. clearbody s1.
  destruct s2 as [|c s2]; [simpl; repeat split; try done; lia|].
  cbn [nonempty String.eqb negb].
  change (take 120 (String c s2)) with (String c (take 119 s2)). split; [|split].
  - cbn [all_chars] in H2 |- *. apply andb_true_iff in H2 as [-> H2].
    by apply all_chars_take.
  - cbn [String.length]. pose proof (take_length 119 s2). lia.
  - done.
Qed.

(** ** Completed passes *)

Lemma tail_protocol_completed (e : env) (p key : string)
      (body : string -> tracker -> tracker * option exn) (blame : string) (t : tracker) (sz : Z) :
  (forall line t, same_books t (body line t).1) ->
  getsize e p = Some sz ->
  resume_offset (file_cursors t !! key) sz < sz ->
  (read_lines_from e p (resume_offset (file_cursors t !! key) sz) body t).2 = None ->
  let t' := tail_protocol e p key body blame t in
  t' = set_cursor key sz
         (read_lines_from e p (resume_offset (file_cursors t !! key) sz) body t).1
  /\ file_cursors t' = <[key := sz]> (file_cursors t)
  /\ _error_count t' = _error_count t
  /\ log t' = log t.
Proof.
  intros Hbody Hs Hoff Hdone t'. subst t'. unfold tail_protocol. rewrite Hs.
  cbv zeta. apply Z.leb_gt in Hoff. rewrite Hoff.
  pose proof (read_lines_from_books e p (resume_offset (file_cursors t !! key) sz) body t Hbody)
    as (Hc & He & Hl).
  destruct (read_lines_from e p _ body t) as [t1 o]. simpl in *. subst o.
  split; [done|]. simpl. by rewrite Hc.
Qed.

(** X25: a pass that finds the file longer than the offset it resumes from
    and reads it to the end without an exception ends with the cursor at
    the size measured before the read, and counts and logs no error, for
    each of the three tailers; of the cursor table only that entry
    changes. *)
Theorem completed_pass_moves_cursor_to_size
        (md5 : string -> string) (encodable : string -> bool)
        (json_loads : string -> result json) (cfg : Config)
        (e : env) (now : Q) (t : tracker) (p : string) (sz : Z) :
  getsize e p = Some sz ->
  (forall source_name src key,
      resume_offset (file_cursors t !! key) sz < sz ->
      (read_lines_from e p (resume_offset (file_cursors t !! key) sz)
                       (jsonl_line md5 encodable json_loads cfg source_name src now) t).2 = None ->
      let t' := _poll_jsonl_file md5 encodable json_loads cfg e source_name p src key now t in
      file_cursors t' = <[key := sz]> (file_cursors t)
      /\ _error_count t' = _error_count t /\ log t' = log t)
  /\ (forall source_name,
         let key := _cursor_key md5 "shell" source_name p in
         resume_offset (file_cursors t !! key) sz < sz ->
         (read_lines_from e p (resume_offset (file_cursors t !! key) sz)
                          (shell_line md5 encodable cfg e source_name now) t).2 = None ->
         let t' := poll_shell_file md5 encodable cfg e source_name p now t in
         file_cursors t' = <[key := sz]> (file_cursors t)
         /\ _error_count t' = _error_count t /\ log t' = log t)
  /\ (forall m,
         let key := _cursor_key md5 "codex_session" "codex_session" p in
         getmtime e p = Some m -> ltb_Q m (now - 3600) = false ->
         resume_offset (file_cursors t !! key) sz < sz ->
         (read_lines_from e p (resume_offset (file_cursors t !! key) sz)
                          (codex_line md5 encodable json_loads cfg p now) t).2 = None ->
         let t' := poll_codex_file md5 encodable json_loads cfg e p now t in
         file_cursors t' = <[key := sz]> (file_cursors t)
         /\ _error_count t' = _error_count t /\ log t' = log t).
Proof.
  intros Hs. split; [|split].
  - intros source_name src key Hoff Hdone t'. subst t'. rewrite poll_jsonl_file_protocol.
    by destruct (tail_protocol_completed e p key _
                   ("poll_jsonl_sources(" ++ source_name ++ ")") t sz
                   (jsonl_line_books md5 encodable json_loads cfg source_name src now) Hs Hoff Hdone)
      as (_ & ? & ? & ?).
  - intros source_name key Hoff Hdone t'. subst t'. rewrite poll_shell_file_protocol.
    by destruct (tail_protocol_completed e p key _
                   ("poll_shell_sources(" ++ source_name ++ ")") t sz
                   (shell_line_books md5 encodable cfg e source_name now) Hs Hoff Hdone)
      as (_ & ? & ? & ?).
  - intros m key Hm Hrecent Hoff Hdone t'. subst t'.
    rewrite (poll_codex_file_protocol _ _ _ _ _ _ _ m) by done.
    by destruct (tail_protocol_completed e p key _
                   ("poll_codex_sessions(" ++ p ++ ")") t sz
                   (codex_line_books md5 encodable json_loads cfg p now) Hs Hoff Hdone)
      as (_ & ? & ? & ?).
Qed.

Lemma completed_pass_moves_cursor_to_size_witness :
  file_cursors (_poll_jsonl_file toy_md5 any_text no_json (default_config "/home/u") one_line_env
                  "claude_code" (path claude_history) claude_history
                  (_cursor_key toy_md5 "jsonl" "claude_code" (path claude_history))
                  1700000000
                  (set_cursor (_cursor_key toy_md5 "jsonl" "claude_code" (path claude_history))
                              2 fresh_tracker))
  = <[_cursor_key toy_md5 "jsonl" "claude_code" (path claude_history) := 5]>
      (file_cursors (set_cursor (_cursor_key toy_md5 "jsonl" "claude_code"
                                             (path claude_history)) 2 fresh_tracker)).
Proof.
  destruct (completed_pass_moves_cursor_to_size toy_md5 any_text no_json (default_config "/home/u")
              one_line_env 1700000000
              (set_cursor (_cursor_key toy_md5 "jsonl" "claude_code" (path claude_history))
                          2 fresh_tracker)
              (path claude_history) 5 eq_refl) as (H & _).
  destruct (H "claude_code" claude_history
              (_cursor_key toy_md5 "jsonl" "claude_code" (path claude_history)))
    as (Hc & _); [vm_compute; reflexivity|vm_compute; reflexivity|exact Hc].
Defined.

(** * Redaction finds nothing to mask in its own output *)

Import Redaction.

(** ** More about strings *)

Lemma sapp_inv_head (a b c : string) : a ++ b = a ++ c -> b = c.
Proof. induction a as [|x a IH]; [done|]. rewrite !sapp_cons. intros [= H]. by apply IH. Qed.

Lemma sapp_eq_nil (a b : string) : a ++ b = EmptyString -> a = EmptyString /\ b = EmptyString.
Proof. destruct a; [done|]. rewrite sapp_cons. discriminate. Qed.

(** Two ways of cutting one string: one cut comes first. *)
Lemma sapp_eq_app (a b c d : string) :
  a ++ b = c ++ d ->
  (exists m, c = a ++ m /\ b = m ++ d) \/ (exists m, a = c ++ m /\ d = m ++ b).
Proof.
  revert c. induction a as [|x a IH]; intros c H.
  - left. by exists c.
  - destruct c as [|y c].
    + right. by exists (String x a).
    + rewrite !sapp_cons in H. injection H as -> H.
      destruct (IH c H) as [(m & -> & ->)|(m & -> & ->)].
      * left. by exists m.
      * right. by exists m.
Qed.

Lemma sapp_same_length (a b c d : string) :
  a ++ b = c ++ d -> String.length a = String.length c -> a = c /\ b = d.
Proof.
  revert c. induction a as [|x a IH]; intros [|y c] H Hl; try done.
  rewrite !sapp_cons in H. injection H as -> H. injection Hl as Hl.
  by destruct (IH c H Hl) as [-> ->].
Qed.

Lemma sapp_inv_tail (a b c : string) : a ++ c = b ++ c -> a = b.
Proof.
  intros H. apply sapp_same_length in H; [by destruct H|].
  apply (f_equal String.length) in H. rewrite !slength_app in H. lia.
Qed.

Lemma take_drop (n : nat) (s : string) : take n s ++ drop n s = s.
Proof.
  revert s. induction n as [|n IH]; intros [|c s]; try done.
  simpl. rewrite sapp_cons. by rewrite IH.
Qed.

Lemma take_length_le (n : nat) (s : string) :
  (n <= String.length s)%nat -> String.length (take n s) = n.
Proof.
  revert s. induction n as [|n IH]; intros [|c s]; simpl; intros H; try done; try lia.
  rewrite IH; [done|lia].
Qed.

Lemma take_app_le (n : nat) (a b : string) :
  (n <= String.length a)%nat -> take n (a ++ b) = take n a.
Proof.
  revert a. induction n as [|n IH]; intros [|c a] H; simpl in *; try done; try lia.
  all: try (by destruct b).
  rewrite IH; [done|lia].
Qed.

Lemma last_char_app (a b : string) (prev : option ascii) :
  last_char (a ++ b) prev = last_char b (last_char a prev).
Proof.
  revert prev. induction a as [|x a IH]; intros prev; [done|]. rewrite sapp_cons. apply IH.
Qed.

Lemma last_char_nonempty (a : string) (p q : option ascii) :
  a <> EmptyString -> last_char a p = last_char a q.
Proof. by destruct a. Qed.

Lemma last_char_is_some (a : string) (p : option ascii) :
  a <> EmptyString -> exists c, last_char a p = Some c.
Proof.
  revert p. induction a as [|x a IH]; intros p H; [done|]. simpl.
  destruct a as [|y a]; [by eauto|]. by apply IH.
Qed.

Lemma head_app (a b : string) : a <> EmptyString -> head (a ++ b) = head a.
Proof. by destruct a. Qed.

Lemma stops_head (p : ascii -> bool) (a b : string) : head a = head b -> stops p a -> stops p b.
Proof. destruct a, b; simpl; try done. by intros [= ->]. Qed.

Lemma stops_app (p : ascii -> bool) (a b : string) :
  a <> EmptyString -> stops p (a ++ b) <-> stops p a.
Proof. by destruct a. Qed.

(** A run of a class followed by a stop is the span of the class. *)
Lemma span_run (p : ascii -> bool) (r rest : string) :
  all_chars p r = true -> stops p rest -> span p (r ++ rest) = (r, rest).
Proof.
  induction r as [|c r IH].
  - intros _ Hs. destruct rest as [|d rest]; simpl in *; [done|]. by rewrite Hs.
  - rewrite sapp_cons. simpl. intros [Hc Hr]%andb_prop Hs. by rewrite Hc, IH.
Qed.

Lemma span_spec (p : ascii -> bool) (s : string) :
  s = (span p s).1 ++ (span p s).2
  /\ all_chars p (span p s).1 = true /\ stops p (span p s).2.
Proof.
  induction s as [|c s IH]; [done|]. simpl.
  destruct (p c) eqn:E.
  - destruct (span p s) as [a b]. simpl in *. destruct IH as (-> & Ha & Hb).
    by rewrite E, Ha.
  - simpl. by rewrite E.
Qed.

Lemma run_unique (p : ascii -> bool) (r1 r2 t1 t2 : string) :
  all_chars p r1 = true -> stops p t1 -> all_chars p r2 = true -> stops p t2 ->
  r1 ++ t1 = r2 ++ t2 -> r1 = r2 /\ t1 = t2.
Proof.
  intros H1 S1 H2 S2 E.
  pose proof (span_run p r1 t1 H1 S1) as A. pose proof (span_run p r2 t2 H2 S2) as B.
  rewrite E in A. rewrite A in B. by injection B.
Qed.

Lemma all_chars_weaken (p q : ascii -> bool) (s : string) :
  (forall c, p c = true -> q c = true) -> all_chars p s = true -> all_chars q s = true.
Proof.
  intros H. induction s as [|c s IH]; [done|]. simpl.
  intros [Hc Hs]%andb_prop. by rewrite (H c Hc), IH.
Qed.

Lemma nostar_app (a b : string) : nostar (a ++ b) <-> nostar a /\ nostar b.
Proof. unfold nostar. by rewrite all_chars_app, andb_true_iff. Qed.

Lemma nostar_stars_prefix (a b c d : string) :
  nostar a -> a ++ b = c ++ stars ++ d -> exists m, c = a ++ m.
Proof.
  intros Ha E. destruct (sapp_eq_app _ _ _ _ E) as [(m & -> & _)|(m & -> & Hm)]; [by eauto|].
  destruct m as [|x m]; [exists EmptyString; by rewrite !sapp_nil_r|].
  apply nostar_app in Ha as [_ Ha]. unfold stars in Hm. rewrite !sapp_cons in Hm.
  injection Hm as <- _. unfold nostar in Ha. simpl in Ha. done.
Qed.

(** ** Greedy quantifiers without backtracking *)

(** When the rest of the pattern cannot start with a character of the
    class, a greedy quantifier takes the whole run or fails. *)
Lemma greedy_span_fail (n : nat) (p : ascii -> bool)
      (cont : option ascii -> string -> nat -> option (caps * nat)) :
  (forall prev c s pos, p c = true -> cont prev (String c s) pos = None) ->
  forall (s : string) (k : nat) (prev : option ascii) (pos : nat),
    greedy n p cont k prev s pos
    = if (n <=? k + String.length (span p s).1)%nat
      then cont (last_char (span p s).1 prev) (span p s).2 (pos + String.length (span p s).1)%nat
      else None.
Proof.
  intros Hfail. induction s as [|c s IH]; intros k prev pos; simpl.
  - by rewrite !Nat.add_0_r.
  - destruct (p c) eqn:Hp.
    + rewrite IH. destruct (span p s) as [a b]. simpl.
      rewrite (Hfail prev c s pos Hp).
      replace (k + S (String.length a))%nat with (S (k + String.length a)) by lia.
      replace (pos + S (String.length a))%nat with (S (pos + String.length a)) by lia.
      destruct (n <=? S (k + String.length a))%nat; [|by destruct (n <=? k)%nat].
      destruct (cont (last_char a (Some c)) b (S (pos + String.length a))); [done|].
      by destruct (n <=? k)%nat.
    + simpl. by rewrite !Nat.add_0_r.
Qed.

(** When the rest of the pattern matches wherever it is tried, a greedy
    quantifier takes the whole run. *)
Lemma greedy_span_total (n : nat) (p : ascii -> bool)
      (cont : option ascii -> string -> nat -> option (caps * nat)) :
  (forall prev s pos, cont prev s pos <> None) ->
  forall (s : string) (k : nat) (prev : option ascii) (pos : nat),
    greedy n p cont k prev s pos
    = if (n <=? k + String.length (span p s).1)%nat
      then cont (last_char (span p s).1 prev) (span p s).2 (pos + String.length (span p s).1)%nat
      else None.
Proof.
  intros Htot. induction s as [|c s IH]; intros k prev pos; simpl.
  - by rewrite !Nat.add_0_r.
  - destruct (p c) eqn:Hp.
    + rewrite IH. destruct (span p s) as [a b]. simpl.
      replace (k + S (String.length a))%nat with (S (k + String.length a)) by lia.
      replace (pos + S (String.length a))%nat with (S (pos + String.length a)) by lia.
      destruct (n <=? S (k + String.length a))%nat eqn:E.
      * specialize (Htot (last_char a (Some c)) b (S (pos + String.length a))).
        by destruct (cont (last_char a (Some c)) b (S (pos + String.length a))).
      * apply Nat.leb_gt in E. destruct (n <=? k)%nat eqn:E'; [|done].
        apply Nat.leb_le in E'. lia.
    + simpl. by rewrite !Nat.add_0_r.
Qed.

(** ** Keywords *)

Lemma lits_i_cons (c : ascii) (w : string) : lits_i (String c w) = lit_i c :: lits_i w.
Proof. reflexivity. Qed.

Lemma match_lits_i (w : string) :
  forall (r : list item) (prev : option ascii) (y : string) (pos : nat) (st : caps),
    match_here (lits_i w ++ r) prev y pos st
    = if prefix_i w y
      then match_here r (last_char (take (String.length w) y) prev)
                      (drop (String.length w) y) (pos + String.length w)%nat st
      else None.
Proof.
  induction w as [|c w IH]; intros r prev y pos st.
  - simpl. rewrite Nat.add_0_r. by destruct y.
  - rewrite lits_i_cons. cbn [app match_here lit_i]. destruct y as [|x y]; [done|].
    cbn [prefix_i]. destruct (Ascii.eqb (lower x) (lower c)); [|done].
    rewrite IH. cbn [andb String.length take drop last_char].
    by replace (S pos + String.length w)%nat with (pos + S (String.length w))%nat by lia.
Qed.


Lemma kw_ok_lits_i (w : string) : kw_ok (lits_i w) [w].
Proof.
  intros r prev y pos st. rewrite match_lits_i. simpl. by destruct (prefix_i w y).
Qed.

Lemma lower_is_underscore (c : ascii) :
  Ascii.eqb (lower c) "_" = Ascii.eqb "_" c.
Proof. by destruct c as [[] [] [] [] [] [] [] []]. Qed.

Lemma lower_is_hyphen (c : ascii) :
  Ascii.eqb (lower c) "-" = Ascii.eqb "-" c.
Proof. by destruct c as [[] [] [] [] [] [] [] []]. Qed.

Lemma lower_k_not_joiner (c : ascii) :
  one_of "_-" c = true -> Ascii.eqb (lower c) "k" = false.
Proof. by destruct c as [[] [] [] [] [] [] [] []]. Qed.

Lemma prefix_i_cons (c x : ascii) (w y : string) :
  prefix_i (String c w) (String x y) = Ascii.eqb (lower x) (lower c) && prefix_i w y.
Proof. reflexivity. Qed.

Lemma prefix_i_nil (y : string) : prefix_i EmptyString y = true.
Proof. reflexivity. Qed.

Lemma kw_ok_api_key :
  kw_ok (lits_i "api" ++ [Opt (one_of "_-")] ++ lits_i "key") alts_api_key.
Proof.
  intros r prev y pos st. rewrite <- !app_assoc. rewrite match_lits_i.
  unfold alts_api_key. cbn [klen].
  destruct y as [|a1 [|a2 [|a3 y3]]]; try done.
  1-2: by rewrite ?prefix_i_cons; repeat (destruct (Ascii.eqb _ _); cbn [andb]; try done).
  destruct y3 as [|c y4].
  { rewrite !prefix_i_cons. cbn [app match_here String.length take drop last_char].
    rewrite match_lits_i.
    by repeat (destruct (Ascii.eqb _ _); cbn [andb]; try done). }
  rewrite !prefix_i_cons.
  change (lower "_") with "_"%char. change (lower "-") with "-"%char.
  change (lower "k") with "k"%char.
  rewrite lower_is_underscore, lower_is_hyphen.
  destruct (Ascii.eqb (lower a1) (lower "a")); cbn [andb]; [|done].
  destruct (Ascii.eqb (lower a2) (lower "p")); cbn [andb]; [|done].
  destruct (Ascii.eqb (lower a3) (lower "i")); cbn [andb]; [|done].
  cbn [app match_here String.length take drop last_char one_of].
  rewrite orb_false_r. rewrite !match_lits_i. rewrite !prefix_i_cons, !prefix_i_nil.
  change (lower "k") with "k"%char.
  set (A := prefix_i "key" y4). set (B := prefix_i "ey" y4).
  cbn [String.length].
  destruct (Ascii.eqb "_" c) eqn:E1; [|destruct (Ascii.eqb "-" c) eqn:E2]; cbn [orb andb].
  - rewrite lower_k_not_joiner by (cbn [one_of]; by rewrite E1).
    cbn [andb]. destruct A; [|by rewrite ?andb_false_r]. cbn [take drop last_char].
    replace (S (pos + 3) + 3)%nat with (pos + 7)%nat by lia.
    by destruct (match_here r _ _ _ st).
  - rewrite lower_k_not_joiner by (cbn [one_of]; by rewrite E2, orb_true_r).
    cbn [andb]. destruct A; [|by rewrite ?andb_false_r]. cbn [take drop last_char].
    replace (S (pos + 3) + 3)%nat with (pos + 7)%nat by lia.
    by destruct (match_here r _ _ _ st).
  - destruct (Ascii.eqb (lower c) "k" && B); [|done]. cbn [take drop last_char].
    by replace (pos + 3 + 3)%nat with (pos + 6)%nat by lia.
Qed.

(** ** What the patterns find *)

Lemma space_not_sep (c : ascii) : isspace c = true -> one_of "=:" c = false.
Proof. by destruct c as [[] [] [] [] [] [] [] []]. Qed.

Lemma space_not_secret (c : ascii) : isspace c = true -> not_space_or_quote c = false.
Proof. unfold not_space_or_quote. by intros ->. Qed.

Lemma drop_0 (y : string) : drop 0 y = y.
Proof. by destruct y. Qed.

Lemma hit_assignment (KW : list item) (alts : list string) :
  kw_ok KW alts ->
  forall (prev : option ascii) (y : string),
    hit (assignment_pattern KW) [Ref 1; Lit "***"] prev y = hit_assign alts y.
Proof.
  intros Hkw prev y. unfold hit, assignment_pattern, hit_assign.
  cbn [app match_here]. rewrite Hkw.
  destruct (klen alts y) as [k|]; [|done].
  cbn [match_here].
  rewrite greedy_span_fail.
  2:{ intros prev' c s pos Hc. cbn [match_here]. by rewrite (space_not_sep c Hc). }
  destruct (span isspace (drop k y)) as [w1 y2]. cbn [fst snd Nat.leb].
  destruct y2 as [|c y3]; [done|]. cbn [match_here].
  destruct (one_of "=:" c); [|done].
  rewrite greedy_span_fail.
  2:{ intros prev' c' s pos Hc. cbn [match_here greedy]. by rewrite (space_not_secret c' Hc). }
  destruct (span isspace y3) as [w2 y4]. cbn [fst snd Nat.leb match_here].
  rewrite greedy_span_total by done.
  destruct (span not_space_or_quote y4) as [R rest]. cbn [fst snd].
  destruct R as [|r0 R]; [done|].
  cbn [String.length Nat.add Nat.leb match_here].
  unfold group_text, close_group, open_group. cbn [expand opened closed assoc Nat.eqb].
  unfold group_text. cbn [closed assoc Nat.eqb]. rewrite Nat.sub_0_r, drop_0.
  replace (k + String.length w1 + 1 + String.length w2)%nat
    with (S (k + String.length w1 + String.length w2)) by lia.
  reflexivity.
Qed.

Lemma hit_flag_pattern (flag : string) :
  forall (prev : option ascii) (y : string),
    hit (flag_pattern flag) [Ref 1; Lit "***"] prev y = hit_flag [flag] y.
Proof.
  intros prev y. unfold hit, flag_pattern, hit_flag.
  cbn [app match_here]. rewrite (kw_ok_lits_i flag).
  destruct (klen [flag] y) as [k|]; [|done].
  cbn [match_here].
  rewrite greedy_span_fail.
  2:{ intros prev' c s pos Hc. cbn [match_here greedy]. unfold not_space. by rewrite Hc. }
  destruct (span isspace (drop k y)) as [w y2]. cbn [fst snd].
  destruct w as [|w0 w].
  { cbn [String.length Nat.add Nat.leb]. by destruct (span not_space y2). }
  cbn [String.length Nat.add Nat.leb match_here].
  rewrite greedy_span_total by done.
  destruct (span not_space y2) as [R rest]. cbn [fst snd].
  destruct R as [|r0 R]; [done|].
  cbn [String.length Nat.add Nat.leb match_here].
  unfold group_text, close_group, open_group. cbn [expand opened closed assoc Nat.eqb].
  unfold group_text. cbn [closed assoc Nat.eqb]. rewrite Nat.sub_0_r, drop_0.
  reflexivity.
Qed.

(** ** Keywords, letter case apart *)

Lemma prefix_i_length (w y : string) :
  prefix_i w y = true -> (String.length w <= String.length y)%nat.
Proof.
  revert y. induction w as [|c w IH]; intros [|x y]; simpl; try done; try lia.
  intros [_ H]%andb_prop. apply IH in H. lia.
Qed.

Lemma prefix_i_take (w y : string) :
  prefix_i w y = true -> prefix_i w (take (String.length w) y) = true.
Proof.
  revert y. induction w as [|c w IH]; intros [|x y]; simpl; try done.
  intros [-> H]%andb_prop. by apply IH.
Qed.

Lemma prefix_i_app_r (w kw z : string) :
  prefix_i w kw = true -> prefix_i w (kw ++ z) = true.
Proof.
  revert kw. induction w as [|c w IH]; intros [|x kw]; simpl; try done.
  intros [-> H]%andb_prop. rewrite ?sapp_cons. simpl. by apply IH.
Qed.

Lemma prefix_i_app_inv (w kw z : string) :
  prefix_i w (kw ++ z) = true -> (String.length w <= String.length kw)%nat ->
  prefix_i w kw = true.
Proof.
  revert kw. induction w as [|c w IH]; intros [|x kw]; simpl; try done; try lia.
  rewrite ?sapp_cons. simpl. intros [-> H]%andb_prop Hl. apply IH; [done|lia].
Qed.

(** Two keywords that one text starts with agree as far as the shorter
    one goes. *)
Lemma prefix_i_common (w1 w2 y : string) :
  prefix_i w1 y = true -> prefix_i w2 y = true ->
  (String.length w1 <= String.length w2)%nat -> prefix_i w1 w2 = true.
Proof.
  revert w2 y. induction w1 as [|c1 w1 IH]; intros [|c2 w2] [|x y]; simpl; try done; try lia.
  intros [E1 H1]%andb_prop [E2 H2]%andb_prop Hl.
  apply Ascii.eqb_eq in E1, E2. rewrite <- E2, E1, Ascii.eqb_refl. simpl.
  apply (IH w2 y); [done|done|lia].
Qed.

(** What is left of a keyword after the first characters of the text. *)
Lemma prefix_i_drop (w a b : string) :
  prefix_i w (a ++ b) = true -> (String.length a <= String.length w)%nat ->
  prefix_i (drop (String.length a) w) b = true.
Proof.
  revert w. induction a as [|x a IH]; intros w H Hl.
  - by rewrite drop_0.
  - destruct w as [|c w]; [simpl in Hl; lia|]. rewrite ?sapp_cons in H. simpl in *.
    apply andb_prop in H as [_ H]. apply IH; [done|lia].
Qed.

Lemma klen_sound (alts : list string) (y : string) (k : nat) :
  klen alts y = Some k ->
  exists w, In w alts /\ k = String.length w /\ prefix_i w y = true.
Proof.
  induction alts as [|w alts IH]; [done|]. simpl.
  destruct (prefix_i w y) eqn:E.
  - intros [= <-]. exists w. by eauto.
  - intros H. destruct (IH H) as (w' & ? & ? & ?). exists w'. by eauto.
Qed.

Lemma klen_finds (alts : list string) (w y : string) :
  In w alts -> prefix_i w y = true -> klen alts y <> None.
Proof.
  induction alts as [|w0 alts IH]; [done|]. simpl. intros [->|Hin] Hp.
  - by rewrite Hp.
  - destruct (prefix_i w0 y); [done|]. by apply IH.
Qed.


Lemma klen_complete (alts : list string) (kw z : string) :
  compatible alts -> iskw alts kw -> klen alts (kw ++ z) = Some (String.length kw).
Proof.
  intros Hc (w2 & Hin2 & Hl2 & Hp2).
  destruct (klen alts (kw ++ z)) as [k|] eqn:E.
  - destruct (klen_sound _ _ _ E) as (w1 & Hin1 & -> & Hp1). f_equal.
    pose proof (prefix_i_app_r _ _ z Hp2) as Hp2'.
    destruct (Nat.le_ge_cases (String.length w1) (String.length w2)) as [Hle|Hle].
    + rewrite (Hc w1 w2 Hin1 Hin2); [done|]. by apply (prefix_i_common _ _ (kw ++ z)).
    + rewrite <- (Hc w2 w1 Hin2 Hin1); [done|]. by apply (prefix_i_common _ _ (kw ++ z)).
  - exfalso. apply (klen_finds alts w2 (kw ++ z)); [done| |done]. by apply prefix_i_app_r.
Qed.

Lemma klen_iskw (alts : list string) (y : string) (k : nat) :
  klen alts y = Some k ->
  iskw alts (take k y) /\ String.length (take k y) = k.
Proof.
  intros (w & Hin & -> & Hp)%klen_sound.
  pose proof (prefix_i_length _ _ Hp) as Hl.
  pose proof (take_length_le _ _ Hl) as Ht.
  split; [|done]. exists w. split; [done|]. split; [done|]. by apply prefix_i_take.
Qed.

Lemma kwchar_lower (c : ascii) : kwchar (lower c) = kwchar c.
Proof. by destruct c as [[] [] [] [] [] [] [] []]. Qed.

Lemma kwchar_fold (x c : ascii) :
  Ascii.eqb (lower x) (lower c) = true -> kwchar c = true -> kwchar x = true.
Proof.
  intros E%Ascii.eqb_eq H. by rewrite <- kwchar_lower, E, kwchar_lower.
Qed.

Lemma kwchar_not_space (c : ascii) : kwchar c = true -> isspace c = false.
Proof. by destruct c as [[] [] [] [] [] [] [] []]. Qed.

Lemma kwchar_not_sep (c : ascii) : kwchar c = true -> one_of "=:" c = false.
Proof. by destruct c as [[] [] [] [] [] [] [] []]. Qed.

Lemma kwchar_not_star (c : ascii) : kwchar c = true -> Ascii.eqb c star = false.
Proof. by destruct c as [[] [] [] [] [] [] [] []]. Qed.

Lemma kwchar_secret (c : ascii) : kwchar c = true -> not_space_or_quote c = true.
Proof. by destruct c as [[] [] [] [] [] [] [] []]. Qed.

Lemma space_not_star (c : ascii) : isspace c = true -> Ascii.eqb c star = false.
Proof. by destruct c as [[] [] [] [] [] [] [] []]. Qed.

Lemma sep_not_star (c : ascii) : one_of "=:" c = true -> Ascii.eqb c star = false.
Proof. by destruct c as [[] [] [] [] [] [] [] []]. Qed.

Lemma sep_not_space (c : ascii) : one_of "=:" c = true -> isspace c = false.
Proof. by destruct c as [[] [] [] [] [] [] [] []]. Qed.

Lemma sep_secret (c : ascii) : one_of "=:" c = true -> not_space_or_quote c = true.
Proof. by destruct c as [[] [] [] [] [] [] [] []]. Qed.

Lemma secret_not_space (c : ascii) : not_space_or_quote c = true -> not_space c = true.
Proof. by destruct c as [[] [] [] [] [] [] [] []]. Qed.

Lemma star_secret : not_space_or_quote star = true.
Proof. reflexivity. Qed.

Lemma prefix_i_kwchars (w kw : string) :
  prefix_i w kw = true -> String.length kw = String.length w ->
  all_chars kwchar w = true -> all_chars kwchar kw = true.
Proof.
  revert kw. induction w as [|c w IH]; intros [|x kw]; simpl; try done.
  intros [E H]%andb_prop [= Hl] [Hc Hw]%andb_prop.
  by rewrite (kwchar_fold x c E Hc), (IH kw).
Qed.

Lemma iskw_chars (alts : list string) (kw : string) :
  plain_alts alts -> iskw alts kw -> kw <> EmptyString /\ all_chars kwchar kw = true.
Proof.
  intros Hp (w & Hin & Hl & Hpre). destruct (Hp w Hin) as [Hne Hw]. split.
  - intros ->. by destruct w.
  - by apply (prefix_i_kwchars w).
Qed.

(** ** The matches of the five rules that keep a prefix *)

Lemma hit_assign_sound (alts : list string) (y e : string) (len : nat) :
  hit_assign alts y = Some (e, len) ->
  exists Q R rest,
    y = Q ++ R ++ rest /\ pre_assign alts Q /\ R <> EmptyString
    /\ all_chars not_space_or_quote R = true /\ stops not_space_or_quote rest
    /\ e = Q ++ stars /\ len = (String.length Q + String.length R)%nat.
Proof.
  unfold hit_assign. destruct (klen alts y) as [k|] eqn:Ek; [|done].
  destruct (klen_iskw _ _ _ Ek) as [Hkw Hk].
  pose proof (span_spec isspace (drop k y)) as (E1 & Hw1 & _).
  destruct (span isspace (drop k y)) as [w1 y2]. simpl in E1, Hw1.
  destruct y2 as [|c y3]; [done|]. destruct (one_of "=:" c) eqn:Hc; [|done].
  pose proof (span_spec isspace y3) as (E2 & Hw2 & _).
  destruct (span isspace y3) as [w2 y4]. simpl in E2, Hw2.
  pose proof (span_spec not_space_or_quote y4) as (E3 & HR & Hrest).
  destruct (span not_space_or_quote y4) as [R rest]. simpl in E3, HR, Hrest.
  destruct R as [|r0 R]; [done|]. intros [= <- <-].
  set (Q := take k y ++ w1 ++ String c w2).
  assert (Hy : y = Q ++ String r0 R ++ rest).
  { subst Q. rewrite <- (take_drop k y) at 1. rewrite E1, E2, E3. by sapp_norm. }
  assert (HQ : String.length Q = (k + String.length w1 + 1 + String.length w2)%nat).
  { subst Q. rewrite !slength_app, Hk. simpl. lia. }
  exists Q, (String r0 R), rest. split; [done|]. split.
  { exists (take k y), w1, c, w2. by repeat split. }
  split; [done|]. split; [done|]. split; [done|]. split; [|by rewrite HQ].
  f_equal. rewrite <- HQ. rewrite Hy at 1. apply take_app_exact.
Qed.

Lemma hit_assign_complete (alts : list string) (Q R rest : string) :
  compatible alts -> plain_alts alts ->
  pre_assign alts Q -> R <> EmptyString ->
  all_chars not_space_or_quote R = true -> stops not_space_or_quote rest ->
  hit_assign alts (Q ++ R ++ rest)
  = Some (Q ++ stars, (String.length Q + String.length R)%nat).
Proof.
  intros Hc Hp (kw & w1 & c & w2 & -> & Hkw & Hw1 & Hsep & Hw2) HR Hall Hstop.
  unfold hit_assign.
  replace ((kw ++ w1 ++ String c w2) ++ R ++ rest)
    with (kw ++ (w1 ++ String c (w2 ++ R ++ rest))) by by sapp_norm.
  rewrite (klen_complete alts kw _ Hc Hkw). rewrite drop_app_exact.
  rewrite (span_run isspace w1 (String c (w2 ++ R ++ rest))); [|done|by apply sep_not_space].
  rewrite Hsep.
  destruct R as [|r0 R]; [done|].
  rewrite (span_run isspace w2 (String r0 R ++ rest)); [|done|].
  2:{ rewrite sapp_cons. simpl in *. apply andb_prop in Hall as [Hr _].
      unfold not_space_or_quote in Hr. apply negb_true_iff in Hr.
      by apply orb_false_iff in Hr as [[? _]%orb_false_iff _]. }
  rewrite (span_run not_space_or_quote (String r0 R) rest) by done.
  f_equal. f_equal; [|by rewrite !slength_app; simpl; lia].
  f_equal.
  replace (kw ++ w1 ++ String c (w2 ++ String r0 R ++ rest))
    with ((kw ++ w1 ++ String c w2) ++ String r0 R ++ rest) by by sapp_norm.
  replace (String.length kw + String.length w1 + 1 + String.length w2)%nat
    with (String.length (kw ++ w1 ++ String c w2))
    by (rewrite !slength_app; simpl; lia).
  apply take_app_exact.
Qed.

Lemma hit_flag_sound (alts : list string) (y e : string) (len : nat) :
  hit_flag alts y = Some (e, len) ->
  exists Q R rest,
    y = Q ++ R ++ rest /\ pre_flag alts Q /\ R <> EmptyString
    /\ all_chars not_space R = true /\ stops not_space rest
    /\ e = Q ++ stars /\ len = (String.length Q + String.length R)%nat.
Proof.
  unfold hit_flag. destruct (klen alts y) as [k|] eqn:Ek; [|done].
  destruct (klen_iskw _ _ _ Ek) as [Hkw Hk].
  pose proof (span_spec isspace (drop k y)) as (E1 & Hw1 & _).
  destruct (span isspace (drop k y)) as [w y2]. simpl in E1, Hw1.
  pose proof (span_spec not_space y2) as (E3 & HR & Hrest).
  destruct (span not_space y2) as [R rest]. simpl in E3, HR, Hrest.
  destruct w as [|w0 w]; [done|]. destruct R as [|r0 R]; [done|]. intros [= <- <-].
  set (Q := take k y ++ String w0 w).
  assert (Hy : y = Q ++ String r0 R ++ rest).
  { subst Q. rewrite <- (take_drop k y) at 1. rewrite E1, E3. by sapp_norm. }
  assert (HQ : String.length Q = (k + S (String.length w))%nat).
  { subst Q. by rewrite !slength_app, Hk. }
  exists Q, (String r0 R), rest. split; [done|]. split.
  { exists (take k y), (String w0 w). by repeat split. }
  split; [done|]. split; [done|]. split; [done|]. split; [|by rewrite HQ].
  f_equal. rewrite <- HQ. rewrite Hy at 1. apply take_app_exact.
Qed.

Lemma hit_flag_complete (alts : list string) (Q R rest : string) :
  compatible alts -> plain_alts alts ->
  pre_flag alts Q -> R <> EmptyString ->
  all_chars not_space R = true -> stops not_space rest ->
  hit_flag alts (Q ++ R ++ rest)
  = Some (Q ++ stars, (String.length Q + String.length R)%nat).
Proof.
  intros Hc Hp (kw & w & -> & Hkw & Hne & Hw) HR Hall Hstop.
  unfold hit_flag.
  replace ((kw ++ w) ++ R ++ rest) with (kw ++ (w ++ R ++ rest)) by by sapp_norm.
  rewrite (klen_complete alts kw _ Hc Hkw). rewrite drop_app_exact.
  destruct R as [|r0 R]; [done|]. destruct w as [|w0 w]; [done|].
  rewrite (span_run isspace (String w0 w) (String r0 R ++ rest)); [|done|].
  2:{ rewrite sapp_cons. simpl in *. apply andb_prop in Hall as [Hr _].
      unfold not_space in Hr. by apply negb_true_iff in Hr. }
  rewrite (span_run not_space (String r0 R) rest) by done.
  f_equal. f_equal; [|by rewrite !slength_app].
  f_equal.
  replace (kw ++ String w0 w ++ String r0 R ++ rest)
    with ((kw ++ String w0 w) ++ String r0 R ++ rest) by by sapp_norm.
  rewrite <- slength_app. apply take_app_exact.
Qed.

(** ** The texts the rules keep *)

Lemma all_chars_last (p : ascii -> bool) (m : string) (prev : option ascii) :
  all_chars p m = true -> m <> EmptyString ->
  exists c, last_char m prev = Some c /\ p c = true.
Proof.
  revert prev. induction m as [|x m IH]; intros prev Hall Hne; [done|].
  simpl in *. apply andb_prop in Hall as [Hx Hm].
  destruct m as [|y m]; [by exists x|]. by apply IH.
Qed.

Lemma all_chars_head (p : ascii -> bool) (m : string) :
  all_chars p m = true -> m <> EmptyString -> exists c, head m = Some c /\ p c = true.
Proof.
  destruct m as [|x m]; [done|]. simpl. intros [Hx _]%andb_prop _. by exists x.
Qed.

(** Two cuts of one text before its trailing white space agree. *)
Lemma tail_run_unique (X X' w w' : string) :
  X ++ w = X' ++ w' -> all_chars isspace w = true -> all_chars isspace w' = true ->
  (forall c, last_char X None = Some c -> isspace c = false) ->
  (forall c, last_char X' None = Some c -> isspace c = false) ->
  X = X' /\ w = w'.
Proof.
  intros E Hw Hw' HX HX'.
  destruct (sapp_eq_app _ _ _ _ E) as [(m & -> & ->)|(m & -> & ->)].
  - destruct m as [|x m]; [by rewrite sapp_nil_r|]. exfalso.
    rewrite all_chars_app in Hw. apply andb_prop in Hw as [Hm _].
    destruct (all_chars_last isspace (String x m) (last_char X None) Hm) as (c & Hc & Hs);
      [done|].
    rewrite (HX' c) in Hs; [done|]. by rewrite last_char_app.
  - destruct m as [|x m]; [by rewrite sapp_nil_r|]. exfalso.
    rewrite all_chars_app in Hw'. apply andb_prop in Hw' as [Hm _].
    destruct (all_chars_last isspace (String x m) (last_char X' None) Hm) as (c & Hc & Hs);
      [done|].
    rewrite (HX c) in Hs; [done|]. by rewrite last_char_app.
Qed.

Lemma kw_last_not_space (kw A : string) :
  kw <> EmptyString -> all_chars kwchar kw = true ->
  forall c, last_char (A ++ kw) None = Some c -> isspace c = false.
Proof.
  intros Hne Hall c. rewrite last_char_app.
  destruct (all_chars_last kwchar kw (last_char A None) Hall Hne) as (d & -> & Hd).
  intros [= <-]. by apply kwchar_not_space.
Qed.

Lemma drop_length (n : nat) (s : string) :
  String.length (drop n s) = (String.length s - n)%nat.
Proof.
  revert s. induction n as [|n IH]; intros [|c s]; simpl; try done; try lia.
Qed.

(** A keyword inside a keyword of the same list is the keyword itself. *)
Lemma iskw_inside (alts : list string) (A kwP kwQ : string) :
  no_suffix alts -> iskw alts kwP -> iskw alts kwQ -> A ++ kwQ = kwP -> A = EmptyString.
Proof.
  intros Hns (wP & HinP & HlP & HpP) (wQ & HinQ & HlQ & HpQ) E.
  destruct A as [|a A]; [done|]. exfalso.
  assert (Hlen : (String.length wQ + String.length (String a A) = String.length wP)%nat).
  { rewrite <- HlP, <- HlQ, <- E, slength_app. lia. }
  rewrite <- E in HpP.
  pose proof (prefix_i_drop wP (String a A) kwQ HpP ltac:(lia)) as Hd.
  assert (Hc : prefix_i wQ (drop (String.length (String a A)) wP) = true).
  { apply (prefix_i_common _ _ kwQ); [done|done|].
    rewrite drop_length. lia. }
  rewrite (Hns wP wQ (String.length (String a A))) in Hc; [done|done|done|simpl; lia|done].
Qed.

Section Kept.

Variable alts : list string.
Hypothesis Hplain : plain_alts alts.
Hypothesis Hns : no_suffix alts.

Lemma pre_assign_shape (Q : string) :
  pre_assign alts Q ->
  Q <> EmptyString /\ nostar Q
  /\ (exists c, head Q = Some c /\ kwchar c = true)
  /\ (forall prev, exists d, last_char Q prev = Some d
                             /\ (isspace d || one_of "=:" d) = true).
Proof.
  intros (kw & w1 & c & w2 & -> & Hkw & Hw1 & Hsep & Hw2).
  destruct (iskw_chars alts kw Hplain Hkw) as [Hne Hall].
  split; [by destruct kw|]. split; [|split].
  - unfold nostar. rewrite !all_chars_app. cbn [all_chars].
    rewrite (all_chars_weaken kwchar _ kw), (all_chars_weaken isspace _ w1),
      (all_chars_weaken isspace _ w2); try done.
    + by rewrite (sep_not_star c Hsep).
    + intros x Hx. by rewrite (space_not_star x Hx).
    + intros x Hx. by rewrite (space_not_star x Hx).
    + intros x Hx. by rewrite (kwchar_not_star x Hx).
  - destruct (all_chars_head kwchar kw Hall Hne) as (x & Hx & Hk).
    exists x. split; [|done]. by rewrite head_app.
  - intros prev. rewrite !last_char_app. cbn [last_char].
    destruct w2 as [|x w2].
    + exists c. cbn [last_char]. split; [done|]. by rewrite Hsep, orb_true_r.
    + destruct (all_chars_last isspace (String x w2) (Some c) Hw2) as (d & Hd & Hs); [done|].
      exists d. split; [done|]. by rewrite Hs.
Qed.

(** A text of the rule inside a text of the rule starts where it starts,
    and only white space follows it. *)
Lemma pre_assign_nested (P Q A Z : string) :
  pre_assign alts P -> pre_assign alts Q -> P = A ++ Q ++ Z ->
  A = EmptyString /\ all_chars isspace Z = true.
Proof.
  intros (kwP & v1 & d & v2 & -> & HkwP & Hv1 & Hd & Hv2)
         (kwQ & w1 & c & w2 & -> & HkwQ & Hw1 & Hc & Hw2) E.
  destruct (iskw_chars alts kwP Hplain HkwP) as [HneP HallP].
  destruct (iskw_chars alts kwQ Hplain HkwQ) as [HneQ HallQ].
  set (nonsep := fun x => negb (one_of "=:" x)).
  assert (HkP : all_chars nonsep (kwP ++ v1) = true).
  { rewrite all_chars_app, (all_chars_weaken kwchar _ kwP), (all_chars_weaken isspace _ v1);
      try done.
    - intros x Hx. unfold nonsep. by rewrite (space_not_sep x Hx).
    - intros x Hx. unfold nonsep. by rewrite (kwchar_not_sep x Hx). }
  assert (HkQ : all_chars nonsep (kwQ ++ w1) = true).
  { rewrite all_chars_app, (all_chars_weaken kwchar _ kwQ), (all_chars_weaken isspace _ w1);
      try done.
    - intros x Hx. unfold nonsep. by rewrite (space_not_sep x Hx).
    - intros x Hx. unfold nonsep. by rewrite (kwchar_not_sep x Hx). }
  assert (HsP : stops nonsep (String d v2)) by (simpl; unfold nonsep; by rewrite Hd).
  assert (HA : all_chars nonsep A = true).
  { pose proof (span_spec nonsep A) as (EA & Ha & Hb).
    destruct (span nonsep A) as [a b]. cbn [fst snd] in EA, Ha, Hb.
    destruct b as [|e b]; [by rewrite EA, sapp_nil_r|]. exfalso.
    assert (E' : (kwP ++ v1) ++ String d v2
                 = a ++ String e (b ++ (kwQ ++ w1 ++ String c w2) ++ Z)).
    { rewrite EA in E. sapp_norm. rewrite E. by sapp_norm. }
    destruct (run_unique nonsep (kwP ++ v1) a (String d v2)
                (String e (b ++ (kwQ ++ w1 ++ String c w2) ++ Z)) HkP HsP Ha Hb E')
      as [_ [= _ Ev2]].
    rewrite Ev2, !all_chars_app in Hv2.
    apply andb_prop in Hv2 as [_ [[Hk _]%andb_prop _]%andb_prop].
    destruct (all_chars_head kwchar kwQ HallQ HneQ) as (x & Hx & Hkx).
    destruct kwQ as [|x' kwQ]; [done|]. simpl in Hx, Hk. injection Hx as ->.
    apply andb_prop in Hk as [Hsx _]. by rewrite (kwchar_not_space x Hkx) in Hsx. }
  assert (E' : (kwP ++ v1) ++ String d v2 = (A ++ kwQ ++ w1) ++ String c (w2 ++ Z)).
  { sapp_norm. rewrite E. by sapp_norm. }
  assert (HAQ : all_chars nonsep (A ++ kwQ ++ w1) = true) by by rewrite all_chars_app, HA.
  assert (HsQ : stops nonsep (String c (w2 ++ Z))).
  { cbn [stops]. unfold nonsep. by rewrite Hc. }
  destruct (run_unique nonsep _ _ _ _ HkP HsP HAQ HsQ E') as [E1 [= _ E2]].
  split.
  - rewrite <- sapp_assoc in E1.
    destruct (tail_run_unique _ _ _ _ E1 Hv1 Hw1) as [E3 _].
    + by apply (kw_last_not_space kwP EmptyString).
    + by apply kw_last_not_space.
    + by apply (iskw_inside alts A kwP kwQ).
  - rewrite E2, all_chars_app in Hv2. by apply andb_prop in Hv2 as [_ ?].
Qed.

Lemma pre_flag_shape (Q : string) :
  pre_flag alts Q ->
  Q <> EmptyString /\ nostar Q
  /\ (exists c, head Q = Some c /\ kwchar c = true)
  /\ (forall prev, exists d, last_char Q prev = Some d
                             /\ (isspace d || one_of "=:" d) = true).
Proof.
  intros (kw & w & -> & Hkw & Hnw & Hw).
  destruct (iskw_chars alts kw Hplain Hkw) as [Hne Hall].
  split; [by destruct kw|]. split; [|split].
  - unfold nostar. rewrite !all_chars_app.
    rewrite (all_chars_weaken kwchar _ kw), (all_chars_weaken isspace _ w); try done.
    + intros x Hx. by rewrite (space_not_star x Hx).
    + intros x Hx. by rewrite (kwchar_not_star x Hx).
  - destruct (all_chars_head kwchar kw Hall Hne) as (x & Hx & Hk).
    exists x. split; [|done]. by rewrite head_app.
  - intros prev. rewrite !last_char_app.
    destruct (all_chars_last isspace w (last_char kw prev) Hw Hnw) as (d & Hd & Hs).
    exists d. split; [done|]. by rewrite Hs.
Qed.

Lemma pre_flag_nested (P Q A Z : string) :
  pre_flag alts P -> pre_flag alts Q -> P = A ++ Q ++ Z ->
  A = EmptyString /\ all_chars isspace Z = true.
Proof.
  intros (kwP & v & -> & HkwP & Hnv & Hv) (kwQ & w & -> & HkwQ & Hnw & Hw) E.
  destruct (iskw_chars alts kwP Hplain HkwP) as [HneP HallP].
  destruct (iskw_chars alts kwQ Hplain HkwQ) as [HneQ HallQ].
  assert (HkP : all_chars not_space kwP = true).
  { apply (all_chars_weaken kwchar); [|done].
    intros x Hx. unfold not_space. by rewrite (kwchar_not_space x Hx). }
  assert (HkQ : all_chars not_space kwQ = true).
  { apply (all_chars_weaken kwchar); [|done].
    intros x Hx. unfold not_space. by rewrite (kwchar_not_space x Hx). }
  assert (Hstop : forall u z, u <> EmptyString -> all_chars isspace u = true ->
                              stops not_space (u ++ z)).
  { intros [|x u] z Hu Hall; [done|]. simpl in *. apply andb_prop in Hall as [Hx _].
    unfold not_space. by rewrite Hx. }
  assert (Hsv : stops not_space v).
  { rewrite <- (sapp_nil_r v). by apply Hstop. }
  assert (HA : all_chars not_space A = true).
  { pose proof (span_spec not_space A) as (EA & Ha & Hb).
    destruct (span not_space A) as [a b]. cbn [fst snd] in EA, Ha, Hb.
    destruct b as [|e b]; [by rewrite EA, sapp_nil_r|]. exfalso.
    assert (E' : kwP ++ v = a ++ String e (b ++ (kwQ ++ w) ++ Z)).
    { rewrite EA in E. rewrite E. by sapp_norm. }
    destruct (run_unique not_space kwP a v (String e (b ++ (kwQ ++ w) ++ Z)) HkP
                Hsv Ha Hb E') as [_ Ev].
    rewrite Ev in Hv. simpl in Hv. rewrite !all_chars_app in Hv.
    apply andb_prop in Hv as [_ [_ [[Hk _]%andb_prop _]%andb_prop]%andb_prop].
    destruct kwQ as [|x kwQ]; [done|]. simpl in Hk, HallQ.
    apply andb_prop in Hk as [Hsx _]. apply andb_prop in HallQ as [Hkx _].
    by rewrite (kwchar_not_space x Hkx) in Hsx. }
  assert (E' : kwP ++ v = (A ++ kwQ) ++ (w ++ Z)) by (rewrite E; by sapp_norm).
  assert (HAQ : all_chars not_space (A ++ kwQ) = true) by by rewrite all_chars_app, HA.
  destruct (run_unique not_space _ _ _ _ HkP Hsv HAQ (Hstop w Z Hnw Hw) E') as [E1 E2].
  split.
  - by apply (iskw_inside alts A kwP kwQ).
  - rewrite E2, all_chars_app in Hv. by apply andb_prop in Hv as [_ ?].
Qed.

End Kept.

(** ** Scans, block by block *)

Lemma sub_scan_scan_with (its : list item) (repl : list piece) (s : string) :
  forall prev k, sub_scan its repl prev s k = scan_with (hit its repl) prev s k.
Proof.
  induction s as [|c s IH]; intros prev k.
  - cbn [sub_scan scan_with]. unfold hit. destruct k; [|done].
    by destruct (match_here its prev EmptyString 0 no_caps) as [[st len]|].
  - cbn [sub_scan scan_with]. destruct k as [|k]; [|apply IH].
    unfold hit.
    destruct (match_here its prev (String c s) 0 no_caps) as [[st [|len]]|]; by rewrite ?IH.
Qed.

Lemma scan_with_skip (h : option ascii -> string -> option (string * nat)) (a rest : string) :
  forall prev, scan_with h prev (a ++ rest) (String.length a)
               = scan_with h (last_char a prev) rest 0.
Proof.
  induction a as [|c a IH]; intros prev; [done|].
  rewrite sapp_cons. cbn [scan_with String.length last_char]. apply IH.
Qed.

Section Blocks.

Variable h : option ascii -> string -> option (string * nat).

Lemma scan_exists :
  masks_blocks h -> forall n s prev, (String.length s <= n)%nat ->
                                     Scan h prev s (scan_with h prev s 0).
Proof.
  intros Hb. induction n as [|n IH]; intros s prev Hn.
  - destruct s; [|simpl in Hn; lia]. cbn [scan_with].
    destruct (h prev EmptyString) as [[e len]|] eqn:E; [|constructor].
    destruct (Hb _ _ _ _ E) as (P & R & rest & Ey & HP & _).
    by destruct P.
  - destruct s as [|c s].
    { cbn [scan_with].
      destruct (h prev EmptyString) as [[e len]|] eqn:E; [|constructor].
      destruct (Hb _ _ _ _ E) as (P & R & rest & Ey & HP & _).
      by destruct P. }
    cbn [scan_with]. destruct (h prev (String c s)) as [[e len]|] eqn:E.
    + destruct (Hb _ _ _ _ E) as (P & R & rest & Ey & HP & HnP & HR & -> & ->).
      destruct P as [|p0 P]; [done|]. destruct R as [|r0 R]; [done|].
      rewrite sapp_cons in Ey. injection Ey as <- ->.
      cbn [String.length Nat.add].
      replace (P ++ String r0 R ++ rest) with ((P ++ String r0 R) ++ rest) by by sapp_norm.
      replace (String.length P + S (String.length R))%nat
        with (String.length (P ++ String r0 R)) by (rewrite slength_app; simpl; lia).
      rewrite scan_with_skip.
      replace ((String c P ++ stars) ++ scan_with h (last_char (P ++ String r0 R) (Some c)) rest 0)
        with (String c P ++ stars ++ scan_with h (last_char (P ++ String r0 R) (Some c)) rest 0)
        by by sapp_norm.
      replace (String c ((P ++ String r0 R) ++ rest)) with (String c P ++ String r0 R ++ rest)
        by by sapp_norm.
      apply Scan_mask; [|done|done|].
      * etrans; [exact E|]. repeat f_equal.
      * apply IH. simpl in Hn. rewrite !slength_app in Hn. lia.
    + apply Scan_keep; [done|]. apply IH. simpl in Hn. lia.
Qed.

Lemma scan_head (prev : option ascii) (s o : string) : Scan h prev s o -> head o = head s.
Proof.
  destruct 1 as [|? ? ? ? ? ?|? P ? ? ? ? HP ? ?]; [done|done|].
  destruct P; [done|]. by rewrite !sapp_cons.
Qed.

(** A character of the output that is not a star is the character of the
    input at the same place. *)
Lemma at_step (pc : option ascii) (s o : string) (c : ascii) (o' : string) :
  At h pc s o -> o = String c o' -> c <> star ->
  exists s', s = String c s' /\ At h (Some c) s' o'.
Proof.
  intros HA Eo Hc.
  destruct HA as [pc prev s o HS | prev P1 P2 R rest o1 Hh HP1 HR HS].
  - destruct HS as [prev | prev c0 s0 o0 Hn HS | prev P R rest o1 Hh HP HR HS].
    + done.
    + injection Eo as -> ->. exists s0. split; [done|]. by apply (At_scan h _ (Some c)).
    + destruct P as [|p0 P']; [done|]. rewrite sapp_cons in Eo. injection Eo as -> <-.
      exists (P' ++ R ++ rest). split; [by rewrite sapp_cons|].
      exact (At_prefix h prev (String c EmptyString) P' R rest o1 Hh ltac:(done) HR HS).
  - destruct P2 as [|p0 P2'].
    + rewrite sapp_nil_l in Eo. injection Eo as <- _. done.
    + rewrite sapp_cons in Eo. injection Eo as -> <-.
      exists (P2' ++ R ++ rest). split; [by rewrite sapp_cons|].
      assert (E : P1 ++ String c P2' = (P1 ++ String c EmptyString) ++ P2') by by sapp_norm.
      rewrite E in Hh, HS.
      pose proof (At_prefix h prev (P1 ++ String c EmptyString) P2' R rest o1 Hh
                    ltac:(by destruct P1) HR HS) as HA.
      by rewrite last_char_app in HA.
Qed.

Lemma at_walk (Q : string) :
  forall pc s o o',
    At h pc s o -> o = Q ++ o' -> nostar Q -> Q <> EmptyString ->
    exists s', s = Q ++ s' /\ At h (last_char Q None) s' o'.
Proof.
  induction Q as [|c Q IH]; intros pc s o o' HA Eo Hns Hne; [done|].
  unfold nostar in Hns. cbn [all_chars] in Hns. apply andb_prop in Hns as [Hc HQ].
  rewrite sapp_cons in Eo.
  destruct (at_step pc s o c (Q ++ o') HA Eo) as (s1 & -> & HA1).
  { intros ->. by rewrite Ascii.eqb_refl in Hc. }
  destruct Q as [|q Q].
  - exists s1. by rewrite sapp_nil_l in HA1.
  - destruct (IH _ _ _ _ HA1 eq_refl HQ ltac:(done)) as (s' & -> & HA').
    exists s'. split; [by rewrite sapp_cons|].
    exact HA'.
Qed.

(** Where a text without stars starts in the output of a scan. *)
Lemma scan_split (prev : option ascii) (s o : string) :
  Scan h prev s o ->
  forall x y c, o = x ++ y -> head y = Some c -> c <> star ->
                exists pc x' s', s = x' ++ s' /\ At h pc s' y.
Proof.
  induction 1 as [prev | prev c0 s0 o0 Hn HS IH | prev P R rest o1 Hh HP HR HS IH];
    intros x y c Eo Hy Hc.
  - symmetry in Eo. apply sapp_eq_nil in Eo as [_ ->]. done.
  - destruct x as [|x0 x].
    + rewrite sapp_nil_l in Eo. subst y.
      exists None, EmptyString, (String c0 s0). split; [done|].
      apply (At_scan h _ prev). by apply Scan_keep.
    + rewrite sapp_cons in Eo. injection Eo as <- Eo.
      destruct (IH x y c Eo Hy Hc) as (pc & x' & s' & -> & HA).
      exists pc, (String c0 x'), s'. by rewrite sapp_cons.
  - destruct x as [|x0 x].
    { rewrite sapp_nil_l in Eo. subst y.
      exists None, EmptyString, (P ++ R ++ rest). split; [done|].
      apply (At_scan h _ prev). by apply Scan_mask. }
    destruct (sapp_eq_app _ _ _ _ Eo) as [(m & Ex & Em)|(m & EP & Ey)].
    + destruct m as [|m0 m].
      { rewrite sapp_nil_l in Em. subst y. injection Hy as <-. done. }
      destruct m as [|m1 m].
      { rewrite sapp_cons, sapp_nil_l in Em. injection Em as <- Em. subst y.
        injection Hy as <-. done. }
      destruct m as [|m2 m].
      { rewrite !sapp_cons, sapp_nil_l in Em. injection Em as <- <- Em. subst y.
        injection Hy as <-. done. }
      rewrite !sapp_cons in Em. injection Em as <- <- <- Em.
      destruct (IH m y c Em Hy Hc) as (pc & x' & s' & -> & HA).
      exists pc, (P ++ R ++ x'), s'. split; [by sapp_norm|done].
    + destruct m as [|m0 m].
      { rewrite sapp_nil_l in Ey. subst y. injection Hy as <-. done. }
      subst P y.
      exists (last_char (String x0 x) None), (String x0 x), (String m0 m ++ R ++ rest).
      split; [by sapp_norm|]. by apply (At_prefix h prev).
Qed.

(** What follows a star of the input that no match covers. *)
Lemma scan_star (prev : option ascii) (s o : string) :
  masks_blocks h -> Scan h prev (String star s) o ->
  exists o', o = String star o' /\ Scan h (Some star) s o'.
Proof.
  intros Hb HS. remember (String star s) as t eqn:Et.
  destruct HS as [prev | prev c0 s0 o0 Hn HS | prev P R rest o1 Hh HP HR HS]; [done| |].
  - injection Et as -> ->. by exists o0.
  - exfalso. destruct (Hb _ _ _ _ Hh) as (P0 & R0 & rest0 & _ & _ & Hns & _ & EP & _).
    apply sapp_inv_tail in EP as <-.
    destruct P as [|p0 P]; [done|]. rewrite sapp_cons in Et. injection Et as -> _.
    unfold nostar in Hns. cbn [all_chars] in Hns. by rewrite Ascii.eqb_refl in Hns.
Qed.

Lemma scan_stars (prev : option ascii) (s o : string) :
  masks_blocks h -> Scan h prev (stars ++ s) o ->
  exists o', o = stars ++ o' /\ Scan h (Some star) s o'.
Proof.
  intros Hb HS.
  apply (scan_star _ _ _ Hb) in HS as (o1 & -> & HS).
  apply (scan_star _ _ _ Hb) in HS as (o2 & -> & HS).
  apply (scan_star _ _ _ Hb) in HS as (o3 & -> & HS).
  by exists o3.
Qed.

(** A scan that finds nothing leaves the text as it is. *)
Lemma scan_no_hits (prev : option ascii) (s o : string) :
  Scan h prev s o -> no_hits h prev s -> o = s.
Proof.
  induction 1 as [prev | prev c0 s0 o0 Hn HS IH | prev P R rest o1 Hh HP HR HS IH];
    intros Hno; [done| |].
  - f_equal. apply IH. intros x y ->. apply (Hno (String c0 x)). by rewrite sapp_cons.
  - pose proof (Hno EmptyString (P ++ R ++ rest) eq_refl) as Hn. cbn [last_char] in Hn.
    by rewrite Hn in Hh.
Qed.

Section Rule.

Variable pre : string -> Prop.
Variable G : ascii -> bool.
Hypothesis Hsound : hits_only h pre G.

Lemma hits_only_block (prev : option ascii) (P R rest : string) :
  h prev (P ++ R ++ rest) = Some (P ++ stars, (String.length P + String.length R)%nat) ->
  pre P /\ R <> EmptyString /\ all_chars G R = true /\ stops G rest.
Proof.
  intros Hh. destruct (Hsound _ _ _ _ Hh) as (Q & R0 & rest0 & Ey & HQ & HR & Hall & Hst & EQ & El).
  apply sapp_inv_tail in EQ as ->. apply sapp_inv_head in Ey.
  destruct (sapp_same_length _ _ _ _ Ey ltac:(lia)) as [-> ->]. done.
Qed.

(** A scan of a text whose secrets are masked leaves it as it is. *)
Lemma scan_fixed (prev : option ascii) (s o : string) :
  Scan h prev s o -> forall x, secrets_masked pre G (x ++ s) -> o = s.
Proof.
  induction 1 as [prev | prev c0 s0 o0 Hn HS IH | prev P R rest o1 Hh HP HR HS IH];
    intros x Hm; [done| |].
  - f_equal. apply (IH (x ++ String c0 EmptyString)).
    replace ((x ++ String c0 EmptyString) ++ s0) with (x ++ String c0 s0) by by sapp_norm.
    done.
  - destruct (hits_only_block _ _ _ _ Hh) as (HpP & _ & Hall & Hst).
    assert (ER : R = stars) by exact (Hm x P R rest eq_refl HpP HR Hall Hst). subst R.
    do 2 f_equal. apply (IH (x ++ P ++ stars)).
    replace ((x ++ P ++ stars) ++ rest) with (x ++ P ++ stars ++ rest) by by sapp_norm.
    done.
Qed.

End Rule.

End Blocks.

(** ** One rule after another *)

Lemma span_head (p : ascii -> bool) (s : string) (c : ascii) :
  head s = Some c -> p c = true -> (span p s).1 <> EmptyString.
Proof.
  destruct s as [|x s]; [done|]. intros [= ->] Hp. cbn [span]. rewrite Hp.
  by destruct (span p s).
Qed.

Lemma stops_weaken (p q : ascii -> bool) (s : string) :
  (forall c, p c = true -> q c = true) -> stops q s -> stops p s.
Proof.
  intros H. destruct s as [|c s]; [done|]. cbn [stops]. intros Hq.
  destruct (p c) eqn:Hp; [|done]. by rewrite (H c Hp) in Hq.
Qed.

Lemma stars_run (G : ascii -> bool) (R rest o : string) :
  G star = true -> all_chars G R = true -> stops G rest -> stops G o ->
  R ++ rest = stars ++ o -> R = stars.
Proof.
  intros HG Hall Hst Ho E.
  apply (run_unique G R stars rest o Hall Hst); [|done|done].
  unfold stars. cbn [all_chars]. fold star. by rewrite HG.
Qed.

Lemma hits_only_blocks (h : option ascii -> string -> option (string * nat))
      (pre : string -> Prop) (G : ascii -> bool) :
  hits_only h pre G -> (forall Q, pre Q -> Q <> EmptyString /\ nostar Q) -> masks_blocks h.
Proof.
  intros Hs Hshape prev y e len Hh.
  destruct (Hs _ _ _ _ Hh) as (Q & R & rest & Ey & HQ & HR & _ & _ & Ee & El).
  destruct (Hshape Q HQ) as [HneQ HnsQ]. by exists Q, R, rest.
Qed.

Section Established.

Variable h : option ascii -> string -> option (string * nat).
Variable pre : string -> Prop.
Variable G : ascii -> bool.
Hypothesis Hsound : hits_only h pre G.
Hypothesis Hcomplete : hits_all h pre G.
Hypothesis Hshape : forall Q, pre Q -> Q <> EmptyString /\ nostar Q.
Hypothesis Hnest : forall P Q A Z, pre P -> pre Q -> P = A ++ Q ++ Z -> A = EmptyString.
Hypothesis HGstar : G star = true.

Lemma at_head_class (pc : option ascii) (s o : string) (c : ascii) :
  At h pc s o -> head o = Some c -> G c = true ->
  exists c', head s = Some c' /\ G c' = true.
Proof.
  intros HA Ho HG.
  destruct HA as [pc prev s o HS | prev P1 P2 R rest o1 Hh HP1 HR HS].
  - exists c. by rewrite <- (scan_head h _ _ _ HS).
  - destruct P2 as [|p0 P2].
    + rewrite sapp_nil_l. destruct (hits_only_block h pre G Hsound _ _ _ _ Hh) as (_ & _ & Hall & _).
      destruct R as [|r0 R]; [done|]. exists r0. cbn [all_chars] in Hall.
      apply andb_prop in Hall as [Hr _]. by rewrite sapp_cons.
    + exists c. rewrite sapp_cons in Ho |- *. done.
Qed.

(** After a scan, every text of the rule is followed by three stars. *)
Lemma scan_masks (prev : option ascii) (s o : string) :
  Scan h prev s o -> secrets_masked pre G o.
Proof.
  intros HS x Q R' rest' Eo HQ HR' Hall' Hst'.
  destruct (Hshape Q HQ) as [HneQ HnsQ].
  assert (Hq : exists q, head (Q ++ R' ++ rest') = Some q /\ q <> star).
  { destruct Q as [|q Q0]; [done|]. exists q. split; [by rewrite sapp_cons|].
    unfold nostar in HnsQ. cbn [all_chars] in HnsQ. apply andb_prop in HnsQ as [Hq _].
    intros ->. by rewrite Ascii.eqb_refl in Hq. }
  destruct Hq as (q & Hq1 & Hq2).
  destruct (scan_split h _ _ _ HS x _ q Eo Hq1 Hq2) as (pc & x' & s' & Es & HA).
  destruct (at_walk h Q _ _ _ _ HA eq_refl HnsQ HneQ) as (s2 & Es' & HA2).
  destruct R' as [|g R'']; [done|]. cbn [all_chars] in Hall'.
  apply andb_prop in Hall' as [Hg HR''].
  destruct (at_head_class _ _ _ g HA2 ltac:(by rewrite sapp_cons) Hg) as (c' & Hc' & HGc').
  pose proof (span_spec G s2) as (E2 & Ha2 & Hb2).
  pose proof (span_head G s2 c' Hc' HGc') as Hne2.
  destruct (span G s2) as [R2 rest2]. cbn [fst snd] in E2, Ha2, Hb2, Hne2.
  assert (Hhit : forall p, h p s' = Some (Q ++ stars, (String.length Q + String.length R2)%nat)).
  { intros p. rewrite Es', E2. by apply Hcomplete. }
  clear HA2 Es x Eo.
  remember (Q ++ String g R'' ++ rest') as y eqn:Ey.
  destruct HA as [? prev' ? ? HS' | prev' P1 P2 R rest o1 Hh HP1 HR HS'].
  - destruct HS' as [prev' | prev' c0 s0 o0 Hn HS' | prev' P R rest o1 Hh HP HR HS'].
    + by destruct Q.
    + by rewrite Hhit in Hn.
    + rewrite Hhit in Hh. injection Hh as EP El.
      apply sapp_inv_tail in EP as <-.
      rewrite E2 in Es'. apply sapp_inv_head in Es'.
      destruct (sapp_same_length _ _ _ _ Es' ltac:(lia)) as [-> ->].
      apply sapp_inv_head in Ey.
      apply (stars_run G (String g R'') rest' o1); [done| |done| |done].
      * cbn [all_chars]. by rewrite Hg.
      * apply (stops_head G rest2); [|done]. by rewrite (scan_head h _ _ _ HS').
  - exfalso. destruct (hits_only_block h pre G Hsound _ _ _ _ Hh) as (HpP & _).
    destruct (sapp_eq_app _ _ _ _ Ey) as [(m & EQ & Em)|(m & EP & _)].
    + destruct m as [|m0 m].
      * rewrite sapp_nil_r in EQ. subst P2.
        apply HP1, (Hnest (P1 ++ Q) Q P1 EmptyString HpP HQ). by rewrite sapp_nil_r.
      * rewrite sapp_cons in Em. injection Em as <- _. subst Q.
        apply nostar_app in HnsQ as [_ Hm]. unfold nostar in Hm. cbn [all_chars] in Hm.
        by rewrite Ascii.eqb_refl in Hm.
    + subst P2. by apply HP1, (Hnest (P1 ++ Q ++ m) Q P1 m HpP HQ).
Qed.

End Established.

Section Preserved.

Variable h : option ascii -> string -> option (string * nat).
Variable pre : string -> Prop.
Variable G : ascii -> bool.
Hypothesis Hblocks : masks_blocks h.
Hypothesis Hshape : forall Q, pre Q -> Q <> EmptyString /\ nostar Q.
Hypothesis HGstar : G star = true.
Hypothesis Hedge :
  forall prev P R rest Q,
    h prev (P ++ R ++ rest) = Some (P ++ stars, (String.length P + String.length R)%nat) ->
    pre Q -> last_char Q None = last_char P None -> stops G rest.

(** A scan with another rule keeps the secrets of this rule masked. *)
Lemma scan_keeps_masked (prev : option ascii) (s o : string) :
  secrets_masked pre G s -> Scan h prev s o -> secrets_masked pre G o.
Proof.
  intros Hm HS x Q R' rest' Eo HQ HR' Hall' Hst'.
  destruct (Hshape Q HQ) as [HneQ HnsQ].
  assert (Hq : exists q, head (Q ++ R' ++ rest') = Some q /\ q <> star).
  { destruct Q as [|q Q0]; [done|]. exists q. split; [by rewrite sapp_cons|].
    unfold nostar in HnsQ. cbn [all_chars] in HnsQ. apply andb_prop in HnsQ as [Hq _].
    intros ->. by rewrite Ascii.eqb_refl in Hq. }
  destruct Hq as (q & Hq1 & Hq2).
  destruct (scan_split h _ _ _ HS x _ q Eo Hq1 Hq2) as (pc & x' & s' & Es & HA).
  destruct (at_walk h Q _ _ _ _ HA eq_refl HnsQ HneQ) as (s2 & Es' & HA2).
  subst s s'. clear HA HS Eo x.
  destruct R' as [|g R'']; [done|]. cbn [all_chars] in Hall'.
  apply andb_prop in Hall' as [Hg HR''].
  assert (Hrun : forall c, head s2 = Some c -> G c = true -> exists rest2,
                   s2 = stars ++ rest2 /\ stops G rest2).
  { intros c Hc HGc.
    pose proof (span_spec G s2) as (E2 & Ha2 & Hb2).
    pose proof (span_head G s2 c Hc HGc) as Hne2.
    destruct (span G s2) as [R2 rest2]. cbn [fst snd] in E2, Ha2, Hb2, Hne2.
    exists rest2. split; [|done].
    rewrite E2. f_equal. apply (Hm x' Q R2 rest2); try done. by rewrite E2. }
  remember (String g R'' ++ rest') as o2 eqn:Eo2.
  remember (last_char Q None) as pq eqn:Epq.
  destruct HA2 as [? prev' ? ? HS' | prev' P1 P2 R rest o1 Hh HP1 HR HS'].
  - destruct (Hrun g) as (rest2 & -> & Hst2); [|done|].
    { rewrite <- (scan_head h _ _ _ HS'), Eo2. by rewrite sapp_cons. }
    destruct (scan_stars h _ _ _ Hblocks HS') as (o3 & -> & HS3).
    apply (stars_run G (String g R'') rest' o3); [done| |done| |done].
    + cbn [all_chars]. by rewrite Hg.
    + apply (stops_head G rest2); [|done]. by rewrite (scan_head h _ _ _ HS3).
  - destruct P2 as [|p0 P2].
    + rewrite sapp_nil_l in Eo2. rewrite sapp_nil_r in Hh.
      apply (stars_run G (String g R'') rest' o1); [done| |done| |done].
      * cbn [all_chars]. by rewrite Hg.
      * apply (stops_head G rest); [by rewrite (scan_head h _ _ _ HS')|].
        by apply (Hedge prev' P1 R rest Q Hh HQ).
    + exfalso. rewrite sapp_cons in Eo2. injection Eo2 as -> Eo2.
      destruct (Hrun g) as (rest2 & E2 & _); [by rewrite sapp_cons|done|].
      rewrite sapp_cons in E2. injection E2 as -> _.
      destruct (Hblocks _ _ _ _ Hh) as (P0 & R0 & rest0 & _ & _ & Hns & _ & EP & _).
      apply sapp_inv_tail in EP as <-. apply nostar_app in Hns as [_ Hns].
      unfold nostar in Hns. cbn [all_chars] in Hns. by rewrite Ascii.eqb_refl in Hns.
Qed.

End Preserved.

Lemma hits_only_edge (h : option ascii -> string -> option (string * nat))
      (pre : string -> Prop) (G G' : ascii -> bool) :
  hits_only h pre G -> (forall c, G' c = true -> G c = true) ->
  forall prev P R rest,
    h prev (P ++ R ++ rest) = Some (P ++ stars, (String.length P + String.length R)%nat) ->
    stops G' rest.
Proof.
  intros Hs HG prev P R rest Hh.
  destruct (hits_only_block h pre G Hs _ _ _ _ Hh) as (_ & _ & _ & Hst).
  by apply (stops_weaken G' G).
Qed.

(** ** The rule for keys *)

Lemma greedy_none (n : nat) (p : ascii -> bool)
      (cont : option ascii -> string -> nat -> option (caps * nat)) :
  forall s k prev pos,
    greedy n p cont k prev s pos = None ->
    forall a b, s = a ++ b -> all_chars p a = true -> (n <= k + String.length a)%nat ->
                cont (last_char a prev) b (pos + String.length a)%nat = None.
Proof.
  induction s as [|c s IH]; intros k prev pos Hg a b Es Ha Hn.
  - symmetry in Es. apply sapp_eq_nil in Es as [-> ->]. cbn [greedy] in Hg.
    cbn [String.length last_char] in *. rewrite Nat.add_0_r in *.
    by rewrite (proj2 (Nat.leb_le _ _) Hn) in Hg.
  - cbn [greedy] in Hg. destruct a as [|x a].
    + rewrite sapp_nil_l in Es. subst b. cbn [String.length last_char] in *.
      rewrite Nat.add_0_r in *. rewrite (proj2 (Nat.leb_le _ _) Hn) in Hg.
      destruct (p c); [|done].
      by destruct (greedy n p cont (S k) (Some c) s (S pos)).
    + rewrite sapp_cons in Es. injection Es as <- ->. cbn [all_chars] in Ha.
      apply andb_prop in Ha as [Hc Ha]. rewrite Hc in Hg.
      destruct (greedy n p cont (S k) (Some c) (a ++ b) (S pos)) eqn:Eg; [done|].
      cbn [String.length last_char] in *.
      replace (pos + S (String.length a))%nat with (S pos + String.length a)%nat by lia.
      apply (IH (S k) (Some c) (S pos) Eg a b eq_refl Ha). lia.
Qed.

Lemma greedy_some (n : nat) (p : ascii -> bool)
      (cont : option ascii -> string -> nat -> option (caps * nat)) :
  forall s k prev pos m,
    greedy n p cont k prev s pos = Some m ->
    exists a b,
      s = a ++ b /\ all_chars p a = true /\ (n <= k + String.length a)%nat
      /\ cont (last_char a prev) b (pos + String.length a)%nat = Some m
      /\ forall a' b', s = a' ++ b' -> all_chars p a' = true ->
                       (String.length a < String.length a')%nat ->
                       cont (last_char a' prev) b' (pos + String.length a')%nat = None.
Proof.
  assert (Hstop : forall s k prev pos m,
             (if (n <=? k)%nat then cont prev s pos else None) = Some m ->
             (forall a' b', s = a' ++ b' -> all_chars p a' = true ->
                            (0 < String.length a')%nat ->
                            cont (last_char a' prev) b' (pos + String.length a')%nat = None) ->
             exists a b,
               s = a ++ b /\ all_chars p a = true /\ (n <= k + String.length a)%nat
               /\ cont (last_char a prev) b (pos + String.length a)%nat = Some m
               /\ forall a' b', s = a' ++ b' -> all_chars p a' = true ->
                                (String.length a < String.length a')%nat ->
                                cont (last_char a' prev) b' (pos + String.length a')%nat = None).
  { intros s k prev pos m Hc Hmax. destruct (n <=? k)%nat eqn:Hn; [|done].
    apply Nat.leb_le in Hn. exists EmptyString, s.
    cbn [String.length last_char]. rewrite !Nat.add_0_r. by repeat split. }
  induction s as [|c s IH]; intros k prev pos m Hg; cbn [greedy] in Hg.
  - apply (Hstop _ _ _ _ _ Hg). intros a' b' Es _ Hl. symmetry in Es.
    apply sapp_eq_nil in Es as [-> _]. simpl in Hl. lia.
  - destruct (p c) eqn:Hc.
    + destruct (greedy n p cont (S k) (Some c) s (S pos)) as [m'|] eqn:Eg.
      * injection Hg as ->.
        destruct (IH _ _ _ _ Eg) as (a & b & -> & Ha & Hn & Hcont & Hmax).
        exists (String c a), b. cbn [String.length last_char all_chars].
        rewrite Hc, Ha. split; [by rewrite sapp_cons|]. split; [done|]. split; [lia|].
        replace (pos + S (String.length a))%nat with (S pos + String.length a)%nat by lia.
        split; [done|]. intros a' b' Es Ha' Hl.
        destruct a' as [|x a']; [simpl in Hl; lia|].
        rewrite sapp_cons in Es. injection Es as <- Es. cbn [all_chars] in Ha'.
        apply andb_prop in Ha' as [_ Ha']. cbn [String.length last_char] in *.
        replace (pos + S (String.length a'))%nat with (S pos + String.length a')%nat by lia.
        apply Hmax; [done|done|lia].
      * apply (Hstop _ _ _ _ _ Hg). intros a' b' Es Ha' Hl.
        destruct a' as [|x a']; [simpl in Hl; lia|].
        rewrite sapp_cons in Es. injection Es as <- ->. cbn [all_chars] in Ha'.
        apply andb_prop in Ha' as [_ Ha']. cbn [String.length last_char].
        replace (pos + S (String.length a'))%nat with (S pos + String.length a')%nat by lia.
        apply (greedy_none n p cont _ _ _ _ Eg a' b' eq_refl Ha').
        destruct (n <=? k)%nat eqn:Hn; [|done]. apply Nat.leb_le in Hn. lia.
    + apply (Hstop _ _ _ _ _ Hg). intros a' b' Es Ha' Hl.
      destruct a' as [|x a']; [simpl in Hl; lia|].
      rewrite sapp_cons in Es. injection Es as <- ->. cbn [all_chars] in Ha'.
      by rewrite Hc in Ha'.
Qed.

Lemma at_boundary_head (prev : option ascii) (s s' : string) :
  head s = head s' -> at_boundary prev s = at_boundary prev s'.
Proof. destruct s, s'; try done. by intros [= ->]. Qed.

Lemma key_char_not_star : key_char star = false.
Proof. reflexivity. Qed.

Lemma key_chars_nostar (K : string) : all_chars key_char K = true -> nostar K.
Proof.
  apply all_chars_weaken. intros c Hc.
  destruct (Ascii.eqb c star) eqn:E; [|done].
  apply Ascii.eqb_eq in E as ->. by rewrite key_char_not_star in Hc.
Qed.

Lemma hit_sk_sound (prev : option ascii) (y e : string) (len : nat) :
  hit_sk prev y = Some (e, len) ->
  at_boundary prev y = true
  /\ exists K rest,
      y = "sk-" ++ K ++ rest /\ (16 <= String.length K)%nat /\ all_chars key_char K = true
      /\ at_boundary (last_char K (Some "-"%char)) rest = true
      /\ e = "sk-" ++ stars /\ len = (3 + String.length K)%nat
      /\ forall K' rest', K ++ rest = K' ++ rest' -> all_chars key_char K' = true ->
                          (String.length K < String.length K')%nat ->
                          at_boundary (last_char K' (Some "-"%char)) rest' = false.
Proof.
  unfold hit_sk, hit, sk_pattern.
  change (lits "sk-") with [lit "s"; lit "k"; lit "-"].
  cbn [app match_here lit]. destruct (at_boundary prev y) eqn:Hb; [|done].
  destruct y as [|c1 y]; [done|]. destruct (Ascii.eqb "s" c1) eqn:E1; [|done].
  destruct y as [|c2 y]; [done|]. destruct (Ascii.eqb "k" c2) eqn:E2; [|done].
  destruct y as [|c3 y]; [done|]. destruct (Ascii.eqb "-" c3) eqn:E3; [|done].
  apply Ascii.eqb_eq in E1, E2, E3. subst c1 c2 c3.
  match goal with |- context [greedy ?n ?p ?cont ?k ?pv ?s ?pos] =>
    destruct (greedy n p cont k pv s pos) as [[st l]|] eqn:Eg; [|done] end.
  intros [= <- <-]. split; [done|].
  destruct (greedy_some _ _ _ _ _ _ _ _ Eg) as (K & rest & -> & HK & Hn & Hcont & Hmax).
  cbn beta in Hcont.
  destruct (at_boundary (last_char K (Some "-"%char)) rest) eqn:Hend; [|done].
  injection Hcont as _ <-.
  exists K, rest. repeat split; try done; try lia.
  intros K' rest' E HK' Hl. specialize (Hmax K' rest' E HK' Hl). cbn beta in Hmax.
  by destruct (at_boundary (last_char K' (Some "-"%char)) rest').
Qed.

Lemma hit_sk_complete (prev : option ascii) (K rest : string) :
  at_boundary prev ("sk-" ++ K ++ rest) = true ->
  (16 <= String.length K)%nat -> all_chars key_char K = true ->
  at_boundary (last_char K (Some "-"%char)) rest = true ->
  hit_sk prev ("sk-" ++ K ++ rest) <> None.
Proof.
  intros Hb Hn HK Hend.
  unfold hit_sk, hit, sk_pattern.
  change (lits "sk-") with [lit "s"; lit "k"; lit "-"].
  cbn [app match_here lit]. rewrite Hb. rewrite !sapp_cons, sapp_nil_l.
  rewrite !Ascii.eqb_refl.
  match goal with |- context [greedy ?n ?p ?cont ?k ?pv ?s ?pos] =>
    destruct (greedy n p cont k pv s pos) as [[st l]|] eqn:Eg; [done|] end.
  pose proof (greedy_none _ _ _ _ _ _ _ Eg K rest eq_refl HK ltac:(lia)) as Hc.
  cbn beta in Hc. by rewrite Hend in Hc.
Qed.

Lemma hit_sk_blocks : masks_blocks hit_sk.
Proof.
  intros prev y e len Hh.
  destruct (hit_sk_sound _ _ _ _ Hh) as (_ & K & rest & -> & Hn & _ & _ & -> & -> & _).
  exists "sk-"%string, K, rest. repeat split; try done.
  intros ->. simpl in Hn. lia.
Qed.

Lemma hit_sk_block (prev : option ascii) (P R rest : string) :
  hit_sk prev (P ++ R ++ rest)
  = Some (P ++ stars, (String.length P + String.length R)%nat) ->
  P = "sk-"%string /\ all_chars key_char R = true
  /\ forall K' rest', rest = K' ++ rest' -> K' <> EmptyString ->
                      all_chars key_char K' = true ->
                      at_boundary (last_char K' (last_char (P ++ R) prev)) rest' = false.
Proof.
  intros Hh.
  destruct (hit_sk_sound _ _ _ _ Hh) as (_ & K & rest0 & Ey & Hn & HK & _ & EP & El & Hmax).
  apply sapp_inv_tail in EP as ->. apply sapp_inv_head in Ey.
  destruct (sapp_same_length _ _ _ _ Ey ltac:(simpl in El; lia)) as [-> ->].
  split; [done|]. split; [done|]. intros K' rest' -> HK' Hall.
  assert (HKne : K <> EmptyString) by (intros ->; simpl in Hn; lia).
  rewrite last_char_app, (last_char_nonempty K _ (Some "-"%char) HKne).
  rewrite <- last_char_app. apply Hmax.
  - by sapp_norm.
  - by rewrite all_chars_app, HK.
  - rewrite slength_app. destruct K'; [done|]. simpl. lia.
Qed.

(** A word boundary in the output of a scan, between a character that is
    not a star and what follows, is one in the input. *)
Lemma at_boundary_at (z : ascii) (s o : string) :
  At hit_sk (Some z) s o -> at_boundary (Some z) o = true -> at_boundary (Some z) s = true.
Proof.
  intros HA Hb. remember (Some z) as pz eqn:Ez.
  destruct HA as [? prev ? ? HS | prev P1 P2 R rest o1 Hh HP1 HR HS].
  - by rewrite (at_boundary_head _ s o (eq_sym (scan_head _ _ _ _ HS))).
  - destruct (hit_sk_block _ _ _ _ Hh) as (EP & _).
    destruct P2 as [|p0 P2].
    + rewrite sapp_nil_r in EP. subst P1. cbn [last_char] in Ez. injection Ez as <-.
      rewrite sapp_nil_l in Hb. done.
    + rewrite sapp_cons in Hb |- *. done.
Qed.

(** The rule for keys finds nothing in its own output. *)
Lemma scan_sk_no_hits (ps : option ascii) (s o : string) :
  Scan hit_sk ps s o -> forall po, joined po ps s -> no_hits hit_sk po o.
Proof.
  induction 1 as [prev | prev c0 s0 o0 Hn HS IH | prev P R rest o1 Hh HP HR HS IH];
    intros po Hj x y Eo.
  - symmetry in Eo. apply sapp_eq_nil in Eo as [-> ->]. cbn [last_char].
    destruct (hit_sk po EmptyString) as [[e len]|] eqn:E; [|done].
    by destruct (hit_sk_sound _ _ _ _ E) as (_ & K & rest & Ey & _).
  - destruct x as [|x0 x].
    + rewrite sapp_nil_l in Eo. subst y. cbn [last_char].
      destruct (hit_sk po (String c0 o0)) as [[e len]|] eqn:E; [|done]. exfalso.
      destruct (hit_sk_sound _ _ _ _ E) as (Hb & K & rest & Ey & Hlen & HK & Hend & _).
      assert (HA : At hit_sk None (String c0 s0) (String c0 o0)).
      { apply (At_scan _ _ prev). by apply Scan_keep. }
      assert (HKne : K <> EmptyString) by (intros ->; simpl in Hlen; lia).
      assert (Eo : String c0 o0 = ("sk-" ++ K) ++ rest) by (rewrite Ey; by sapp_norm).
      assert (Hns : nostar ("sk-" ++ K)).
      { apply nostar_app. split; [done|]. by apply key_chars_nostar. }
      destruct (at_walk hit_sk ("sk-" ++ K) _ _ _ rest HA Eo Hns ltac:(done))
        as (s3 & Es & HA3).
      rewrite last_char_app, (last_char_nonempty K _ (Some "-"%char) HKne) in HA3.
      destruct (last_char_is_some K (Some "-"%char) HKne) as (z & Ez).
      rewrite Ez in HA3, Hend. pose proof (at_boundary_at z s3 rest HA3 Hend) as Hend'.
      destruct Hj as [->|[-> Hj]].
      * assert (Es' : String c0 s0 = "sk-" ++ K ++ s3) by (rewrite Es; by sapp_norm).
        rewrite Es' in Hn. revert Hn.
        apply hit_sk_complete; [|done|done|by rewrite Ez].
        rewrite <- Es'. by rewrite (at_boundary_head _ _ (String c0 o0)).
      * specialize (Hj ("sk-" ++ K) s3 Es ltac:(done) ltac:(by rewrite all_chars_app, HK)).
        rewrite last_char_app, (last_char_nonempty K _ (Some "-"%char) HKne), Ez in Hj.
        by rewrite Hj in Hend'.
    + rewrite sapp_cons in Eo. injection Eo as <- Eo. cbn [last_char].
      apply (IH (Some c0)); [by left|done].
  - destruct (hit_sk_block _ _ _ _ Hh) as (-> & HKR & Hmax).
    assert (Hs : forall p z, z <> "s"%char -> forall t, hit_sk p (String z t) = None).
    { intros p z Hz t. destruct (hit_sk p (String z t)) as [[e len]|] eqn:E; [|done].
      destruct (hit_sk_sound _ _ _ _ E) as (_ & K & rest' & Ey & _).
      rewrite !sapp_cons in Ey. by injection Ey as -> _. }
    unfold stars in Eo. rewrite !sapp_cons, !sapp_nil_l in Eo.
    destruct x as [|x0 x].
    { rewrite sapp_nil_l in Eo. subst y. cbn [last_char].
      destruct (hit_sk po _) as [[e len]|] eqn:E; [|done]. exfalso.
      destruct (hit_sk_sound _ _ _ _ E) as (_ & K & rest' & Ey & Hlen & HK & _).
      rewrite !sapp_cons, sapp_nil_l in Ey. injection Ey as Ey.
      destruct K as [|k0 K]; [simpl in Hlen; lia|]. rewrite sapp_cons in Ey.
      injection Ey as <- _. cbn [all_chars] in HK.
      pose proof key_char_not_star as Hks. unfold star in Hks. by rewrite Hks in HK. }
    rewrite sapp_cons in Eo. injection Eo as <- Eo.
    destruct x as [|x1 x]; [rewrite sapp_nil_l in Eo; subst y; by apply Hs|].
    rewrite sapp_cons in Eo. injection Eo as <- Eo.
    destruct x as [|x2 x]; [rewrite sapp_nil_l in Eo; subst y; by apply Hs|].
    rewrite sapp_cons in Eo. injection Eo as <- Eo.
    destruct x as [|x3 x]; [rewrite sapp_nil_l in Eo; subst y; by apply Hs|].
    rewrite sapp_cons in Eo. injection Eo as <- Eo.
    destruct x as [|x4 x]; [rewrite sapp_nil_l in Eo; subst y; by apply Hs|].
    rewrite sapp_cons in Eo. injection Eo as <- Eo.
    destruct x as [|x5 x]; [rewrite sapp_nil_l in Eo; subst y; by apply Hs|].
    rewrite sapp_cons in Eo. injection Eo as <- Eo.
    cbn [last_char]. apply (IH (Some star)); [|done].
    right. split; [done|]. intros K' rest' E HK' Hall. by apply Hmax.
Qed.

(** ** The six rules *)

Ltac solve_alts :=
  unfold alts_api_key, alts_token, alts_password, alts_api_key_flag, alts_token_flag in *;
  repeat match goal with
         | H : In _ _ |- _ => progress cbn [In] in H
         | H : _ \/ _ |- _ => destruct H as [<-|H]
         | H : False |- _ => destruct H
         end.

Lemma alts_api_key_ok :
  compatible alts_api_key /\ plain_alts alts_api_key /\ no_suffix alts_api_key.
Proof.
  split; [|split].
  - intros w1 w2 H1 H2. solve_alts; by vm_compute.
  - intros w H. solve_alts; by vm_compute.
  - intros w1 w2 n H1 H2 Hn Hl. solve_alts; cbn [String.length] in Hl; try lia.
    all: assert (n = 1)%nat as -> by lia; reflexivity.
Qed.

Lemma alts_token_ok : compatible alts_token /\ plain_alts alts_token /\ no_suffix alts_token.
Proof.
  split; [|split].
  - intros w1 w2 H1 H2. solve_alts; by vm_compute.
  - intros w H. solve_alts; by vm_compute.
  - intros w1 w2 n H1 H2 Hn Hl. solve_alts; cbn [String.length] in Hl; lia.
Qed.

Lemma alts_password_ok :
  compatible alts_password /\ plain_alts alts_password /\ no_suffix alts_password.
Proof.
  split; [|split].
  - intros w1 w2 H1 H2. solve_alts; by vm_compute.
  - intros w H. solve_alts; by vm_compute.
  - intros w1 w2 n H1 H2 Hn Hl. solve_alts; cbn [String.length] in Hl; lia.
Qed.

Lemma alts_api_key_flag_ok :
  compatible alts_api_key_flag /\ plain_alts alts_api_key_flag /\ no_suffix alts_api_key_flag.
Proof.
  split; [|split].
  - intros w1 w2 H1 H2. solve_alts; by vm_compute.
  - intros w H. solve_alts; by vm_compute.
  - intros w1 w2 n H1 H2 Hn Hl. solve_alts; cbn [String.length] in Hl; lia.
Qed.

Lemma alts_token_flag_ok :
  compatible alts_token_flag /\ plain_alts alts_token_flag /\ no_suffix alts_token_flag.
Proof.
  split; [|split].
  - intros w1 w2 H1 H2. solve_alts; by vm_compute.
  - intros w H. solve_alts; by vm_compute.
  - intros w1 w2 n H1 H2 Hn Hl. solve_alts; cbn [String.length] in Hl; lia.
Qed.

Lemma assign_rule (KW : list item) (alts : list string) :
  kw_ok KW alts -> compatible alts /\ plain_alts alts /\ no_suffix alts ->
  keeps_prefix (hit (assignment_pattern KW) mask_repl) (pre_assign alts) not_space_or_quote
  /\ prefix_shape (pre_assign alts).
Proof.
  intros Hkw (Hc & Hp & Hn). split; [split; [|split]|].
  - intros prev y e len Hh. unfold mask_repl in Hh. rewrite (hit_assignment KW alts Hkw) in Hh.
    by apply hit_assign_sound.
  - intros prev Q R rest HQ HR Hall Hst. unfold mask_repl.
    rewrite (hit_assignment KW alts Hkw). by apply hit_assign_complete.
  - intros P Q A Z HP HQ E. by destruct (pre_assign_nested alts Hp Hn P Q A Z HP HQ E).
  - intros Q HQ. destruct (pre_assign_shape alts Hp Q HQ) as (Hne & Hns & _ & Hl). done.
Qed.

Lemma flag_rule (flag : string) :
  compatible [flag] /\ plain_alts [flag] /\ no_suffix [flag] ->
  keeps_prefix (hit (flag_pattern flag) mask_repl) (pre_flag [flag]) not_space
  /\ prefix_shape (pre_flag [flag]).
Proof.
  intros (Hc & Hp & Hn). split; [split; [|split]|].
  - intros prev y e len Hh. unfold mask_repl in Hh. rewrite hit_flag_pattern in Hh.
    by apply hit_flag_sound.
  - intros prev Q R rest HQ HR Hall Hst. unfold mask_repl.
    rewrite hit_flag_pattern. by apply hit_flag_complete.
  - intros P Q A Z HP HQ E. by destruct (pre_flag_nested [flag] Hp Hn P Q A Z HP HQ E).
  - intros Q HQ. destruct (pre_flag_shape [flag] Hp Q HQ) as (Hne & Hns & _ & Hl). done.
Qed.

Lemma star_not_space : not_space star = true.
Proof. reflexivity. Qed.

Lemma shape_plain (pre : string -> Prop) :
  prefix_shape pre -> forall Q, pre Q -> Q <> EmptyString /\ nostar Q.
Proof. intros H Q HQ. by destruct (H Q HQ) as (? & ? & _). Qed.

Lemma rule_blocks (h : option ascii -> string -> option (string * nat))
      (pre : string -> Prop) (G : ascii -> bool) :
  keeps_prefix h pre G /\ prefix_shape pre -> masks_blocks h.
Proof.
  intros [(Hs & _) Hsh]. apply (hits_only_blocks h pre G Hs). by apply shape_plain.
Qed.

Lemma rule_masks (h : option ascii -> string -> option (string * nat))
      (pre : string -> Prop) (G : ascii -> bool) :
  keeps_prefix h pre G /\ prefix_shape pre -> G star = true ->
  forall prev s o, Scan h prev s o -> secrets_masked pre G o.
Proof.
  intros [(Hs & Hc & Hn) Hsh] HG prev s o.
  apply (scan_masks h pre G Hs Hc (shape_plain pre Hsh) Hn HG).
Qed.

Lemma rule_keeps (hj : option ascii -> string -> option (string * nat))
      (prej : string -> Prop) (Gj : ascii -> bool) (pre : string -> Prop) (G : ascii -> bool) :
  keeps_prefix hj prej Gj /\ prefix_shape prej -> prefix_shape pre -> G star = true ->
  (forall c, G c = true -> Gj c = true) ->
  forall prev s o, secrets_masked pre G s -> Scan hj prev s o -> secrets_masked pre G o.
Proof.
  intros Hj Hsh HG Hsub prev s o.
  apply (scan_keeps_masked hj pre G (rule_blocks hj prej Gj Hj) (shape_plain pre Hsh) HG).
  intros p P R rest Q Hh _ _. destruct Hj as [(Hs & _) _].
  by apply (hits_only_edge hj prej Gj G Hs Hsub p P R rest).
Qed.

Lemma sk_keeps (pre : string -> Prop) (G : ascii -> bool) :
  prefix_shape pre -> G star = true ->
  forall prev s o, secrets_masked pre G s -> Scan hit_sk prev s o -> secrets_masked pre G o.
Proof.
  intros Hsh HG prev s o.
  apply (scan_keeps_masked hit_sk pre G hit_sk_blocks (shape_plain pre Hsh) HG).
  intros p P R rest Q Hh HQ El. exfalso.
  destruct (hit_sk_block _ _ _ _ Hh) as (-> & _).
  destruct (Hsh Q HQ) as (_ & _ & d & Hd & Hsp).
  rewrite Hd in El. cbn [last_char] in El. injection El as ->. done.
Qed.

Lemma sub_scan_spec (p : list item) (repl : list piece) (s : string) :
  masks_blocks (hit p repl) -> Scan (hit p repl) None s (sub p repl s).
Proof.
  intros Hb. unfold sub. rewrite sub_scan_scan_with.
  by apply (scan_exists _ Hb (String.length s)).
Qed.

Lemma rule_fixed (p : list item) (repl : list piece) (pre : string -> Prop) (G : ascii -> bool) :
  keeps_prefix (hit p repl) pre G /\ prefix_shape pre ->
  forall s, secrets_masked pre G s -> sub p repl s = s.
Proof.
  intros Hr s Hm.
  apply (scan_fixed (hit p repl) pre G (proj1 (proj1 Hr)) None s _
           (sub_scan_spec p repl s (rule_blocks _ _ _ Hr)) EmptyString).
  by rewrite sapp_nil_l.
Qed.

Lemma rule_api_key :
  keeps_prefix (hit (assignment_pattern api_key_kw) mask_repl)
               (pre_assign alts_api_key) not_space_or_quote
  /\ prefix_shape (pre_assign alts_api_key).
Proof. exact (assign_rule api_key_kw alts_api_key kw_ok_api_key alts_api_key_ok). Qed.

Lemma rule_token :
  keeps_prefix (hit (assignment_pattern (lits_i "token")) mask_repl)
               (pre_assign alts_token) not_space_or_quote
  /\ prefix_shape (pre_assign alts_token).
Proof. exact (assign_rule _ alts_token (kw_ok_lits_i "token") alts_token_ok). Qed.

Lemma rule_password :
  keeps_prefix (hit (assignment_pattern (lits_i "password")) mask_repl)
               (pre_assign alts_password) not_space_or_quote
  /\ prefix_shape (pre_assign alts_password).
Proof. exact (assign_rule _ alts_password (kw_ok_lits_i "password") alts_password_ok). Qed.

Lemma rule_api_key_flag :
  keeps_prefix (hit (flag_pattern "--api-key") mask_repl)
               (pre_flag alts_api_key_flag) not_space
  /\ prefix_shape (pre_flag alts_api_key_flag).
Proof. exact (flag_rule "--api-key" alts_api_key_flag_ok). Qed.

Lemma rule_token_flag :
  keeps_prefix (hit (flag_pattern "--token") mask_repl)
               (pre_flag alts_token_flag) not_space
  /\ prefix_shape (pre_flag alts_token_flag).
Proof. exact (flag_rule "--token" alts_token_flag_ok). Qed.

Lemma redact_steps (s : string) :
  redact s
  = sub sk_pattern [Lit "sk-***"]
      (sub (flag_pattern "--token") mask_repl
         (sub (flag_pattern "--api-key") mask_repl
            (sub (assignment_pattern (lits_i "password")) mask_repl
               (sub (assignment_pattern (lits_i "token")) mask_repl
                  (sub (assignment_pattern api_key_kw) mask_repl s))))).
Proof. reflexivity. Qed.

Lemma redact_masked (s : string) : masked (redact s) /\ no_hits hit_sk None (redact s).
Proof.
  rewrite redact_steps.
  pose proof (sub_scan_spec _ _ s (rule_blocks _ _ _ rule_api_key)) as S1.
  set (t1 := sub (assignment_pattern api_key_kw) mask_repl s) in *.
  pose proof (sub_scan_spec _ _ t1 (rule_blocks _ _ _ rule_token)) as S2.
  set (t2 := sub (assignment_pattern (lits_i "token")) mask_repl t1) in *.
  pose proof (sub_scan_spec _ _ t2 (rule_blocks _ _ _ rule_password)) as S3.
  set (t3 := sub (assignment_pattern (lits_i "password")) mask_repl t2) in *.
  pose proof (sub_scan_spec _ _ t3 (rule_blocks _ _ _ rule_api_key_flag)) as S4.
  set (t4 := sub (flag_pattern "--api-key") mask_repl t3) in *.
  pose proof (sub_scan_spec _ _ t4 (rule_blocks _ _ _ rule_token_flag)) as S5.
  set (t5 := sub (flag_pattern "--token") mask_repl t4) in *.
  pose proof (sub_scan_spec sk_pattern [Lit "sk-***"] t5 hit_sk_blocks) as S6.
  set (t6 := sub sk_pattern [Lit "sk-***"] t5) in *.
  clearbody t1 t2 t3 t4 t5 t6.
  pose proof (rule_masks _ _ _ rule_api_key star_secret _ _ _ S1) as M1.
  pose proof (rule_masks _ _ _ rule_token star_secret _ _ _ S2) as M2.
  pose proof (rule_masks _ _ _ rule_password star_secret _ _ _ S3) as M3.
  pose proof (rule_masks _ _ _ rule_api_key_flag star_not_space _ _ _ S4) as M4.
  pose proof (rule_masks _ _ _ rule_token_flag star_not_space _ _ _ S5) as M5.
  assert (Hid : forall c, not_space_or_quote c = true -> not_space_or_quote c = true) by done.
  assert (Hid' : forall c, not_space c = true -> not_space c = true) by done.
  pose proof (proj2 rule_api_key) as Sh1. pose proof (proj2 rule_token) as Sh2.
  pose proof (proj2 rule_password) as Sh3. pose proof (proj2 rule_api_key_flag) as Sh4.
  pose proof (proj2 rule_token_flag) as Sh5.
  apply (rule_keeps _ _ _ _ _ rule_token Sh1 star_secret Hid _ _ _) in S2 as M12; [|done].
  apply (rule_keeps _ _ _ _ _ rule_password Sh1 star_secret Hid _ _ _) in S3 as M13; [|done].
  apply (rule_keeps _ _ _ _ _ rule_password Sh2 star_secret Hid _ _ _) in S3 as M23; [|done].
  apply (rule_keeps _ _ _ _ _ rule_api_key_flag Sh1 star_secret secret_not_space _ _ _)
    in S4 as M14; [|done].
  apply (rule_keeps _ _ _ _ _ rule_api_key_flag Sh2 star_secret secret_not_space _ _ _)
    in S4 as M24; [|done].
  apply (rule_keeps _ _ _ _ _ rule_api_key_flag Sh3 star_secret secret_not_space _ _ _)
    in S4 as M34; [|done].
  apply (rule_keeps _ _ _ _ _ rule_token_flag Sh1 star_secret secret_not_space _ _ _)
    in S5 as M15; [|done].
  apply (rule_keeps _ _ _ _ _ rule_token_flag Sh2 star_secret secret_not_space _ _ _)
    in S5 as M25; [|done].
  apply (rule_keeps _ _ _ _ _ rule_token_flag Sh3 star_secret secret_not_space _ _ _)
    in S5 as M35; [|done].
  apply (rule_keeps _ _ _ _ _ rule_token_flag Sh4 star_not_space Hid' _ _ _)
    in S5 as M45; [|done].
  split; [repeat split|].
  - exact (sk_keeps _ _ Sh1 star_secret None t5 t6 M15 S6).
  - exact (sk_keeps _ _ Sh2 star_secret None t5 t6 M25 S6).
  - exact (sk_keeps _ _ Sh3 star_secret None t5 t6 M35 S6).
  - exact (sk_keeps _ _ Sh4 star_not_space None t5 t6 M45 S6).
  - exact (sk_keeps _ _ Sh5 star_not_space None t5 t6 M5 S6).
  - apply (scan_sk_no_hits None t5 t6 S6). by left.
Qed.

(** ** Redaction twice *)

Lemma scan_last_char (h : option ascii -> string -> option (string * nat))
      (prev : option ascii) (s o : string) :
  Scan h prev s o ->
  forall p, last_char o p = last_char s p \/ last_char o p = Some star.
Proof.
  induction 1 as [prev | prev c0 s0 o0 Hn HS IH | prev P R rest o1 Hh HP HR HS IH]; intros p.
  - by left.
  - cbn [last_char]. apply IH.
  - rewrite !last_char_app.
    replace (last_char stars (last_char P p)) with (Some star) by done.
    destruct rest as [|r0 rest].
    + destruct (IH (Some star)) as [E|E]; right; exact E.
    + destruct (IH (Some star)) as [E|E]; [left|by right].
      rewrite E. by apply last_char_nonempty.
Qed.

Lemma scan_stripped (h : option ascii -> string -> option (string * nat))
      (prev : option ascii) (s o : string) :
  Scan h prev s o -> stripped s -> stripped o.
Proof.
  intros HS Hs. pose proof (scan_head h _ _ _ HS) as Hh.
  destruct o as [|c o]; [done|]. destruct s as [|c' s]; [done|].
  injection Hh as <-. destruct Hs as [Hc Hl]. split; [done|].
  destruct (scan_last_char h _ _ _ HS None) as [->| ->]; done.
Qed.

Lemma redact_stripped (s : string) : stripped s -> stripped (redact s).
Proof.
  intros Hs. rewrite redact_steps.
  apply (scan_stripped _ _ _ _ (sub_scan_spec sk_pattern _ _ hit_sk_blocks)).
  apply (scan_stripped _ _ _ _ (sub_scan_spec _ _ _ (rule_blocks _ _ _ rule_token_flag))).
  apply (scan_stripped _ _ _ _ (sub_scan_spec _ _ _ (rule_blocks _ _ _ rule_api_key_flag))).
  apply (scan_stripped _ _ _ _ (sub_scan_spec _ _ _ (rule_blocks _ _ _ rule_password))).
  apply (scan_stripped _ _ _ _ (sub_scan_spec _ _ _ (rule_blocks _ _ _ rule_token))).
  by apply (scan_stripped _ _ _ _ (sub_scan_spec _ _ _ (rule_blocks _ _ _ rule_api_key))).
Qed.

Lemma rstrip_kept (s : string) :
  (forall d, last_char s None = Some d -> isspace d = false) -> rstrip s = s.
Proof.
  induction s as [|c s IH]; [done|]. intros Hl. cbn [rstrip].
  destruct s as [|c' s].
  - cbn [rstrip]. by rewrite (Hl c).
  - rewrite IH; [done|]. intros d Hd. apply Hl. cbn [last_char] in Hd |- *. done.
Qed.

Lemma rstrip_last (s : string) (p : option ascii) (d : ascii) :
  rstrip s <> EmptyString -> last_char (rstrip s) p = Some d -> isspace d = false.
Proof.
  revert p. induction s as [|c s IH]; intros p; [done|]. cbn [rstrip].
  destruct (rstrip s) as [|r0 r] eqn:Er.
  - destruct (isspace c) eqn:Hc; [done|]. cbn [last_char]. by intros _ [= <-].
  - intros _. cbn [last_char]. intros Hd. by apply (IH (Some c)).
Qed.

Lemma rstrip_head (s : string) : rstrip s <> EmptyString -> head (rstrip s) = head s.
Proof.
  destruct s as [|c s]; [done|]. cbn [rstrip].
  destruct (rstrip s); [|done]. by destruct (isspace c).
Qed.

Lemma lstrip_head (s : string) (c : ascii) : head (lstrip s) = Some c -> isspace c = false.
Proof.
  induction s as [|x s IH]; [done|]. cbn [lstrip].
  destruct (isspace x) eqn:Hx; [done|]. by intros [= <-].
Qed.

Lemma strip_is_stripped (s : string) : stripped (strip s).
Proof.
  unfold strip. destruct (rstrip (lstrip s)) as [|c r] eqn:E; [done|].
  assert (Hne : rstrip (lstrip s) <> EmptyString) by by rewrite E.
  split.
  - apply (lstrip_head s). rewrite <- (rstrip_head _ Hne). by rewrite E.
  - destruct (last_char (String c r) None) as [d|] eqn:Ed; [|done].
    apply (rstrip_last (lstrip s) None d Hne). by rewrite E.
Qed.

Lemma strip_stripped (s : string) : stripped s -> strip s = s.
Proof.
  destruct s as [|c s]; [done|]. intros [Hc Hl]. unfold strip.
  cbn [lstrip]. rewrite Hc. apply rstrip_kept. intros d Hd. by rewrite Hd in Hl.
Qed.

(** A text whose secrets are masked and that holds no key is left as it is
    by the six rules. *)
Lemma masked_fixed (t : string) : masked t -> no_hits hit_sk None t -> redact t = t.
Proof.
  intros (M1 & M2 & M3 & M4 & M5) M6. rewrite (redact_steps t).
  rewrite (rule_fixed _ _ _ _ rule_api_key t M1), (rule_fixed _ _ _ _ rule_token t M2),
    (rule_fixed _ _ _ _ rule_password t M3), (rule_fixed _ _ _ _ rule_api_key_flag t M4),
    (rule_fixed _ _ _ _ rule_token_flag t M5).
  exact (scan_no_hits hit_sk None t _ (sub_scan_spec sk_pattern _ t hit_sk_blocks) M6).
Qed.

(** X26.  Redaction finds nothing to mask in its own output: applying the
    six replacements of [SECRET_REPLACEMENTS] to a text they have already
    been applied to leaves it as it is. *)
Theorem redact_idempotent (s : string) : redact (redact s) = redact s.
Proof.
  destruct (redact_masked s) as [M M6]. by apply masked_fixed.
Qed.

(** X27.  After redaction, wherever one of the keywords [api_key],
    [api-key], [apikey], [token] or [password] (in any letter case),
    optional white space, [=] or [:] and optional white space are followed
    by characters other than white space and quotes, these characters are
    exactly three stars; and the same after the flags [--api-key] and
    [--token] and white space, for the characters other than white space. *)
Theorem redact_masks_every_secret (s : string) : masked (redact s).
Proof. exact (proj1 (redact_masked s)). Qed.

(** X28.  After redaction, a text [sk-] that starts at a word boundary and is
    followed by key characters up to a word boundary has fewer than
    sixteen of them: no key of the form the sixth rule looks for is left. *)
Theorem redact_leaves_no_key (s x K rest : string) :
  redact s = x ++ "sk-" ++ K ++ rest ->
  all_chars key_char K = true ->
  at_boundary (last_char x None) ("sk-" ++ K ++ rest) = true ->
  at_boundary (last_char K (Some "-"%char)) rest = true ->
  (String.length K < 16)%nat.
Proof.
  intros E HK Hb He.
  destruct (le_lt_dec 16 (String.length K)) as [Hl|Hl]; [|done]. exfalso.
  apply (hit_sk_complete (last_char x None) K rest Hb Hl HK He).
  by apply (proj2 (redact_masked s) x).
Qed.

Lemma redact_leaves_no_key_witness :
  redact "see sk-abc." = "see " ++ "sk-" ++ "abc" ++ "."
  /\ (String.length "abc" < 16)%nat.
Proof.
  split; [vm_compute; reflexivity|].
  apply (redact_leaves_no_key "see sk-abc." "see " "abc" "."); vm_compute; reflexivity.
Defined.

(** A second pass of the sanitizer over a text whose redaction was not
    cut: strip and the redactions find nothing left to do. *)
Lemma sanitize_twice_uncut (text : string) :
  (String.length (redact (strip text)) <= 4000)%nat ->
  _sanitize_text (_sanitize_text text) = _sanitize_text text.
Proof.
  intros Hl. destruct text as [|c text]; [done|].
  assert (Ht : forall y, (String.length y <= 4000)%nat -> truncate y = y).
  { intros y Hy. unfold truncate.
    destruct (4000 <? String.length y)%nat eqn:E; [|done].
    apply Nat.ltb_lt in E. lia. }
  cbn [_sanitize_text]. rewrite (Ht _ Hl).
  pose proof (redact_stripped _ (strip_is_stripped (String c text))) as Hs.
  destruct (redact_masked (strip (String c text))) as [M M6].
  pose proof (masked_fixed _ M M6) as Hi. clear M M6.
  set (y := redact (strip (String c text))) in *. clearbody y.
  destruct y as [|d y]; [done|].
  cbn [_sanitize_text]. by rewrite (strip_stripped _ Hs), Hi, (Ht _ Hl).
Qed.

(** X29.  [_sanitize_text] applied to its own result changes nothing, as long
    as the redacted text is within the 4000 characters that are kept. *)
Theorem sanitize_text_twice (text : string) :
  (String.length (redact (strip text)) <= 4000)%nat ->
  _sanitize_text (_sanitize_text text) = _sanitize_text text.
Proof. apply sanitize_twice_uncut. Qed.

Lemma sanitize_text_twice_witness :
  (String.length (redact (strip "  export TOKEN = abc123  ")) <= 4000)%nat
  /\ _sanitize_text (_sanitize_text "  export TOKEN = abc123  ")
     = _sanitize_text "  export TOKEN = abc123  ".
Proof.
  split; [vm_compute; lia|]. apply sanitize_text_twice. vm_compute. lia.
Defined.

(** X30.  What the rule for [token] matches at the head of a text, and what
    it puts in its place: the keyword in any letter case, optional white
    space, [=] or [:], optional white space, and then the longest run of
    characters other than white space and quotes, which must not be empty;
    the run is replaced by three stars and the rest is kept. *)
Theorem token_rule_matches (prev : option ascii) (y e : string) (len : nat) :
  hit (assignment_pattern (lits_i "token")) mask_repl prev y = Some (e, len)
  <-> exists Q R rest,
      y = Q ++ R ++ rest /\ pre_assign alts_token Q /\ R <> EmptyString
      /\ all_chars not_space_or_quote R = true /\ stops not_space_or_quote rest
      /\ e = Q ++ stars /\ len = (String.length Q + String.length R)%nat.
Proof.
  destruct rule_token as [(Hs & Hc & _) _]. split.
  - apply Hs.
  - intros (Q & R & rest & -> & HQ & HR & Hall & Hst & -> & ->). by apply Hc.
Qed.

(** ** The contract of the sanitizer *)

(** C5, amended: for every input the sanitizer returns (it is a total
    function) the result of strip, then the six redactions in their order,
    then truncation to 4000 characters, so its output has at most 4000
    characters; and a second pass changes nothing whenever the truncation
    of the first pass cuts nothing, that is whenever the stripped and
    redacted text has at most 4000 characters. *)
Theorem sanitize_contract (x : string) :
  _sanitize_text x = truncate (redact (strip x))
  /\ (String.length (_sanitize_text x) <= 4000)%nat
  /\ ((String.length (redact (strip x)) <= 4000)%nat ->
      _sanitize_text (_sanitize_text x) = _sanitize_text x).
Proof.
  split; [apply sanitize_steps|]. split; [apply sanitize_length|].
  apply sanitize_twice_uncut.
Qed.

Lemma sanitize_contract_witness :
  (String.length (redact (strip "  export API_KEY=abcdefghijk TOKEN=xyz ")) <= 4000)%nat
  /\ _sanitize_text (_sanitize_text "  export API_KEY=abcdefghijk TOKEN=xyz ")
     = _sanitize_text "  export API_KEY=abcdefghijk TOKEN=xyz ".
Proof.
  split; [vm_compute; lia|].
  apply (sanitize_contract "  export API_KEY=abcdefghijk TOKEN=xyz "). vm_compute. lia.
Defined.
